(** * scraper.py: slug normalisation, discovery, resumable pull loop

    A shallow embedding of [src/scraper.py].  Python [str] values are lists of
    Unicode code points, Python [int] values are [Z], the [set] of discovered
    identifiers is a [gset Z], and the browser page together with the file
    system is an explicit world that every step threads through. *)

From Stdlib Require Import ZArith QArith Qround Strings.String Strings.Ascii Lia.
From stdpp Require Import base numbers list sorting gmap pretty.

#[local] Set Warnings "-clear-no-such-hyp".

Local Open Scope Z_scope.
Local Open Scope list_scope.

(** ** Python strings *)

(** A Python [str] is a sequence of code points. *)
Abbreviation str := (list N).

(** [py "..."] is the [str] written by an ASCII literal. *)
Definition py (s : string) : str := N_of_ascii <$> list_ascii_of_string s.

Module Py.

(** [str.isspace] for one code point, as CPython's
    [_Py_ascii_whitespace] and [_PyUnicode_IsWhitespace] decide it. *)
Definition isspace (c : N) : bool :=
  ((0x09 <=? c) && (c <=? 0x0D) || (0x1C <=? c) && (c <=? 0x20)
   || (c =? 0x85) || (c =? 0xA0) || (c =? 0x1680)
   || (0x2000 <=? c) && (c <=? 0x200A)
   || (c =? 0x2028) || (c =? 0x2029) || (c =? 0x202F) || (c =? 0x205F)
   || (c =? 0x3000))%N.

(** Membership of a code point in the argument of [strip(chars)]. *)
Definition in_chars (chars : str) (c : N) : bool :=
  existsb (N.eqb c) chars.

Fixpoint lstrip_by (p : N -> bool) (s : str) : str :=
  match s with
  | [] => []
  | c :: t => if p c then lstrip_by p t else s
  end.

Definition rstrip_by (p : N -> bool) (s : str) : str :=
  reverse (lstrip_by p (reverse s)).

Definition strip_by (p : N -> bool) (s : str) : str :=
  rstrip_by p (lstrip_by p s).

(** [s.strip()] *)
Definition strip (s : str) : str := strip_by isspace s.

(** [s.strip(chars)] *)
Definition strip_chars (chars s : str) : str := strip_by (in_chars chars) s.

(** The Unicode case tables behind [str.lower] for code points above
    ASCII live in the interpreter, not in the repository: they are taken as
    a parameter.  The mapping sees the whole string and the position, since
    CPython lowers capital sigma by context, and may return several code
    points. *)
Class CaseTables := { lower_nonascii : str -> nat -> N -> str }.

Definition ascii_lower (c : N) : N :=
  if ((0x41 <=? c) && (c <=? 0x5A))%N then (c + 32)%N else c.

Fixpoint lower_from `{CaseTables} (whole : str) (i : nat) (s : str) : str :=
  match s with
  | [] => []
  | c :: t =>
    (if (c <? 128)%N then [ascii_lower c] else lower_nonascii whole i c)
      ++ lower_from whole (S i) t
  end.

(** [s.lower()] *)
Definition lower `{CaseTables} (s : str) : str := lower_from s 0 s.

Fixpoint is_prefix (p s : str) : bool :=
  match p, s with
  | [], _ => true
  | _ :: _, [] => false
  | a :: p', b :: s' => (a =? b)%N && is_prefix p' s'
  end.

(** [s.replace(old, new)] for a non-empty [old]: occurrences are replaced
    left to right without overlap; [skip] counts the code points of the
    occurrence just replaced that are still to be passed over. *)
Fixpoint replace_go (old new : str) (skip : nat) (s : str) : str :=
  match s with
  | [] => []
  | c :: t =>
    match skip with
    | S k => replace_go old new k t
    | O =>
      if is_prefix old s then new ++ replace_go old new (pred (length old)) t
      else c :: replace_go old new O t
    end
  end.

Definition replace (old new s : str) : str := replace_go old new O s.

(** [str(n)] for an [int]. *)
Definition str_int (n : Z) : str := py (pretty n).

(** [format(n, "02d")]: sign-aware zero padding to width two. *)
Definition format_02d (n : Z) : str :=
  let digits := py (pretty (Z.abs n)) in
  let sign := if n <? 0 then py "-" else [] in
  sign ++ replicate (2 - length sign - length digits)%nat 0x30%N ++ digits.

End Py.

(** ** Regular expressions

    The three patterns of the source are a character class and a character
    class under [+]. *)
Module Re.

Inductive pattern :=
| Class (cls : N -> bool)        (* [...] *)
| ClassPlus (cls : N -> bool).   (* [...]+ *)

Definition sub_class (cls : N -> bool) (repl s : str) : str :=
  concat ((fun c => if cls c then repl else [c]) <$> s).

(** Leftmost match, greedy [+]: a match starting at [c] swallows the whole
    run that follows before scanning resumes. *)
Fixpoint sub_plus (cls : N -> bool) (repl s : str) : str :=
  match s with
  | [] => []
  | c :: t =>
    if cls c then
      repl ++ (fix swallow (u : str) : str :=
                 match u with
                 | [] => []
                 | d :: v => if cls d then swallow v
                             else d :: sub_plus cls repl v
                 end) t
    else c :: sub_plus cls repl t
  end.

(** [re.sub(pattern, repl, s)] *)
Definition sub (p : pattern) (repl s : str) : str :=
  match p with
  | Class cls => sub_class cls repl s
  | ClassPlus cls => sub_plus cls repl s
  end.

End Re.

(** ** Slug normaliser *)

Definition is_quote (c : N) : bool :=
  ((c =? 0x2019) || (c =? 0x27) || (c =? 0x60))%N.

Definition is_lower_alnum (c : N) : bool :=
  ((0x61 <=? c) && (c <=? 0x7A) || (0x30 <=? c) && (c <=? 0x39))%N.

Definition is_underscore (c : N) : bool := (c =? 0x5F)%N.

Definition slugify_site_name `{Py.CaseTables} (name : str) : str :=
  let s := Py.lower (Py.strip name) in
  let s := Py.replace (py "&") (py " and ") s in
  let s := Re.sub (Re.Class is_quote) [] s in
  let s := Re.sub (Re.ClassPlus (fun c => negb (is_lower_alnum c))) (py "_") s in
  let s := Re.sub (Re.ClassPlus is_underscore) (py "_") s in
  Py.strip_chars (py "_") s.

(** A case table that leaves every code point above ASCII alone; any table
    gives the same results on ASCII input. *)
Definition ascii_only_tables : Py.CaseTables :=
  {| Py.lower_nonascii := fun _ _ c => [c] |}.

(** ** The normaliser, step by step in the words of the specification

    A second reading of the normaliser, written from the specification's
    list of steps rather than from the source, with the replacement for the
    ampersand left open so that both readings of that step can be compared
    with the code. *)
Module SlugSpec.

Definition trim_whitespace (s : str) : str := Py.strip_by Py.isspace s.

Definition expand_ampersand (word s : str) : str :=
  c ← s; if (c =? 0x26)%N then word else [c].

Definition strip_quotes (s : str) : str :=
  List.filter (fun c => negb (is_quote c)) s.

(** One pass with a flag telling whether the previous code point was in
    the class: the first member of a run emits the underscore, the others
    emit nothing. *)
Fixpoint collapse_runs (cls : N -> bool) (in_run : bool) (s : str) : str :=
  match s with
  | [] => []
  | c :: t =>
    if cls c then
      (if in_run then [] else [0x5F%N]) ++ collapse_runs cls true t
    else c :: collapse_runs cls false t
  end.

Definition trim_underscores (s : str) : str := Py.strip_by is_underscore s.

Definition pipeline `{Py.CaseTables} (word x : str) : str :=
  let s := trim_whitespace x in
  let s := Py.lower s in
  let s := expand_ampersand word s in
  let s := strip_quotes s in
  let s := collapse_runs (fun c => negb (is_lower_alnum c)) false s in
  let s := collapse_runs is_underscore false s in
  trim_underscores s.

End SlugSpec.

(** The slug alphabet [[a-z0-9_]]. *)
Definition is_slug_char (c : N) : bool := is_lower_alnum c || is_underscore c.

(** No two neighbours of [l] are both in [cls]. *)
Fixpoint no_adjacent (cls : N -> bool) (l : str) : bool :=
  match l with
  | [] => true
  | a :: t =>
    negb (cls a && match t with b :: _ => cls b | [] => false end)
    && no_adjacent cls t
  end.

(** ** The fixed manifest *)

Record PullSpec := { key : str; url_template : str }.

Definition SPECS : list PullSpec :=
  [ {| key := py "incidence";
       url_template := py "https://seer.cancer.gov/statistics-network/explorer/application.html?site={SITE_ID}&data_type=1&graph_type=2&compareBy=sex&chk_sex_3=3&chk_sex_2=2&rate_type=2&race=1&age_range=1&hdn_stage=101&advopt_precision=1&advopt_show_ci=on#resultsRegion0" |};
    {| key := py "mortality";
       url_template := py "https://seer.cancer.gov/statistics-network/explorer/application.html?site={SITE_ID}&data_type=2&graph_type=2&compareBy=sex&chk_sex_3=3&chk_sex_2=2&race=1&age_range=1&advopt_precision=1&advopt_show_ci=on" |};
    {| key := py "survival";
       url_template := py "https://seer.cancer.gov/statistics-network/explorer/application.html?site={SITE_ID}&data_type=4&graph_type=2&compareBy=sex&chk_sex_3=3&chk_sex_2=2&relative_survival_interval=5&race=1&age_range=1&hdn_stage=101&advopt_precision=1&advopt_show_ci=on" |} ].

(** [template.format(SITE_ID=site_id)]; the templates hold no other field. *)
Definition format_SITE_ID (template : str) (site_id : Z) : str :=
  Py.replace (py "{SITE_ID}") (Py.str_int site_id) template.

(** The page every item starts on, and the bootstrap page of discovery. *)
Definition first_url (site_id : Z) : str :=
  match SPECS with
  | spec :: _ => format_SITE_ID (url_template spec) site_id
  | [] => []
  end.

(** ** Paths ([posixpath]) *)
Module OsPath.

Definition sep : N := 0x2F%N.

Definition starts_with_sep (b : str) : bool :=
  match b with c :: _ => (c =? sep)%N | [] => false end.

Definition ends_with_sep (a : str) : bool :=
  match last a with Some c => (c =? sep)%N | None => false end.

Definition join2 (path b : str) : str :=
  if starts_with_sep b then b
  else if match path with [] => true | _ => ends_with_sep path end
       then path ++ b
       else path ++ [sep] ++ b.

(** [os.path.join(a, *p)] *)
Definition join (a : str) (p : list str) : str := foldl join2 a p.

(** [os.path.dirname(p)]: up to the last separator, trailing separators
    dropped unless nothing else is left. *)
Definition dirname (p : str) : str :=
  let head :=
    reverse (Py.lstrip_by (fun c => negb (c =? sep)%N) (reverse p)) in
  if forallb (fun c => (c =? sep)%N) head then head
  else Py.rstrip_by (fun c => (c =? sep)%N) head.

Fixpoint upto_sep (s : str) : str :=
  match s with
  | [] => []
  | c :: t => if (c =? sep)%N then [] else c :: upto_sep t
  end.

(** [os.path.basename(p)]: what follows the last separator. *)
Definition basename (p : str) : str := reverse (upto_sep (reverse p)).

(** [os.path.split(p)] *)
Definition split (p : str) : str * str := (dirname p, basename p).

(** The root: separators and nothing else. *)
Definition is_root (p : str) : bool :=
  match p with [] => false | _ => forallb (fun c => (c =? sep)%N) p end.

(** A path without the trailing separators the kernel ignores. *)
Definition chomp (p : str) : str :=
  if is_root p then p else Py.rstrip_by (fun c => (c =? sep)%N) p.

End OsPath.

(** ** The world: file system, page, persisted state *)

Inductive file_kind := RegularFile | Directory | OtherEntry.

(** What [os.stat] tells about a path: the kind of the entry and [st_size]. *)
Record stat := { st_kind : file_kind; st_size : Z }.

(** The answers of everything outside the program (the remote site through
    the page, the clock, the platform), scripted by the number of answers
    already consumed: any run the program can have is the run against some
    script. *)
Record Script := {
  goto_loads : nat -> str -> bool;        (* page.goto; false: timeout *)
  click_lands : nat -> str -> bool;       (* page.click; false: timeout *)
  selector_appears : nat -> str -> bool;  (* page.wait_for_selector; false: timeout *)
  title_attr : nat -> option str;         (* el.get_attribute("title") *)
  inner_text : nat -> str;                (* el.inner_text() *)
  download_arrives : nat -> option Z;     (* expect_download + click: size of the
                                             content; None: timeout *)
  rendered_ids : nat -> list Z;           (* page.evaluate(_extract_script()) *)
  wall_clock : nat -> Q;                  (* time.time() *)
  mkdir_size : Z                          (* st_size of a fresh directory *)
}.

(** The artifact tree is [fs]; the two JSON state files are kept apart from
    it as the values they hold ([None]: the file does not exist).  Their
    names end in [.json], the artifacts' in [.csv].  [nav_log] lists the
    arguments of every [page.goto], oldest first, and [dl_log] the target of
    every click on the export control. *)
Record World := {
  script : Script;
  tick : nat;
  fs : gmap str stat;
  nav_log : list str;
  dl_log : list str;
  progress_json : option (option Z);
  name_map_json : option (gmap str str)
}.

(** Steps thread the world. *)
Definition M (A : Type) : Type := World -> A * World.

#[global] Instance M_ret : MRet M := fun A a w => (a, w).
#[global] Instance M_bind : MBind M :=
  fun A B f m w => let '(a, w') := m w in f a w'.

(** How a call that can raise [OSError] ends. *)
Inductive outcome (A : Type) :=
| Returned (a : A)
| Raised.       (* an uncaught OSError *)
Arguments Returned {A} a.
Arguments Raised {A}.

#[global] Instance outcome_eq_dec {A} `{EqDecision A} : EqDecision (outcome A).
Proof. solve_decision. Defined.

(** One more answer of the script has been consumed. *)
Definition tock (w : World) : World :=
  {| script := script w; tick := S (tick w); fs := fs w;
     nav_log := nav_log w; dl_log := dl_log w;
     progress_json := progress_json w; name_map_json := name_map_json w |}.

(** Consume the next answer of the script. *)
Definition answer {A} (f : Script -> nat -> A) : M A := fun w =>
  (f (script w) (tick w), tock w).

Definition log_nav (url : str) : M unit := fun w =>
  (tt, {| script := script w; tick := tick w; fs := fs w;
          nav_log := nav_log w ++ [url]; dl_log := dl_log w;
          progress_json := progress_json w; name_map_json := name_map_json w |}).

Definition log_download (out_path : str) : M unit := fun w =>
  (tt, {| script := script w; tick := tick w; fs := fs w;
          nav_log := nav_log w; dl_log := dl_log w ++ [out_path];
          progress_json := progress_json w; name_map_json := name_map_json w |}).

Definition read_fs : M (gmap str stat) := fun w => (fs w, w).

Definition write_fs (f : gmap str stat -> gmap str stat) : M unit := fun w =>
  (tt, {| script := script w; tick := tick w; fs := f (fs w);
          nav_log := nav_log w; dl_log := dl_log w;
          progress_json := progress_json w; name_map_json := name_map_json w |}).

Definition write_progress_json (v : option Z) : M unit := fun w =>
  (tt, {| script := script w; tick := tick w; fs := fs w;
          nav_log := nav_log w; dl_log := dl_log w;
          progress_json := Some v; name_map_json := name_map_json w |}).

Definition write_name_map_json (m : gmap str str) : M unit := fun w =>
  (tt, {| script := script w; tick := tick w; fs := fs w;
          nav_log := nav_log w; dl_log := dl_log w;
          progress_json := progress_json w; name_map_json := Some m |}).

(** [page.goto(url, ...)]: [true] when the page loaded, [false] for
    [PlaywrightTimeoutError]. *)
Definition page_goto (url : str) : M bool :=
  log_nav url;; answer (fun s n => goto_loads s n url).

Definition page_click (sel : str) : M bool :=
  answer (fun s n => click_lands s n sel).

Definition page_wait_for_selector (sel : str) : M bool :=
  answer (fun s n => selector_appears s n sel).

Definition time_time : M Q := answer wall_clock.

(** ** Completion checker *)

Definition os_path_exists (t : gmap str stat) (path : str) : bool :=
  bool_decide (is_Some (t !! path)).

(** [os.path.getsize]; it raises on a missing path, which [file_ok] rules
    out before asking. *)
Definition os_path_getsize (t : gmap str stat) (path : str) : Z :=
  match t !! path with Some st => st_size st | None => 0 end.

Definition file_ok (t : gmap str stat) (path : str) : bool :=
  os_path_exists t path && (0 <? os_path_getsize t path).

Definition artifact_path (out_dir : str) (spec : PullSpec) (slug : str) : str :=
  OsPath.join out_dir [key spec; slug ++ py ".csv"].

Fixpoint is_site_complete_from (specs : list PullSpec)
    (t : gmap str stat) (out_dir slug : str) : bool :=
  match specs with
  | [] => true
  | spec :: rest =>
    if negb (file_ok t (artifact_path out_dir spec slug)) then false
    else is_site_complete_from rest t out_dir slug
  end.

Definition is_site_complete (t : gmap str stat) (out_dir slug : str) : bool :=
  is_site_complete_from SPECS t out_dir slug.

(** ** Directories

    The tree is keyed by the path strings the program uses: [.], [..] and
    doubled separators are not resolved, trailing separators are.  The
    working directory (the empty head) and the root are directories that
    need no entry. *)

(** [os.path.isdir] *)
Definition os_path_isdir (t : gmap str stat) (path : str) : bool :=
  match st_kind <$> t !! path with
  | Some Directory => true
  | _ => false
  end.

(** [os.mkdir] has made a directory at [path]. *)
Definition new_dir (path : str) : M unit := fun w =>
  write_fs (insert path {| st_kind := Directory;
                           st_size := mkdir_size (script w) |}) w.

(** [os.mkdir(name)] under the handler of [os.makedirs(name, exist_ok=True)]:
    the [OSError] of [mkdir] is dropped when [name] is a directory and
    raised again otherwise.  [head] is the directory the last component of
    [name] lies in. *)
Definition mkdir_exist_ok (name head : str) : M (outcome unit) :=
  let path := OsPath.chomp name in
  t ← read_fs;
  match path with
  | [] => mret Raised                        (* FileNotFoundError *)
  | _ =>
    match t !! path with
    | Some _ =>                              (* FileExistsError *)
      mret (if os_path_isdir t path then Returned tt else Raised)
    | None =>
      if match head with
         | [] => true
         | _ => OsPath.is_root head || os_path_isdir t head
         end
      then new_dir path;; mret (Returned tt)
      else mret Raised      (* FileNotFoundError, NotADirectoryError *)
    end
  end.

(** [os.makedirs(name, exist_ok=True)] as CPython's [os.py] has it: the
    missing ancestors first, then the directory itself.  The
    [FileExistsError] that [os.py] drops around the recursive call needs
    another process and does not arise; every other error of that call
    goes up.  Where [os.py] returns early because the last component is
    [.], [mkdir] finds the directory there.  [fuel] bounds the depth of
    the recursion; the length of [name] is enough, so the [Raised] of
    spent fuel is never reached. *)
Fixpoint makedirs_go (fuel : nat) (name : str) : M (outcome unit) :=
  match fuel with
  | O => mret Raised
  | S fuel' =>
    let '(head, tail) := OsPath.split name in
    let '(head, tail) :=
      match tail with [] => OsPath.split head | _ => (head, tail) end in
    t ← read_fs;
    if match head, tail with
       | _ :: _, _ :: _ => negb (os_path_exists t head)
       | _, _ => false
       end
    then
      made ← makedirs_go fuel' head;
      match made with
      | Raised => mret Raised
      | Returned _ => mkdir_exist_ok name head
      end
    else mkdir_exist_ok name head
  end.

Definition os_makedirs (name : str) : M (outcome unit) :=
  makedirs_go (S (length name)) name.

(** ** Item pull engine *)

Definition get_site_name : M (option str) :=
  found ← page_wait_for_selector (py "#select2-Select_site-container");
  if negb found then mret None
  else
    title ← answer title_attr;
    match title with
    | Some (c :: t) =>
      match Py.strip (c :: t) with
      | [] => txt ← answer inner_text;
              mret (match Py.strip txt with [] => None | x => Some x end)
      | x => mret (Some x)
      end
    | _ => txt ← answer inner_text;
           mret (match Py.strip txt with [] => None | x => Some x end)
    end.

(** An [OSError] of [os.makedirs] is not a timeout: it leaves
    download_csv uncaught. *)
Definition download_csv (out_path : str) : M (outcome bool) :=
  found ← page_wait_for_selector (py "#dload-data");
  if negb found then mret (Returned false)
  else
    log_download out_path;;
    dl ← answer download_arrives;
    match dl with
    | None => mret (Returned false)
    | Some size =>
      made ← os_makedirs (OsPath.dirname out_path);
      match made with
      | Raised => mret Raised
      | Returned _ =>
        write_fs (insert out_path
                    {| st_kind := RegularFile; st_size := size |});;
        mret (Returned true)
      end
    end.

(** The loop over the manifest in [pull_one_site]. *)
Fixpoint pull_specs (specs : list PullSpec) (site_id : Z)
    (out_dir slug : str) (ok_any : bool) : M (outcome bool) :=
  match specs with
  | [] => mret (Returned ok_any)
  | spec :: rest =>
    let out_path := artifact_path out_dir spec slug in
    t ← read_fs;
    if file_ok t out_path then pull_specs rest site_id out_dir slug true
    else
      loaded ← page_goto (format_SITE_ID (url_template spec) site_id);
      if negb loaded then pull_specs rest site_id out_dir slug ok_any
      else
        ok ← download_csv out_path;
        match ok with
        | Raised => mret Raised
        | Returned ok => pull_specs rest site_id out_dir slug (ok_any || ok)
        end
  end.

(** [name_map.setdefault(slug, site_name)] *)
Definition setdefault (name_map : gmap str str) (slug site_name : str)
    : gmap str str :=
  match name_map !! slug with
  | Some _ => name_map
  | None => <[slug := site_name]> name_map
  end.

(** The dictionary [name_map] is updated in place by the source; here the
    updated dictionary is returned next to the outcome. *)
Definition pull_one_site `{Py.CaseTables} (site_id : Z) (out_dir : str)
    (name_map : gmap str str) : M (outcome bool * gmap str str) :=
  loaded ← page_goto (first_url site_id);
  if negb loaded then mret (Returned false, name_map)
  else
    site_name ← get_site_name;
    match site_name with
    | None | Some [] => mret (Returned false, name_map)
    | Some site_name =>
      let slug := slugify_site_name site_name in
      let name_map := setdefault name_map slug site_name in
      t ← read_fs;
      if is_site_complete t out_dir slug then mret (Returned true, name_map)
      else
        ok_any ← pull_specs SPECS site_id out_dir slug false;
        mret (ok_any, name_map)
    end.

(** ** List discovery engine *)

Inductive result (A : Type) :=
| Ok (a : A)
| TimedOut      (* an uncaught PlaywrightTimeoutError *)
| OutOfFuel     (* the loop was still running when the fuel ran out *)
| OsError.      (* an uncaught OSError; discovery raises none *)
Arguments Ok {A} a.
Arguments TimedOut {A}.
Arguments OutOfFuel {A}.
Arguments OsError {A}.

(** [for x in ids: seen.add(x)] *)
Definition add_all (seen : gset Z) (ids : list Z) : gset Z :=
  foldl (fun acc x => {[x]} ∪ acc) seen ids.

(** [stable_rounds + 1 if after == before else 0] *)
Definition next_stable (before after : nat) (stable_rounds : Z) : Z :=
  if decide (after = before) then stable_rounds + 1 else 0.

(** The [while stable_rounds < 6] loop.  Scrolling and the settle delay
    change nothing the program holds; what they make the page render is
    the script's next answer. *)
Fixpoint discovery_loop (fuel : nat) (seen : gset Z) (stable_rounds : Z)
    : M (option (gset Z)) :=
  if decide (stable_rounds < 6) then
    match fuel with
    | O => mret None
    | S fuel' =>
      ids ← answer rendered_ids;
      let before := size seen in
      let seen := add_all seen ids in
      let after := size seen in
      let stable_rounds := next_stable before after stable_rounds in
      discovery_loop fuel' seen stable_rounds
    end
  else mret (Some seen).

(** [sorted(seen)] *)
Definition sorted (seen : gset Z) : list Z := merge_sort Z.le (elements seen).

(** [fuel] bounds the number of passes of the loop.  The closing
    [Escape] key press changes nothing the program holds. *)
Definition get_all_site_ids (fuel : nat) : M (result (list Z)) :=
  loaded ← page_goto (first_url 0);
  if negb loaded then mret TimedOut
  else
    clicked ← page_click (py "#select2-Select_site-container");
    if negb clicked then mret TimedOut
    else
      found ← page_wait_for_selector (py "#select2-Select_site-results");
      if negb found then mret TimedOut
      else
        r ← discovery_loop fuel ∅ 0;
        match r with
        | None => mret OutOfFuel
        | Some seen => mret (Ok (sorted seen))
        end.

(** ** ETA formatting *)

(** [int(x)] for a finite number: truncation toward zero. *)
Definition py_int (x : Q) : Z := Z.quot (Qnum x) (Zpos (Qden x)).

(** A finite [float] is a rational and both [<=] and [int] are exact on it,
    so the argument is a [Q]; NaN and the infinities, on which [int] raises,
    are not values of the model. *)
Definition fmt_seconds (seconds : Q) : str :=
  if Qle_bool seconds 0 then py "0s"
  else
    let s := py_int seconds in
    let '(h, rem) := Z.div_eucl s 3600 in
    let '(m, s) := Z.div_eucl rem 60 in
    if 0 <? h then
      Py.str_int h ++ py "h" ++ Py.format_02d m ++ py "m"
        ++ Py.format_02d s ++ py "s"
    else if 0 <? m then Py.str_int m ++ py "m" ++ Py.format_02d s ++ py "s"
    else Py.str_int s ++ py "s".

(** ** Run orchestrator *)

(** [l.index(v)]: the first position holding [v]; [None] stands for
    [ValueError]. *)
Fixpoint index (v : Z) (l : list Z) : option nat :=
  match l with
  | [] => None
  | x :: t => if decide (x = v) then Some O else S <$> index v t
  end.

(** The resume offset computed by [main]. *)
Definition start_idx (last_site : option Z) (site_ids : list Z) : nat :=
  match last_site with
  | Some v =>
    if bool_decide (v ∈ site_ids) then
      match index v site_ids with Some i => (i + 1)%nat | None => O end
    else O
  | None => O
  end.

(** [deque(maxlen=3).append(x)] *)
Definition deque3_append (d : list Q) (x : Q) : list Q :=
  let d := d ++ [x] in drop (length d - 3) d.

(** The variables of [main] that the loop updates.  [attempts] is a history
    variable, not in the source: the identifiers handed to [pull_one_site]
    so far with what each call returned, oldest first.  [raised] tells that
    an [OSError] has left [pull_one_site]: it is caught nowhere, so nothing
    more of the loop or of [main] runs. *)
Record LoopState := {
  misses : Z;
  last3 : list Q;
  progress : option Z;            (* progress["last_site_id"] *)
  name_map : gmap str str;
  attempts : list (Z * bool);
  raised : bool
}.

(** The body of the [for] loop of [main] followed by the remaining
    iterations.  The progress line is only printed; the clock reading it
    needs is still taken. *)
Fixpoint iterate `{Py.CaseTables} (stop_after_consecutive_misses : Z)
    (out_dir : str) (ids : list Z) (st : LoopState) : M LoopState :=
  match ids with
  | [] => mret st
  | site_id :: rest =>
    _ ← time_time;
    site_start ← time_time;
    '(ok, nm) ← pull_one_site site_id out_dir (name_map st);
    match ok with
    | Raised =>
      mret {| misses := misses st; last3 := last3 st;
              progress := progress st; name_map := nm;
              attempts := attempts st; raised := true |}
    | Returned ok =>
      site_end ← time_time;
      let site_dur := (site_end - site_start)%Q in
      let tried := attempts st ++ [(site_id, ok)] in
      if ok then
        write_progress_json (Some site_id);;
        iterate stop_after_consecutive_misses out_dir rest
          {| misses := 0; last3 := deque3_append (last3 st) site_dur;
             progress := Some site_id; name_map := nm; attempts := tried;
             raised := false |}
      else
        let misses' := misses st + 1 in
        if stop_after_consecutive_misses <=? misses' then
          mret {| misses := misses'; last3 := last3 st;
                  progress := progress st; name_map := nm; attempts := tried;
                  raised := false |}
        else
          write_progress_json (Some site_id);;
          iterate stop_after_consecutive_misses out_dir rest
            {| misses := misses'; last3 := last3 st;
               progress := Some site_id; name_map := nm; attempts := tried;
               raised := false |}
    end
  end.

Definition load_name_map : M (gmap str str) := fun w =>
  (default ∅ (name_map_json w), w).

Definition load_progress : M (option Z) := fun w =>
  (default None (progress_json w), w).

Fixpoint makedirs_all (out_dir : str) (specs : list PullSpec)
    : M (outcome unit) :=
  match specs with
  | [] => mret (Returned tt)
  | spec :: rest =>
    made ← os_makedirs (OsPath.join out_dir [key spec]);
    match made with
    | Raised => mret Raised
    | Returned _ => makedirs_all out_dir rest
    end
  end.

(** The first lines of [main]: the output directory and one directory
    for each kind. *)
Definition make_dirs (out_dir : str) : M (outcome unit) :=
  made ← os_makedirs out_dir;
  match made with
  | Raised => mret Raised
  | Returned _ => makedirs_all out_dir SPECS
  end.

(** [main(out_dir, stop_after_consecutive_misses)]; [fuel] bounds the
    discovery loop only.  An uncaught timeout of discovery and an uncaught
    [OSError] end the run where they occur, before the name map is
    written. *)
Definition main `{Py.CaseTables} (fuel : nat) (out_dir : str)
    (stop_after_consecutive_misses : Z) : M (result LoopState) :=
  made ← make_dirs out_dir;
  match made with
  | Raised => mret OsError
  | Returned _ =>
    loaded_map ← load_name_map;
    last_site ← load_progress;
    r ← get_all_site_ids fuel;
    match r with
    | Ok site_ids =>
      _ ← time_time;
      st ← iterate stop_after_consecutive_misses out_dir
             (drop (start_idx last_site site_ids) site_ids)
             {| misses := 0; last3 := []; progress := last_site;
                name_map := loaded_map; attempts := []; raised := false |};
      if raised st then mret OsError
      else
        write_name_map_json (name_map st);;
        mret (Ok st)
    | TimedOut => mret TimedOut
    | OutOfFuel => mret OutOfFuel
    | OsError => mret OsError
    end
  end.

(** ** Vocabulary of the statements *)

(** *** Discovery *)

(** The [k]-th read of the discovery loop that [get_all_site_ids] runs when
    called in [w]; opening the list consumes three answers first. *)
Definition loop_reads (w : World) (k : nat) : list Z :=
  rendered_ids (script w) (tick w + 3 + k)%nat.

(** The selection list opens: none of the three steps before the loop
    times out. *)
Definition ui_opens (w : World) : Prop :=
  goto_loads (script w) (tick w) (first_url 0) = true
  /\ click_lands (script w) (S (tick w)) (py "#select2-Select_site-container") = true
  /\ selector_appears (script w) (S (S (tick w))) (py "#select2-Select_site-results") = true.

(** One pass through the body of the discovery loop, on the pair of
    [seen] and [stable_rounds]. *)
Definition cycle (ids : list Z) (s : gset Z * Z) : gset Z * Z :=
  let seen' := add_all s.1 ids in
  (seen', next_stable (size s.1) (size seen') s.2).

(** The pair after [n] passes over the reads [reads 0 .. reads (n-1)]. *)
Fixpoint cycles (reads : nat -> list Z) (n : nat) : gset Z * Z :=
  match n with
  | O => (∅, 0)
  | S k => cycle (reads k) (cycles reads k)
  end.

Definition seen_after (reads : nat -> list Z) (n : nat) : gset Z :=
  (cycles reads n).1.

Definition stable_after (reads : nat -> list Z) (n : nat) : Z :=
  (cycles reads n).2.

(** The identifiers rendered by the reads before the [n]-th, told without
    the loop. *)
Fixpoint rendered_before (reads : nat -> list Z) (n : nat) : gset Z :=
  match n with
  | O => ∅
  | S k => rendered_before reads k ∪ list_to_set (reads k)
  end.

(** Read [k] shows nothing that an earlier read did not show. *)
Definition no_growth (reads : nat -> list Z) (k : nat) : Prop :=
  forall x, x ∈ reads k -> x ∈ rendered_before reads k.

Definition drawn_from (U : gset Z) (reads : nat -> list Z) : Prop :=
  forall k x, x ∈ reads k -> x ∈ U.

Definition eventually_rendered (U : gset Z) (reads : nat -> list Z) : Prop :=
  forall x, x ∈ U -> exists k, x ∈ reads k.

(** Every identifier of [U] is rendered by a read before which no six
    reads in a row came without growth. *)
Definition rendered_in_time (U : gset Z) (reads : nat -> list Z) : Prop :=
  forall x, x ∈ U ->
    exists k, x ∈ reads k
      /\ forall j, (j + 6 <= k)%nat ->
           exists i, (j <= i < j + 6)%nat /\ ~ no_growth reads i.

(** *** Completion *)

(** A regular file of positive size at [path]. *)
Definition regular_nonempty (t : gmap str stat) (path : str) : Prop :=
  exists st, t !! path = Some st /\ st_kind st = RegularFile /\ 0 < st_size st.

(** Any entry of positive size at [path]. *)
Definition entry_nonempty (t : gmap str stat) (path : str) : Prop :=
  exists st, t !! path = Some st /\ 0 < st_size st.

(** *** The loop of the run *)

(** The state [main] enters its loop with. *)
Definition initial_state (last_site : option Z) (nm : gmap str str)
    : LoopState :=
  {| misses := 0; last3 := []; progress := last_site; name_map := nm;
     attempts := []; raised := false |}.

(** The identifiers a run handed to [pull_one_site], in order. *)
Definition processed (st : LoopState) : list Z := (attempts st).*1.

(** The length of the run of failures that ends a list of attempts. *)
Fixpoint leading_failures (l : list (Z * bool)) : Z :=
  match l with
  | (_, false) :: t => 1 + leading_failures t
  | _ => 0
  end.

Definition trailing_failures (l : list (Z * bool)) : Z :=
  leading_failures (reverse l).

(** The world in which the loop of [main] starts: the directories are
    made, the list is discovered and the clock has been read once. *)
Definition loop_entry (fuel : nat) (out_dir : str) (w : World) : World :=
  tock (get_all_site_ids fuel (make_dirs out_dir w).2).2.

(** One attempt as the loop makes it: the clock is read twice, then the
    item is pulled. *)
Definition attempt `{Py.CaseTables} (out_dir : str) (site_id : Z)
    (nm : gmap str str) (w : World) : (outcome bool * gmap str str) * World :=
  pull_one_site site_id out_dir nm (tock (tock w)).

(** The world once an attempt that returned in [w] has been recorded: the
    clock is read once more and the marker is written. *)
Definition recorded (site_id : Z) (w : World) : World :=
  (write_progress_json (Some site_id) (tock w)).2.

(** Pulling the items of [done] one after the other from the name map
    [nm] in the world [w], each pull followed by the write of its marker,
    returns what [done] lists; the result is the name map and the world
    this leads to, [None] when some pull does not return what is listed
    for it. *)
Fixpoint replay `{Py.CaseTables} (out_dir : str) (done : list (Z * bool))
    (nm : gmap str str) (w : World) : option (gmap str str * World) :=
  match done with
  | [] => Some (nm, w)
  | (site_id, ok) :: rest =>
    let r := attempt out_dir site_id nm w in
    if decide (r.1.1 = Returned ok)
    then replay out_dir rest r.1.2 (recorded site_id r.2)
    else None
  end.

(** The loop over [ids], started with the name map [nm] in the world [w],
    has pulled every item and has ended in [st'] and [w']. *)
Definition ran_through `{Py.CaseTables} (out_dir : str) (ids : list Z)
    (nm : gmap str str) (w : World) (st' : LoopState) (w' : World) : Prop :=
  processed st' = ids /\ raised st' = false
  /\ replay out_dir (attempts st') nm w = Some (name_map st', w').

(** The loop has ended at a pull that returned False: the items before it
    were pulled and recorded, and after the failed pull the clock was
    read and nothing else was done. *)
Definition halted_by_breaker `{Py.CaseTables} (out_dir : str) (ids : list Z)
    (nm : gmap str str) (w : World) (st' : LoopState) (w' : World) : Prop :=
  exists (l : list (Z * bool)) (site_id : Z) (nm1 : gmap str str) (w1 : World),
    attempts st' = l ++ [(site_id, false)] /\ raised st' = false
    /\ (l.*1 ++ [site_id]) `prefix_of` ids
    /\ replay out_dir l nm w = Some (nm1, w1)
    /\ (attempt out_dir site_id nm1 w1).1 = (Returned false, name_map st')
    /\ w' = tock (attempt out_dir site_id nm1 w1).2.

(** The loop has ended at a pull that raised: the items before it were
    pulled and recorded, and nothing was done after the error. *)
Definition stopped_by_error `{Py.CaseTables} (out_dir : str) (ids : list Z)
    (nm : gmap str str) (w : World) (st' : LoopState) (w' : World) : Prop :=
  exists (site_id : Z) (nm1 : gmap str str) (w1 : World),
    raised st' = true
    /\ (processed st' ++ [site_id]) `prefix_of` ids
    /\ replay out_dir (attempts st') nm w = Some (nm1, w1)
    /\ attempt out_dir site_id nm1 w1 = ((Raised, name_map st'), w').

(** What [main] returns and leaves behind once its loop has ended in
    [st'] and [w']: the name map is written unless an error is on its
    way up. *)
Definition finish (r : LoopState * World) : result LoopState * World :=
  if raised r.1 then (OsError, r.2)
  else (Ok r.1, (write_name_map_json (name_map r.1) r.2).2).

(** How the loop ends: after the last item, with fewer failures in a row
    than the threshold; at a failed pull that completes as many failures
    in a row as the threshold asks for; or at a pull that raised.  The
    counter is tested after its increment, so a threshold below one acts
    as one. *)
Definition loop_ends `{Py.CaseTables} (out_dir : str) (stop : Z)
    (ids : list Z) (nm : gmap str str) (w : World)
    (st' : LoopState) (w' : World) : Prop :=
  (ran_through out_dir ids nm w st' w'
   /\ trailing_failures (attempts st') < Z.max 1 stop)
  \/ (halted_by_breaker out_dir ids nm w st' w'
      /\ trailing_failures (attempts st') = Z.max 1 stop)
  \/ (stopped_by_error out_dir ids nm w st' w'
      /\ trailing_failures (attempts st') < Z.max 1 stop).

(** The run takes the identifiers [todo], in that order, from the first
    to the last unless the circuit breaker or an error ends it before. *)
Definition run_takes `{Py.CaseTables} (fuel : nat) (out_dir : str) (stop : Z)
    (w : World) (todo : list Z) : Prop :=
  let nm := default ∅ (name_map_json w) in
  let w0 := loop_entry fuel out_dir w in
  let r := iterate stop out_dir todo
             (initial_state (default None (progress_json w)) nm) w0 in
  main fuel out_dir stop w = finish r
  /\ processed r.1 `prefix_of` todo
  /\ loop_ends out_dir stop todo nm w0 r.1 r.2.

(** What progress.json holds once the attempts [done] have each been
    followed by the write of the marker, starting from [before]. *)
Definition marker_after (before : option (option Z))
    (done : list (Z * bool)) : option (option Z) :=
  match last done with
  | Some (site_id, _) => Some (Some site_id)
  | None => before
  end.

(** *** Durations *)

(** Two decimal digits, tens first. *)
Definition two_digits (n : Z) : str :=
  [Z.to_N (0x30 + n / 10); Z.to_N (0x30 + n mod 10)].

(** ** Scripted worlds used as concrete inputs *)

(** A script in which clicks land and selectors appear, the title of the
    selection control is always [title] and its text empty, and every
    export yields [dl]. *)
Definition scripted (loads : nat -> str -> bool) (title : option str)
    (ids : nat -> list Z) (dl : option Z) : Script :=
  {| goto_loads := loads;
     click_lands := fun _ _ => true;
     selector_appears := fun _ _ => true;
     title_attr := fun _ => title;
     inner_text := fun _ => [];
     download_arrives := fun _ => dl;
     rendered_ids := ids;
     wall_clock := fun n => inject_Z (Z.of_nat n);
     mkdir_size := 4096 |}.

(** A fresh run: nothing consumed, nothing logged, no state file. *)
Definition world_of (s : Script) (t : gmap str stat) : World :=
  {| script := s; tick := 0; fs := t; nav_log := []; dl_log := [];
     progress_json := None; name_map_json := None |}.

Definition ids_1_2 : gset Z := {[1; 2]}.

Definition ids_1_2_3 : gset Z := {[1; 2; 3]}.

(** The list shows identifier 1 for seven reads and identifier 2 only from
    the eighth on. *)
Definition stalling_world : World :=
  world_of (scripted (fun _ _ => true) None
              (fun n => if (n <? 10)%nat then [1] else [2]) None) ∅.

(** The list shows 2 and 1 at once and 3 from the next read on. *)
Definition paced_world : World :=
  world_of (scripted (fun _ _ => true) None
              (fun n => if (n <? 4)%nat then [2; 1] else [3]) None) ∅.

(** As [paced_world], after a previous run that stopped at identifier 2;
    no item shows a display name. *)
Definition resumed_world : World :=
  {| script := script paced_world;
     tick := 0; fs := ∅; nav_log := []; dl_log := [];
     progress_json := Some (Some 2); name_map_json := None |}.

(** As [resumed_world], with the marker on identifier 1. *)
Definition interrupted_world : World :=
  {| script := script paced_world;
     tick := 0; fs := ∅; nav_log := []; dl_log := [];
     progress_json := Some (Some 1); name_map_json := None |}.

(** The list holds identifier 7 alone, and after discovery no page loads
    any more. *)
Definition dead_site_world : World :=
  world_of (scripted (fun n _ => (n <? 10)%nat) None (fun _ => [7]) None) ∅.

(** No page ever loads. *)
Definition offline_world : World :=
  world_of (scripted (fun _ _ => false) None (fun _ => []) None) ∅.

Definition lung_file (kind : string) : str :=
  py "out/" ++ py kind ++ py "/lung.csv".

Definition a_file : stat := {| st_kind := RegularFile; st_size := 10 |}.

Definition lung_tree : gmap str stat :=
  <[lung_file "incidence" := a_file]>
    (<[lung_file "mortality" := a_file]>
       (<[lung_file "survival" := a_file]> ∅)).

(** Item 47 is named "Lung" and its three artifacts are on disk. *)
Definition lung_done_world : World :=
  world_of (scripted (fun _ _ => true) (Some (py "Lung")) (fun _ => []) None)
    lung_tree.

(** [lung_done_world] once the page of item 47 has loaded and its name has
    been read. *)
Definition lung_named_world : World :=
  (get_site_name (page_goto (first_url 47) lung_done_world).2).2.

(** The list holds identifiers 5 and 7.  Item 5 is named "Lung" and is
    complete on disk; by the time item 7 is reached no page loads any
    more. *)
Definition half_dead_world : World :=
  world_of (scripted (fun n _ => (n <? 19)%nat) (Some (py "Lung"))
              (fun _ => [5; 7]) None)
    lung_tree.

(** Only a directory [out], of the size ext4 reports. *)
Definition out_dir_only : gmap str stat :=
  {[ py "out" := {| st_kind := Directory; st_size := 4096 |} ]}.

(** ** Vocabulary of the further properties *)

(** The tree [t'] keeps every entry of [t], and keeps every entry that
    [file_ok] accepts exactly as it is. *)
Definition tree_grows (t t' : gmap str stat) : Prop :=
  forall p, (is_Some (t !! p) -> is_Some (t' !! p))
            /\ (file_ok t p = true -> t' !! p = t !! p).

(** From [w] to [w'] answers were consumed, the logs were extended and the
    tree grew; the script and the two state files are the same. *)
Definition advances (w w' : World) : Prop :=
  script w' = script w
  /\ (tick w <= tick w')%nat
  /\ nav_log w `prefix_of` nav_log w'
  /\ dl_log w `prefix_of` dl_log w'
  /\ progress_json w' = progress_json w
  /\ name_map_json w' = name_map_json w
  /\ tree_grows (fs w) (fs w').

(** From [w] to [w'] entries were added to the tree and nothing else
    changed. *)
Definition only_tree_grows (w w' : World) : Prop :=
  script w' = script w
  /\ tick w' = tick w
  /\ nav_log w' = nav_log w
  /\ dl_log w' = dl_log w
  /\ progress_json w' = progress_json w
  /\ name_map_json w' = name_map_json w
  /\ fs w ⊆ fs w'.

(** The URLs of the manifest for one item. *)
Definition kind_urls (site_id : Z) : list str :=
  (fun spec => format_SITE_ID (url_template spec) site_id) <$> SPECS.

(** The selection list opens and never shows an entry. *)
Definition empty_list_world : World :=
  world_of (scripted (fun _ _ => true) None (fun _ => []) None) ∅.

(** As [paced_world], after a previous run that went through the whole
    list: the marker is on identifier 3, the last one. *)
Definition finished_world : World :=
  {| script := script paced_world;
     tick := 0; fs := ∅; nav_log := []; dl_log := [];
     progress_json := Some (Some 3); name_map_json := None |}.

(** The [i]-th entry of the manifest. *)
Definition spec_at (i : nat) : PullSpec :=
  nth i SPECS {| key := []; url_template := [] |}.

(** * Properties of the slug normaliser *)

Section strip_lemmas.
Variable p : N -> bool.

Lemma lstrip_by_app (r k : str) :
  Py.lstrip_by p (r ++ k) =
  match Py.lstrip_by p r with [] => Py.lstrip_by p k | x => x ++ k end.
Proof.
  induction r as [|a r IH]; simpl; [reflexivity|].
  destruct (p a); [exact IH | reflexivity].
Qed.

Lemma rstrip_by_cons (c : N) (t : str) :
  Py.rstrip_by p (c :: t) =
  match Py.rstrip_by p t with
  | [] => if p c then [] else [c]
  | x => c :: x
  end.
Proof.
  unfold Py.rstrip_by. rewrite reverse_cons, lstrip_by_app.
  destruct (Py.lstrip_by p (reverse t)) as [|n l] eqn:E.
  - simpl. destruct (p c); reflexivity.
  - rewrite reverse_app, reverse_singleton. simpl.
    destruct (reverse (n :: l)) eqn:E'; [|reflexivity].
    apply (f_equal length) in E'. rewrite length_reverse in E'. discriminate.
Qed.

Lemma lstrip_by_head (s : str) (c : N) :
  head (Py.lstrip_by p s) = Some c -> p c = false.
Proof.
  induction s as [|a s IH]; simpl; [discriminate|].
  destruct (p a) eqn:E; [exact IH|]. simpl. congruence.
Qed.

Lemma lstrip_by_id (s : str) :
  (forall c, head s = Some c -> p c = false) -> Py.lstrip_by p s = s.
Proof.
  destruct s as [|a s]; simpl; [reflexivity|].
  intros Hh. rewrite (Hh a eq_refl). reflexivity.
Qed.

Lemma lstrip_by_suffix (s : str) : Py.lstrip_by p s `suffix_of` s.
Proof.
  induction s as [|a s IH]; simpl; [reflexivity|].
  destruct (p a); [|reflexivity]. by apply suffix_cons_r.
Qed.

Lemma rstrip_by_prefix (s : str) : Py.rstrip_by p s `prefix_of` s.
Proof.
  induction s as [|a s IH]; [apply prefix_nil|].
  rewrite rstrip_by_cons. destruct (Py.rstrip_by p s) as [|b x].
  - destruct (p a); [apply prefix_nil | by apply prefix_cons, prefix_nil].
  - by apply prefix_cons.
Qed.

Lemma rstrip_by_last (s : str) (c : N) :
  last (Py.rstrip_by p s) = Some c -> p c = false.
Proof.
  unfold Py.rstrip_by. rewrite last_reverse. apply lstrip_by_head.
Qed.

Lemma rstrip_by_id (s : str) :
  (forall c, last s = Some c -> p c = false) -> Py.rstrip_by p s = s.
Proof.
  intros Hl. unfold Py.rstrip_by. rewrite lstrip_by_id.
  - apply reverse_involutive.
  - intros c. rewrite head_reverse. apply Hl.
Qed.

Lemma rstrip_by_head (s : str) (c : N) :
  head (Py.rstrip_by p s) = Some c -> head s = Some c.
Proof.
  destruct (rstrip_by_prefix s) as [k Hk]. intros Hh.
  rewrite Hk. destruct (Py.rstrip_by p s); [discriminate | exact Hh].
Qed.

Lemma strip_by_id (s : str) :
  (forall c, head s = Some c -> p c = false) ->
  (forall c, last s = Some c -> p c = false) ->
  Py.strip_by p s = s.
Proof.
  intros Hh Hl. unfold Py.strip_by.
  rewrite lstrip_by_id by exact Hh. by apply rstrip_by_id.
Qed.

Lemma strip_by_sublist (s : str) :
  exists k1 k2, s = k1 ++ Py.strip_by p s ++ k2.
Proof.
  unfold Py.strip_by.
  destruct (lstrip_by_suffix s) as [k1 H1].
  destruct (rstrip_by_prefix (Py.lstrip_by p s)) as [k2 H2].
  exists k1, k2. rewrite <- H2. exact H1.
Qed.

Lemma strip_by_head (s : str) (c : N) :
  head (Py.strip_by p s) = Some c -> p c = false.
Proof.
  unfold Py.strip_by. intros Hh.
  apply rstrip_by_head in Hh. by apply lstrip_by_head in Hh.
Qed.

Lemma strip_by_last (s : str) (c : N) :
  last (Py.strip_by p s) = Some c -> p c = false.
Proof. apply rstrip_by_last. Qed.

End strip_lemmas.

Lemma lstrip_by_ext (p q : N -> bool) (s : str) :
  (forall c, p c = q c) -> Py.lstrip_by p s = Py.lstrip_by q s.
Proof.
  intros Hpq. induction s as [|a s IH]; simpl; [reflexivity|].
  rewrite <- Hpq, IH. reflexivity.
Qed.

Lemma strip_by_ext (p q : N -> bool) (s : str) :
  (forall c, p c = q c) -> Py.strip_by p s = Py.strip_by q s.
Proof.
  intros Hpq. unfold Py.strip_by, Py.rstrip_by.
  rewrite (lstrip_by_ext p q s Hpq).
  rewrite (lstrip_by_ext p q (reverse _) Hpq). reflexivity.
Qed.

(** The neighbour condition, one cons at a time. *)
Lemma no_adjacent_cons (cls : N -> bool) (a : N) (t : str) :
  no_adjacent cls (a :: t) = true <->
  (cls a = true -> forall b, head t = Some b -> cls b = false)
  /\ no_adjacent cls t = true.
Proof.
  simpl. rewrite andb_true_iff, negb_true_iff, andb_false_iff.
  split.
  - intros [H1 H2]. split; [|exact H2]. intros Ha b Hb.
    destruct t as [|b' t]; simplify_eq/=. destruct H1; congruence.
  - intros [H1 H2]. split; [|exact H2].
    destruct (cls a) eqn:Ea; [right | by left].
    destruct t as [|b t]; [reflexivity|]. by apply H1.
Qed.

Lemma no_adjacent_app_l (cls : N -> bool) (l k : str) :
  no_adjacent cls (l ++ k) = true -> no_adjacent cls l = true.
Proof.
  induction l as [|a l IH]; [reflexivity|].
  rewrite <- app_comm_cons, !no_adjacent_cons. intros [H1 H2].
  split; [|by apply IH]. intros Ha b Hb. apply H1; [exact Ha|].
  destruct l; simplify_eq/=. reflexivity.
Qed.

Lemma no_adjacent_app_r (cls : N -> bool) (l k : str) :
  no_adjacent cls (l ++ k) = true -> no_adjacent cls k = true.
Proof.
  induction l as [|a l IH]; [done|].
  rewrite <- app_comm_cons, no_adjacent_cons. intros [_ H2]. by apply IH.
Qed.

Lemma no_adjacent_weaken (cls cls' : N -> bool) (l : str) :
  (forall c, cls' c = true -> cls c = true) ->
  no_adjacent cls l = true -> no_adjacent cls' l = true.
Proof.
  intros Hsub. induction l as [|a l IH]; [done|].
  rewrite !no_adjacent_cons. intros [H1 H2]. split; [|by apply IH].
  intros Ha b Hb. specialize (H1 (Hsub _ Ha) b Hb).
  destruct (cls' b) eqn:Eb; [|reflexivity]. apply Hsub in Eb. congruence.
Qed.

(** The neighbour condition read through positions. *)
Lemma no_adjacent_lookup (cls : N -> bool) (l : str) (i : nat) (a b : N) :
  no_adjacent cls l = true ->
  l !! i = Some a -> l !! S i = Some b -> cls a = true -> cls b = false.
Proof.
  revert i. induction l as [|x l IH]; intros i Hn Ha Hb Hca; [done|].
  apply no_adjacent_cons in Hn as [H1 H2].
  destruct i as [|i]; simplify_eq/=.
  - apply H1; [exact Hca|]. destruct l; simplify_eq/=. reflexivity.
  - by eapply IH.
Qed.

Section collapse_lemmas.
Variable cls : N -> bool.

(** The greedy substitution of the source and the flag automaton of the
    specification are the same function. *)
Lemma sub_plus_collapse_both (s : str) :
  Re.sub_plus cls [0x5F%N] s = SlugSpec.collapse_runs cls false s
  /\ (fix swallow (u : str) : str :=
        match u with
        | [] => []
        | d :: v => if cls d then swallow v
                    else d :: Re.sub_plus cls [0x5F%N] v
        end) s = SlugSpec.collapse_runs cls true s.
Proof.
  induction s as [|c t [IH1 IH2]]; [done|].
  split; simpl; destruct (cls c); simpl; congruence.
Qed.

Lemma sub_plus_collapse (s : str) :
  Re.sub_plus cls [0x5F%N] s = SlugSpec.collapse_runs cls false s.
Proof. apply sub_plus_collapse_both. Qed.

Lemma collapse_runs_shape (b : bool) (s : str) :
  cls 0x5F%N = true ->
  let r := SlugSpec.collapse_runs cls b s in
  Forall (fun c => cls c = true -> c = 0x5F%N) r
  /\ no_adjacent cls r = true
  /\ (b = true -> forall c, head r = Some c -> cls c = false).
Proof.
  intros Hu. revert b. induction s as [|c t IH]; intros b; simpl.
  { repeat split; [constructor | discriminate]. }
  destruct (cls c) eqn:Ec.
  - destruct (IH true) as (F & A & Hd). destruct b; simpl.
    + repeat split; assumption.
    + split; [by constructor|]. split; [|discriminate].
      apply no_adjacent_cons. split; [|exact A]. intros _. by apply Hd.
  - destruct (IH false) as (F & A & _). split; [|split].
    + constructor; [congruence | exact F].
    + apply no_adjacent_cons. split; [congruence | exact A].
    + intros _ c' [= <-]. exact Ec.
Qed.

Lemma collapse_runs_flag (t : str) :
  (forall d, head t = Some d -> cls d = false) ->
  SlugSpec.collapse_runs cls true t = SlugSpec.collapse_runs cls false t.
Proof.
  destruct t as [|d v]; [done|]. intros Hd. simpl.
  by rewrite (Hd d eq_refl).
Qed.

Lemma collapse_runs_fixed (l : str) :
  Forall (fun c => cls c = true -> c = 0x5F%N) l ->
  no_adjacent cls l = true ->
  SlugSpec.collapse_runs cls false l = l.
Proof.
  induction l as [|c t IH]; [done|].
  intros HF HA. apply Forall_cons in HF as [Hc HF].
  apply no_adjacent_cons in HA as [Hn HA]. simpl.
  destruct (cls c) eqn:Ec.
  - rewrite collapse_runs_flag by auto. rewrite IH by assumption.
    simpl. by rewrite Hc.
  - by rewrite IH.
Qed.

End collapse_lemmas.

Lemma replace_single (a : N) (new s : str) :
  Py.replace [a] new s = (c ← s; if (c =? a)%N then new else [c]).
Proof.
  unfold Py.replace. induction s as [|c t IH]; [done|].
  simpl. rewrite andb_true_r, (N.eqb_sym a c), IH.
  destruct (c =? a)%N; reflexivity.
Qed.

Lemma sub_class_nil (cls : N -> bool) (s : str) :
  Re.sub_class cls [] s = List.filter (fun c => negb (cls c)) s.
Proof.
  unfold Re.sub_class. induction s as [|c t IH]; [done|].
  rewrite fmap_cons. cbn [concat List.filter]. rewrite IH.
  destruct (cls c); reflexivity.
Qed.

Lemma is_slug_char_cases (c : N) :
  is_slug_char c = true <->
  ((0x61 <= c <= 0x7A) \/ (0x30 <= c <= 0x39) \/ c = 0x5F)%N.
Proof.
  unfold is_slug_char, is_lower_alnum, is_underscore.
  rewrite !orb_true_iff, !andb_true_iff, !N.leb_le, N.eqb_eq. tauto.
Qed.

Lemma is_lower_alnum_cases (c : N) :
  is_lower_alnum c = true <-> ((0x61 <= c <= 0x7A) \/ (0x30 <= c <= 0x39))%N.
Proof.
  unfold is_lower_alnum.
  rewrite !orb_true_iff, !andb_true_iff, !N.leb_le. tauto.
Qed.

Lemma is_underscore_spec (c : N) : is_underscore c = true <-> c = 0x5F%N.
Proof. apply N.eqb_eq. Qed.

Section slug_theory.
Context `{Py.CaseTables}.

(** The source, line by line, computes the pipeline of the specification
    with the ampersand replaced by the word between two spaces. *)
Lemma slugify_pipeline (x : str) :
  slugify_site_name x = SlugSpec.pipeline (py " and ") x.
Proof.
  unfold slugify_site_name, SlugSpec.pipeline, Re.sub, Py.strip,
    Py.strip_chars, SlugSpec.trim_whitespace, SlugSpec.trim_underscores,
    SlugSpec.expand_ampersand, SlugSpec.strip_quotes.
  change (py "&") with [0x26%N]. change (py "_") with [0x5F%N].
  rewrite replace_single, sub_class_nil, !sub_plus_collapse.
  apply strip_by_ext. intros c. unfold Py.in_chars, is_underscore. simpl.
  apply orb_false_r.
Qed.

(** What the two collapsing steps hand to the final trim. *)
Lemma collapsed_shape (s : str) :
  let r := SlugSpec.collapse_runs is_underscore false
             (SlugSpec.collapse_runs (fun c => negb (is_lower_alnum c)) false s) in
  Forall (fun c => is_slug_char c = true) r
  /\ no_adjacent is_underscore r = true.
Proof.
  simpl.
  destruct (collapse_runs_shape (fun c => negb (is_lower_alnum c)) false s)
    as (F & A & _); [done|].
  assert (Hsub : forall c, is_underscore c = true ->
                           negb (is_lower_alnum c) = true).
  { intros c ->%is_underscore_spec. reflexivity. }
  rewrite collapse_runs_fixed.
  - split; [|exact (no_adjacent_weaken _ _ _ Hsub A)].
    eapply Forall_impl; [exact F|]. intros c Hc. simpl in Hc.
    unfold is_slug_char. destruct (is_lower_alnum c); [done|].
    rewrite Hc by done. reflexivity.
  - apply Forall_forall. intros c _. apply is_underscore_spec.
  - exact (no_adjacent_weaken _ _ _ Hsub A).
Qed.

Lemma slugify_shape (x : str) :
  Forall (fun c => is_slug_char c = true) (slugify_site_name x)
  /\ no_adjacent is_underscore (slugify_site_name x) = true
  /\ (forall c, head (slugify_site_name x) = Some c -> is_underscore c = false)
  /\ (forall c, last (slugify_site_name x) = Some c -> is_underscore c = false).
Proof.
  rewrite slugify_pipeline. unfold SlugSpec.pipeline, SlugSpec.trim_underscores.
  match goal with |- context [Py.strip_by _ ?r] => set (body := r) end.
  destruct (collapsed_shape
              (SlugSpec.strip_quotes
                 (SlugSpec.expand_ampersand (py " and ")
                    (Py.lower (SlugSpec.trim_whitespace x))))) as [F A].
  fold body in F, A.
  destruct (strip_by_sublist is_underscore body) as (k1 & k2 & Hk).
  rewrite Hk in F, A.
  apply Forall_app in F as [_ [F _]%Forall_app].
  apply no_adjacent_app_r, no_adjacent_app_l in A.
  repeat split; [exact F | exact A | apply strip_by_head | apply strip_by_last].
Qed.

Lemma lower_from_slug (whole : str) (i : nat) (s : str) :
  Forall (fun c => is_slug_char c = true) s -> Py.lower_from whole i s = s.
Proof.
  revert i. induction s as [|c t IH]; intros i HF; [done|].
  apply Forall_cons in HF as [Hc HF]. simpl. rewrite IH by exact HF.
  apply is_slug_char_cases in Hc.
  replace (c <? 128)%N with true by (symmetry; apply N.ltb_lt; lia).
  unfold Py.ascii_lower.
  replace ((65 <=? c) && (c <=? 90))%N with false; [done|].
  symmetry. apply andb_false_iff.
  rewrite N.leb_gt, N.leb_gt. lia.
Qed.

(** Every well-shaped slug is a fixed point of the normaliser. *)
Lemma slugify_fixed (y : str) :
  Forall (fun c => is_slug_char c = true) y ->
  no_adjacent is_underscore y = true ->
  (forall c, head y = Some c -> is_underscore c = false) ->
  (forall c, last y = Some c -> is_underscore c = false) ->
  slugify_site_name y = y.
Proof.
  intros HF HA Hh Hl.
  assert (Hmem : forall c, c ∈ y -> is_slug_char c = true).
  { by apply Forall_forall. }
  assert (Hws : forall c, is_slug_char c = true -> Py.isspace c = false).
  { intros c Hc%is_slug_char_cases. unfold Py.isspace.
    repeat (apply orb_false_iff; split);
      rewrite ?andb_false_iff, ?N.leb_gt, ?N.eqb_neq; lia. }
  rewrite slugify_pipeline. unfold SlugSpec.pipeline, SlugSpec.trim_whitespace.
  rewrite strip_by_id.
  2:{ intros c Hc. apply Hws, Hmem. destruct y; simplify_eq/=. apply list_elem_of_here. }
  2:{ intros c Hc. apply Hws, Hmem. apply last_Some in Hc as [l' ->].
      apply elem_of_app. right. apply list_elem_of_here. }
  unfold Py.lower. rewrite lower_from_slug by exact HF.
  assert (SlugSpec.expand_ampersand (py " and ") y = y) as ->.
  { unfold SlugSpec.expand_ampersand. clear HA Hh Hl Hmem.
    induction HF as [|c t Hc HF IH]; [done|].
    rewrite bind_cons, IH. apply is_slug_char_cases in Hc.
    replace (c =? 38)%N with false; [done|].
    symmetry. apply N.eqb_neq. lia. }
  assert (SlugSpec.strip_quotes y = y) as ->.
  { unfold SlugSpec.strip_quotes. clear HA Hh Hl Hmem.
    induction HF as [|c t Hc HF IH]; [done|].
    simpl. rewrite IH. apply is_slug_char_cases in Hc.
    replace (is_quote c) with false; [done|].
    symmetry. unfold is_quote.
    repeat (apply orb_false_iff; split); apply N.eqb_neq; lia. }
  assert (Hna : forall c, c ∈ y -> negb (is_lower_alnum c) = true ->
                          is_underscore c = true).
  { intros c Hc Hn. apply Hmem in Hc. unfold is_slug_char in Hc.
    destruct (is_lower_alnum c); [done | exact Hc]. }
  rewrite (collapse_runs_fixed (fun c => negb (is_lower_alnum c))).
  - rewrite collapse_runs_fixed; [| |exact HA].
    + unfold SlugSpec.trim_underscores. by apply strip_by_id.
    + apply Forall_forall. intros c _. apply is_underscore_spec.
  - apply Forall_forall. intros c Hc Hn. apply is_underscore_spec. auto.
  - clear Hh Hl HF Hmem. induction y as [|a t IH]; [done|].
    apply no_adjacent_cons in HA as [H1 H2]. apply no_adjacent_cons.
    split.
    + intros Ha b Hb.
      assert (Hbt : b ∈ a :: t).
      { destruct t; simplify_eq/=. apply list_elem_of_further, list_elem_of_here. }
      specialize (H1 (Hna a (list_elem_of_here _ _) Ha) b Hb).
      destruct (is_lower_alnum b) eqn:Eb; [done|].
      rewrite Hna in H1; [done | exact Hbt | by rewrite Eb].
    + apply IH; [exact H2|]. intros c Hc. apply Hna. by apply list_elem_of_further.
Qed.

End slug_theory.

(** ** The claims on the slug normaliser *)

(** C5, as stated, read literally: replacing each ampersand with the bare
    word "and" is not what the source computes.  On "AT&T" the source gives
    "at_and_t", the literal reading "atandt". *)
Lemma slugify_bare_and_differs :
  @slugify_site_name ascii_only_tables (py "AT&T")
  <> @SlugSpec.pipeline ascii_only_tables (py "and") (py "AT&T").
Proof. intros E. vm_compute in E. discriminate E. Qed.

(** C5, amended: slugify_site_name applies, in this order, trim of the
    surrounding whitespace, lowercasing, replacement of each ampersand with
    the word "and" between two spaces, removal of the apostrophe-like
    characters, collapse of each maximal run of characters outside [a-z0-9]
    into one underscore, collapse of repeated underscores, and trim of
    leading and trailing underscores; "St. Jude's & Sons" becomes
    "st_judes_and_sons" and "   " becomes the empty string. *)
Theorem slugify_site_name_steps `{Py.CaseTables} :
  (forall x : str, slugify_site_name x = SlugSpec.pipeline (py " and ") x)
  /\ slugify_site_name (py "St. Jude's & Sons") = py "st_judes_and_sons"
  /\ slugify_site_name (py "   ") = [].
Proof.
  split; [exact slugify_pipeline|].
  split; vm_compute; reflexivity.
Qed.

(** C6: whenever the slug of x consists only of lowercase alphanumerics and
    underscores, normalising it again changes nothing. *)
Theorem slugify_site_name_idempotent `{Py.CaseTables} (x : str) :
  Forall (fun c => is_slug_char c = true) (slugify_site_name x) ->
  slugify_site_name (slugify_site_name x) = slugify_site_name x.
Proof.
  intros Halpha.
  destruct (slugify_shape x) as (_ & Hadj & Hhead & Hlast).
  by apply slugify_fixed.
Qed.

Lemma slugify_site_name_idempotent_witness :
  Forall (fun c => is_slug_char c = true)
    (@slugify_site_name ascii_only_tables (py "St. Jude's & Sons"))
  /\ @slugify_site_name ascii_only_tables
       (@slugify_site_name ascii_only_tables (py "St. Jude's & Sons"))
     = @slugify_site_name ascii_only_tables (py "St. Jude's & Sons").
Proof.
  assert (Halpha : Forall (fun c => is_slug_char c = true)
            (@slugify_site_name ascii_only_tables (py "St. Jude's & Sons"))).
  { vm_compute. repeat constructor. }
  split; [exact Halpha|].
  exact (@slugify_site_name_idempotent ascii_only_tables _ Halpha).
Defined.

(** C10: for every input, the slug holds only characters of [a-z0-9_],
    neither begins nor ends with an underscore, and never has two
    underscores in a row. *)
Theorem slugify_site_name_shape `{Py.CaseTables} (x : str) :
  let out := slugify_site_name x in
  Forall (fun c => (0x61 <= c <= 0x7A) \/ (0x30 <= c <= 0x39) \/ c = 0x5F)%N out
  /\ head out <> Some 0x5F%N
  /\ last out <> Some 0x5F%N
  /\ forall i : nat, out !! i = Some 0x5F%N -> out !! S i <> Some 0x5F%N.
Proof.
  simpl. destruct (slugify_shape x) as (Halpha & Hadj & Hhead & Hlast).
  split; [|split; [|split]].
  - eapply Forall_impl; [exact Halpha|]. intros c. apply is_slug_char_cases.
  - intros E. by specialize (Hhead _ E).
  - intros E. by specialize (Hlast _ E).
  - intros i E E'.
    by pose proof (no_adjacent_lookup _ _ _ _ _ Hadj E E' eq_refl).
Qed.

(** * Completion checker and the skip of complete items *)

Lemma file_ok_entry (t : gmap str stat) (path : str) :
  file_ok t path = true <-> entry_nonempty t path.
Proof.
  unfold file_ok, os_path_exists, os_path_getsize, entry_nonempty.
  rewrite andb_true_iff, bool_decide_eq_true, Z.ltb_lt.
  destruct (t !! path) as [st|]; split.
  - intros [_ Hsz]. by exists st.
  - intros (st' & [= <-] & Hsz). split; [by exists st | exact Hsz].
  - intros [[st Hst] _]. discriminate.
  - intros (st & Hst & _). discriminate.
Qed.

Lemma is_site_complete_from_forall (specs : list PullSpec)
    (t : gmap str stat) (out_dir slug : str) :
  is_site_complete_from specs t out_dir slug = true <->
  forall spec, spec ∈ specs -> file_ok t (artifact_path out_dir spec slug) = true.
Proof.
  induction specs as [|spec rest IH]; simpl.
  - split; [|done]. intros _ spec Hin. by apply elem_of_nil in Hin.
  - destruct (file_ok t (artifact_path out_dir spec slug)) eqn:E; simpl.
    + rewrite IH. split.
      * intros Hrest s [->|Hin]%elem_of_cons; [exact E | by apply Hrest].
      * intros Hall s Hin. apply Hall. by apply list_elem_of_further.
    + split; [done|]. intros Hall.
      rewrite Hall in E; [done | apply list_elem_of_here].
Qed.

(** C7, as stated, fails on a directory: [os.path.exists] holds for it and
    its size is positive, so file_ok is true where no regular file is. *)
Lemma file_ok_true_on_directory :
  ~ (file_ok out_dir_only (py "out") = true
     <-> regular_nonempty out_dir_only (py "out")).
Proof.
  intros [Hfile _].
  destruct (Hfile ltac:(vm_compute; reflexivity)) as (st & Hst & Hkind & _).
  vm_compute in Hst. injection Hst as <-. discriminate Hkind.
Qed.

(** C7, amended: file_ok(path) is true iff some entry exists at path,
    regular file or not, and its size is strictly greater than zero;
    is_site_complete(out_dir, slug) is true iff file_ok holds at
    out_dir/kind.key/slug.csv for every kind of the manifest, so it is
    false as soon as one of them is missing or empty. *)
Theorem file_ok_is_site_complete_spec
    (t : gmap str stat) (path out_dir slug : str) :
  (file_ok t path = true <-> entry_nonempty t path)
  /\ (is_site_complete t out_dir slug = true <->
      forall spec, spec ∈ SPECS ->
        file_ok t (OsPath.join out_dir [key spec; slug ++ py ".csv"]) = true)
  /\ ((exists spec, spec ∈ SPECS
         /\ ~ entry_nonempty t (OsPath.join out_dir [key spec; slug ++ py ".csv"]))
      -> is_site_complete t out_dir slug = false).
Proof.
  split; [apply file_ok_entry|].
  split; [apply is_site_complete_from_forall|].
  intros (spec & Hin & Hno).
  destruct (is_site_complete t out_dir slug) eqn:E; [|reflexivity].
  exfalso. apply Hno, file_ok_entry.
  unfold is_site_complete in E.
  by apply (is_site_complete_from_forall SPECS t out_dir slug).
Qed.

(** Reading the display name leaves the logs and the tree alone. *)
Lemma get_site_name_frame (w w' : World) (r : option str) :
  get_site_name w = (r, w') ->
  nav_log w' = nav_log w /\ dl_log w' = dl_log w /\ fs w' = fs w
  /\ r <> Some [].
Proof.
  unfold get_site_name, page_wait_for_selector, mbind, M_bind, mret, M_ret,
    answer.
  destruct (selector_appears _ _ _); simpl.
  2:{ intros [= <- <-]. done. }
  destruct (title_attr _ _) as [[|c t]|]; simpl.
  - destruct (Py.strip _) eqn:E; intros [= <- <-]; done.
  - destruct (Py.strip (c :: t)) eqn:E.
    + simpl. destruct (Py.strip (inner_text _ _)) eqn:E'; intros [= <- <-]; done.
    + intros [= <- <-]. done.
  - destruct (Py.strip _) eqn:E; intros [= <- <-]; done.
Qed.

(** C8: when the item's page loads, its display name resolves and the slug
    is already complete, pull_one_site reports success after that single
    navigation: no other page is visited, no export is triggered and the
    artifact tree is as before. *)
Theorem pull_one_site_skips_complete `{Py.CaseTables}
    (site_id : Z) (out_dir : str) (nm : gmap str str)
    (w w1 : World) (site_name : str) :
  goto_loads (script w) (tick w) (first_url site_id) = true ->
  get_site_name (page_goto (first_url site_id) w).2 = (Some site_name, w1) ->
  is_site_complete (fs w) out_dir (slugify_site_name site_name) = true ->
  exists w',
    pull_one_site site_id out_dir nm w
    = ((Returned true, setdefault nm (slugify_site_name site_name) site_name),
       w')
    /\ nav_log w' = nav_log w ++ [first_url site_id]
    /\ dl_log w' = dl_log w
    /\ fs w' = fs w.
Proof.
  intros Hload Hname Hdone.
  destruct (get_site_name_frame _ _ _ Hname) as (Hnav & Hdl & Hfs & Hne).
  exists w1. unfold pull_one_site.
  unfold page_goto, log_nav, answer, mbind, M_bind, mret, M_ret in *.
  simpl in *. rewrite Hload. simpl. rewrite Hname.
  destruct site_name as [|c s]; [done|].
  unfold read_fs. rewrite Hfs, Hdone. auto.
Qed.

Lemma pull_one_site_skips_complete_witness :
  goto_loads (script lung_done_world) (tick lung_done_world) (first_url 47) = true
  /\ get_site_name (page_goto (first_url 47) lung_done_world).2
     = (Some (py "Lung"), lung_named_world)
  /\ is_site_complete (fs lung_done_world) (py "out")
       (@slugify_site_name ascii_only_tables (py "Lung")) = true
  /\ exists w',
       @pull_one_site ascii_only_tables 47 (py "out") ∅ lung_done_world
       = ((Returned true,
           setdefault ∅ (@slugify_site_name ascii_only_tables (py "Lung"))
             (py "Lung")), w')
       /\ nav_log w' = nav_log lung_done_world ++ [first_url 47]
       /\ dl_log w' = dl_log lung_done_world
       /\ fs w' = fs lung_done_world.
Proof.
  assert (H1 : goto_loads (script lung_done_world) (tick lung_done_world)
                 (first_url 47) = true) by reflexivity.
  assert (H2 : get_site_name (page_goto (first_url 47) lung_done_world).2
               = (Some (py "Lung"), lung_named_world))
    by (vm_compute; reflexivity).
  assert (H3 : is_site_complete (fs lung_done_world) (py "out")
                 (@slugify_site_name ascii_only_tables (py "Lung")) = true)
    by (vm_compute; reflexivity).
  split; [exact H1|]. split; [exact H2|]. split; [exact H3|].
  exact (@pull_one_site_skips_complete ascii_only_tables 47 (py "out") ∅
           lung_done_world lung_named_world (py "Lung") H1 H2 H3).
Defined.

(** * List discovery *)

Lemma add_all_union (seen : gset Z) (ids : list Z) :
  add_all seen ids = list_to_set ids ∪ seen.
Proof.
  unfold add_all. revert seen.
  induction ids as [|x ids IH]; intros seen; simpl; [set_solver|].
  rewrite IH. set_solver.
Qed.

Lemma add_all_size_le (seen : gset Z) (ids : list Z) :
  (size seen <= size (add_all seen ids))%nat.
Proof. rewrite add_all_union. apply subseteq_size. set_solver. Qed.

(** The sizes agree exactly when the read brought nothing new. *)
Lemma add_all_size_eq (seen : gset Z) (ids : list Z) :
  size (add_all seen ids) = size seen <-> forall x, x ∈ ids -> x ∈ seen.
Proof.
  rewrite add_all_union. split.
  - intros Hsz x Hx.
    assert (Heq : seen = list_to_set ids ∪ seen).
    { apply set_subseteq_size_eq; [set_solver | lia]. }
    rewrite Heq. set_solver.
  - intros Hin. f_equal. set_solver.
Qed.

Section trace.
Variable reads : nat -> list Z.

Lemma seen_after_rendered (n : nat) :
  seen_after reads n = rendered_before reads n.
Proof.
  unfold seen_after. induction n as [|n IH]; [done|].
  simpl. rewrite add_all_union, IH. set_solver.
Qed.

Lemma stable_after_grows (k : nat) :
  no_growth reads k ->
  stable_after reads (S k) = stable_after reads k + 1.
Proof.
  intros Hq. unfold stable_after, no_growth in *. simpl.
  unfold next_stable. rewrite decide_True; [done|].
  apply add_all_size_eq. intros x Hx.
  fold (seen_after reads k). rewrite seen_after_rendered. by apply Hq.
Qed.

Lemma stable_after_resets (k : nat) :
  ~ no_growth reads k -> stable_after reads (S k) = 0.
Proof.
  intros Hq. unfold stable_after, no_growth in *. simpl.
  unfold next_stable. rewrite decide_False; [done|].
  intros Hsz. apply Hq. intros x Hx.
  rewrite <- seen_after_rendered. by eapply add_all_size_eq.
Qed.

Lemma no_growth_dec (k : nat) : {no_growth reads k} + {~ no_growth reads k}.
Proof.
  destruct (decide (size (add_all (seen_after reads k) (reads k))
                    = size (seen_after reads k))) as [E|E].
  - left. intros x Hx. rewrite <- seen_after_rendered.
    by eapply add_all_size_eq.
  - right. intros Hq. apply E, add_all_size_eq. intros x Hx.
    rewrite seen_after_rendered. by apply Hq.
Qed.

Lemma stable_after_step (k : nat) :
  stable_after reads (S k) = stable_after reads k + 1
  \/ stable_after reads (S k) = 0.
Proof.
  destruct (no_growth_dec k);
    [left; by apply stable_after_grows | right; by apply stable_after_resets].
Qed.

(** The counter is the length of the run of reads without growth that
    ends just before the current one. *)
Lemma stable_after_window (n : nat) :
  0 <= stable_after reads n <= Z.of_nat n
  /\ forall i : nat,
       Z.of_nat n - stable_after reads n <= Z.of_nat i < Z.of_nat n ->
       no_growth reads i.
Proof.
  induction n as [|n [IHr IHw]].
  { split; [done|]. intros i Hi. change (stable_after reads 0) with 0 in Hi. lia. }
  destruct (no_growth_dec n) as [Hq|Hq].
  - rewrite (stable_after_grows n Hq). split; [lia|].
    intros i Hi. destruct (decide (i = n)) as [->|Hne]; [exact Hq|].
    apply IHw. lia.
  - rewrite (stable_after_resets n Hq). split; [lia|]. intros i Hi. lia.
Qed.

(** Seven times the size of the set plus the counter grows with every
    pass as long as the counter stays under six. *)
Lemma potential_grows (n : nat) :
  (forall k, (k < n)%nat -> stable_after reads k < 6) ->
  Z.of_nat n <= 7 * Z.of_nat (size (seen_after reads n)) + stable_after reads n.
Proof.
  induction n as [|n IH]; intros Hlt; [done|].
  assert (Hn : stable_after reads n < 6) by (apply Hlt; lia).
  assert (IH' := IH (fun k Hk => Hlt k (Nat.lt_lt_succ_r _ _ Hk))).
  unfold seen_after, stable_after in *. simpl. unfold next_stable.
  pose proof (add_all_size_le (cycles reads n).1 (reads n)) as Hle.
  case_decide as Hsz; [rewrite Hsz|]; lia.
Qed.

Lemma first_stop (N : nat) :
  (exists n, (n <= N)%nat /\ stable_after reads n = 6
             /\ forall k, (k < n)%nat -> stable_after reads k < 6)
  \/ (forall k, (k <= N)%nat -> stable_after reads k < 6).
Proof.
  induction N as [|N [(n & Hn & Hst & Hlt)|Hall]].
  - right. intros k Hk. replace k with O by lia. done.
  - left. exists n. split; [lia | done].
  - destruct (decide (stable_after reads (S N) < 6)) as [Hs|Hs].
    + right. intros k Hk. destruct (decide (k = S N)) as [->|]; [done|].
      apply Hall. lia.
    + left. exists (S N). split; [done|]. split.
      * pose proof (Hall N (Nat.le_refl _)).
        destruct (stable_after_step N); lia.
      * intros k Hk. apply Hall. lia.
Qed.

Lemma seen_after_drawn (U : gset Z) (n : nat) :
  drawn_from U reads -> seen_after reads n ⊆ U.
Proof.
  intros Hd. rewrite seen_after_rendered.
  induction n as [|n IH]; simpl; [set_solver|].
  apply union_subseteq. split; [exact IH|].
  intros x Hx%elem_of_list_to_set. by eapply Hd.
Qed.

(** Reads from a finite universe stop the loop within a bounded number of
    passes, whatever their order and pacing. *)
Lemma stops_within_bound (U : gset Z) :
  drawn_from U reads ->
  exists n, (n <= 7 * size U + 6)%nat /\ stable_after reads n = 6
            /\ forall k, (k < n)%nat -> stable_after reads k < 6.
Proof.
  intros Hd. destruct (first_stop (7 * size U + 6)) as [Hn|Hall]; [exact Hn|].
  exfalso.
  pose proof (potential_grows (7 * size U + 6)
                (fun k Hk => Hall k (Nat.lt_le_incl _ _ Hk))) as Hpot.
  pose proof (Hall _ (Nat.le_refl _)) as Hlast.
  pose proof (subseteq_size _ _ (seen_after_drawn U (7 * size U + 6) Hd)).
  lia.
Qed.

Lemma rendered_before_elem (n : nat) (x : Z) :
  x ∈ rendered_before reads n <-> exists k, (k < n)%nat /\ x ∈ reads k.
Proof.
  induction n as [|n IH]; simpl.
  - split; [set_solver|]. intros (k & Hk & _). lia.
  - rewrite elem_of_union, IH, elem_of_list_to_set. split.
    + intros [(k & Hk & Hx)|Hx]; [exists k | exists n]; split; auto; lia.
    + intros (k & Hk & Hx). destruct (decide (k = n)) as [->|]; [by right|].
      left. exists k. split; [lia | done].
Qed.

(** If every identifier comes in time, the whole universe has been seen
    when the counter reaches six. *)
Lemma seen_all_in_time (U : gset Z) (n : nat) :
  drawn_from U reads -> rendered_in_time U reads ->
  stable_after reads n = 6 -> seen_after reads n = U.
Proof.
  intros Hd Hr Hst. apply set_eq. intros x. split.
  { intros Hx. by eapply seen_after_drawn. }
  intros Hx. destruct (Hr x Hx) as (k & Hk & Hwin).
  rewrite seen_after_rendered. apply rendered_before_elem.
  exists k. split; [|exact Hk].
  destruct (stable_after_window n) as [Hrange Hquiet].
  destruct (decide (k < n)%nat) as [|Hge]; [done|]. exfalso.
  destruct (Hwin (n - 6)%nat ltac:(lia)) as (i & Hi & Hgrow).
  apply Hgrow, Hquiet. lia.
Qed.

End trace.

(** ** The loop against its trace *)

Lemma discovery_loop_step (fuel : nat) (seen : gset Z) (st : Z) (w : World) :
  st < 6 ->
  discovery_loop (S fuel) seen st w
  = discovery_loop fuel
      (cycle (rendered_ids (script w) (tick w)) (seen, st)).1
      (cycle (rendered_ids (script w) (tick w)) (seen, st)).2 (tock w).
Proof. intros Hst. simpl. rewrite decide_True by exact Hst. reflexivity. Qed.

Lemma discovery_loop_stop (fuel : nat) (seen : gset Z) (st : Z) (w : World) :
  ~ st < 6 -> discovery_loop fuel seen st w = (Some seen, w).
Proof. intros Hst. destruct fuel; simpl; by rewrite decide_False. Qed.

Lemma discovery_loop_starved (seen : gset Z) (st : Z) (w : World) :
  st < 6 -> discovery_loop 0 seen st w = (None, w).
Proof. intros Hst. simpl. by rewrite decide_True. Qed.

Lemma discovery_loop_unroll (w0 : World) (m : nat) :
  forall (k fuel : nat) (w : World),
    script w = script w0 -> tick w = (tick w0 + 3 + k)%nat ->
    (forall j, (k <= j < k + m)%nat -> stable_after (loop_reads w0) j < 6) ->
    discovery_loop (m + fuel) (seen_after (loop_reads w0) k)
      (stable_after (loop_reads w0) k) w
    = discovery_loop fuel (seen_after (loop_reads w0) (k + m))
        (stable_after (loop_reads w0) (k + m)) (Nat.iter m tock w).
Proof.
  induction m as [|m IH]; intros k fuel w Hs Ht Hlt.
  { rewrite Nat.add_0_r. reflexivity. }
  change (S m + fuel)%nat with (S (m + fuel)).
  rewrite discovery_loop_step by (apply Hlt; lia).
  rewrite Hs, Ht. fold (loop_reads w0 k).
  change (cycle (loop_reads w0 k)
            (seen_after (loop_reads w0) k, stable_after (loop_reads w0) k))
    with (cycles (loop_reads w0) (S k)).
  fold (seen_after (loop_reads w0) (S k)).
  fold (stable_after (loop_reads w0) (S k)).
  rewrite (IH (S k) fuel (tock w)); [| done | simpl; lia | intros j Hj; apply Hlt; lia].
  rewrite Nat.iter_succ_r. by replace (k + S m)%nat with (S k + m)%nat by lia.
Qed.

(** With [n] the first pass count at which the counter is six, the loop
    makes exactly [n] passes. *)
Lemma discovery_loop_result (w0 w : World) (n fuel : nat) :
  script w = script w0 -> tick w = (tick w0 + 3)%nat ->
  stable_after (loop_reads w0) n = 6 ->
  (forall k, (k < n)%nat -> stable_after (loop_reads w0) k < 6) ->
  (discovery_loop fuel ∅ 0 w).1
  = if decide (n <= fuel)%nat then Some (seen_after (loop_reads w0) n) else None.
Proof.
  intros Hs Ht Hst Hlt. case_decide as Hfuel.
  - pose proof (discovery_loop_unroll w0 n 0 (fuel - n) w Hs
                  ltac:(lia) ltac:(intros j Hj; apply Hlt; lia)) as Hu.
    change (seen_after (loop_reads w0) 0) with (∅ : gset Z) in Hu.
    change (stable_after (loop_reads w0) 0) with 0 in Hu.
    replace (n + (fuel - n))%nat with fuel in Hu by lia.
    rewrite Hu, discovery_loop_stop; [done | simpl; lia].
  - pose proof (discovery_loop_unroll w0 fuel 0 0 w Hs
                  ltac:(lia) ltac:(intros j Hj; apply Hlt; lia)) as Hu.
    change (seen_after (loop_reads w0) 0) with (∅ : gset Z) in Hu.
    change (stable_after (loop_reads w0) 0) with 0 in Hu.
    replace (fuel + 0)%nat with fuel in Hu by lia.
    rewrite Hu, discovery_loop_starved; [done | apply Hlt; lia].
Qed.

Lemma get_all_site_ids_run (w : World) (n fuel : nat) :
  ui_opens w ->
  stable_after (loop_reads w) n = 6 ->
  (forall k, (k < n)%nat -> stable_after (loop_reads w) k < 6) ->
  (get_all_site_ids fuel w).1
  = if decide (n <= fuel)%nat then Ok (sorted (seen_after (loop_reads w) n))
    else OutOfFuel.
Proof.
  intros (Hgo & Hclick & Hsel) Hst Hlt.
  unfold get_all_site_ids, page_goto, page_click, page_wait_for_selector,
    log_nav, answer, mbind, M_bind, mret, M_ret.
  simpl. rewrite Hgo. simpl. rewrite Hclick. simpl. rewrite Hsel. simpl.
  match goal with |- context [discovery_loop fuel ∅ 0 ?w3] =>
    pose proof (discovery_loop_result w w3 n fuel eq_refl
                  ltac:(simpl; lia) Hst Hlt) as Hrun;
    destruct (discovery_loop fuel ∅ 0 w3) as [r w4]
  end.
  simpl in Hrun. subst r. by case_decide.
Qed.

(** ** The sorted result *)

Lemma sorted_elem (X : gset Z) (x : Z) : x ∈ sorted X <-> x ∈ X.
Proof.
  unfold sorted. rewrite merge_sort_Permutation. apply elem_of_elements.
Qed.

Lemma StronglySorted_le_lt (l : list Z) :
  StronglySorted Z.le l -> NoDup l -> StronglySorted Z.lt l.
Proof.
  induction 1 as [|x l Hs IH Hx]; intros Hnd; constructor.
  - apply IH. by apply NoDup_cons in Hnd as [_ ?].
  - apply NoDup_cons in Hnd as [Hnin _].
    apply Forall_forall. intros y Hy.
    pose proof (proj1 (Forall_forall _ _) Hx y Hy).
    assert (x <> y) by (intros ->; done). lia.
Qed.

Lemma sorted_ascending (X : gset Z) : StronglySorted Z.lt (sorted X).
Proof.
  apply StronglySorted_le_lt.
  - apply StronglySorted_merge_sort; apply _.
  - unfold sorted. rewrite merge_sort_Permutation. apply NoDup_elements.
Qed.

(** ** The claim on discovery *)

(** C2, as stated, fails when an identifier is rendered late: the list
    shows 1 for seven reads and 2 afterwards, every read is drawn from
    {1, 2} and both identifiers are eventually rendered, yet whatever the
    fuel the loop never returns [1; 2] (it stops after seven passes with
    [1]). *)
Lemma discovery_misses_late_identifier :
  ui_opens stalling_world
  /\ drawn_from ids_1_2 (loop_reads stalling_world)
  /\ eventually_rendered ids_1_2 (loop_reads stalling_world)
  /\ (get_all_site_ids 7 stalling_world).1 = Ok [1]
  /\ forall fuel, (get_all_site_ids fuel stalling_world).1 <> Ok (sorted ids_1_2).
Proof.
  assert (Hopen : ui_opens stalling_world) by (repeat split).
  split; [exact Hopen|]. split; [|split; [|split]].
  - intros k x. unfold loop_reads. simpl.
    destruct (_ <? 10)%nat; unfold ids_1_2; set_solver.
  - intros x Hx. assert (x = 1 \/ x = 2) as [-> | ->]
      by (unfold ids_1_2 in Hx; set_solver).
    + exists 0%nat. vm_compute. repeat constructor.
    + exists 7%nat. vm_compute. repeat constructor.
  - vm_compute. reflexivity.
  - intros fuel.
    rewrite (get_all_site_ids_run stalling_world 7 fuel Hopen);
      [| vm_compute; reflexivity | ].
    + case_decide; [|discriminate]. vm_compute. discriminate.
    + intros k Hk.
      do 7 (destruct k as [|k]; [vm_compute; reflexivity|]). lia.
Qed.

(** C2, amended: for reads drawn from a fixed finite universe in which
    every identifier is rendered before six reads in a row have come
    without growth, get_all_site_ids terminates, after exactly the number
    of passes at which the stability counter first reaches 6, the last
    six of them without growth (a pass without a new identifier adds one to
    the counter, a pass with one resets it to 0), and returns precisely
    that universe in ascending order. *)
Theorem get_all_site_ids_stabilizes (w : World) (U : gset Z) :
  ui_opens w ->
  drawn_from U (loop_reads w) ->
  rendered_in_time U (loop_reads w) ->
  exists n : nat,
    (n <= 7 * size U + 6)%nat
    /\ stable_after (loop_reads w) n = 6
    /\ (forall k, (k < n)%nat -> stable_after (loop_reads w) k < 6)
    /\ (6 <= n)%nat
    /\ (forall i, (n - 6 <= i < n)%nat -> no_growth (loop_reads w) i)
    /\ (forall k,
          (no_growth (loop_reads w) k ->
           stable_after (loop_reads w) (S k) = stable_after (loop_reads w) k + 1)
          /\ (~ no_growth (loop_reads w) k ->
              stable_after (loop_reads w) (S k) = 0))
    /\ (forall fuel, (n <= fuel)%nat ->
          (get_all_site_ids fuel w).1 = Ok (sorted U))
    /\ (forall fuel, (fuel < n)%nat ->
          (get_all_site_ids fuel w).1 = OutOfFuel)
    /\ StronglySorted Z.lt (sorted U)
    /\ (forall x, x ∈ sorted U <-> x ∈ U).
Proof.
  intros Hopen Hdrawn Htime.
  destruct (stops_within_bound (loop_reads w) U Hdrawn) as (n & Hn & Hst & Hlt).
  exists n. split; [exact Hn|]. split; [exact Hst|]. split; [exact Hlt|].
  destruct (stable_after_window (loop_reads w) n) as [Hrange Hquiet].
  split; [lia|]. split; [intros i Hi; apply Hquiet; lia|].
  split.
  { intros k. split;
      [apply stable_after_grows | apply stable_after_resets]. }
  pose proof (seen_all_in_time (loop_reads w) U n Hdrawn Htime Hst) as Hall.
  split; [|split; [|split]].
  - intros fuel Hfuel.
    rewrite (get_all_site_ids_run w n fuel Hopen Hst Hlt), Hall.
    by rewrite decide_True.
  - intros fuel Hfuel.
    rewrite (get_all_site_ids_run w n fuel Hopen Hst Hlt).
    rewrite decide_False; [done | lia].
  - apply sorted_ascending.
  - apply sorted_elem.
Qed.

Lemma get_all_site_ids_stabilizes_witness :
  ui_opens paced_world
  /\ drawn_from ids_1_2_3 (loop_reads paced_world)
  /\ rendered_in_time ids_1_2_3 (loop_reads paced_world)
  /\ exists n : nat,
       (n <= 7 * size ids_1_2_3 + 6)%nat
       /\ stable_after (loop_reads paced_world) n = 6
       /\ (forall k, (k < n)%nat -> stable_after (loop_reads paced_world) k < 6)
       /\ (6 <= n)%nat
       /\ (forall i, (n - 6 <= i < n)%nat -> no_growth (loop_reads paced_world) i)
       /\ (forall k,
             (no_growth (loop_reads paced_world) k ->
              stable_after (loop_reads paced_world) (S k)
              = stable_after (loop_reads paced_world) k + 1)
             /\ (~ no_growth (loop_reads paced_world) k ->
                 stable_after (loop_reads paced_world) (S k) = 0))
       /\ (forall fuel, (n <= fuel)%nat ->
             (get_all_site_ids fuel paced_world).1 = Ok (sorted ids_1_2_3))
       /\ (forall fuel, (fuel < n)%nat ->
             (get_all_site_ids fuel paced_world).1 = OutOfFuel)
       /\ StronglySorted Z.lt (sorted ids_1_2_3)
       /\ (forall x, x ∈ sorted ids_1_2_3 <-> x ∈ ids_1_2_3).
Proof.
  assert (Hopen : ui_opens paced_world) by (repeat split).
  assert (Hdrawn : drawn_from ids_1_2_3 (loop_reads paced_world)).
  { intros k x. unfold loop_reads. simpl.
    destruct (_ <? 4)%nat; unfold ids_1_2_3; set_solver. }
  assert (Htime : rendered_in_time ids_1_2_3 (loop_reads paced_world)).
  { intros x Hx.
    assert (x = 1 \/ x = 2 \/ x = 3) as [-> | [-> | ->]]
      by (unfold ids_1_2_3 in Hx; set_solver);
      [exists 0%nat | exists 0%nat | exists 1%nat];
      (split; [vm_compute; repeat constructor | intros j Hj; lia]). }
  split; [exact Hopen|]. split; [exact Hdrawn|]. split; [exact Htime|].
  exact (get_all_site_ids_stabilizes paced_world ids_1_2_3 Hopen Hdrawn Htime).
Defined.

(** * Directories *)

Lemma tree_grows_refl (t : gmap str stat) : tree_grows t t.
Proof. intros p. done. Qed.

Lemma tree_grows_file_ok (t t' : gmap str stat) (p : str) :
  tree_grows t t' -> file_ok t p = true -> file_ok t' p = true.
Proof.
  intros Hg Hok. destruct (Hg p) as [_ Heq].
  unfold file_ok, os_path_exists, os_path_getsize in *.
  by rewrite (Heq Hok).
Qed.

Lemma tree_grows_trans (t1 t2 t3 : gmap str stat) :
  tree_grows t1 t2 -> tree_grows t2 t3 -> tree_grows t1 t3.
Proof.
  intros H12 H23 p. destruct (H12 p) as [Ha Hb], (H23 p) as [Hc Hd].
  split; [auto|]. intros Hok.
  rewrite Hd; [auto|]. by eapply tree_grows_file_ok.
Qed.

Lemma file_ok_is_Some (t : gmap str stat) (p : str) :
  file_ok t p = true -> is_Some (t !! p).
Proof.
  unfold file_ok, os_path_exists. intros [Hex _]%andb_true_iff.
  by apply bool_decide_eq_true in Hex.
Qed.

(** Writing where file_ok finds nothing keeps what file_ok accepts. *)
Lemma tree_grows_insert (t : gmap str stat) (path : str) (st : stat) :
  file_ok t path = false -> tree_grows t (<[path := st]> t).
Proof.
  intros Hno p. split.
  - intros Hp. apply lookup_insert_is_Some'. by right.
  - intros Hok. rewrite lookup_insert_ne; [done|]. intros ->. congruence.
Qed.

Lemma subseteq_tree_grows (t t' : gmap str stat) :
  t ⊆ t' -> tree_grows t t'.
Proof.
  intros Hsub p. split.
  - intros [st Hst]. exists st. by eapply lookup_weaken.
  - intros [st Hst]%file_ok_is_Some. rewrite Hst. by eapply lookup_weaken.
Qed.

Lemma only_tree_grows_refl (w : World) : only_tree_grows w w.
Proof. repeat split; try done. Qed.

Lemma only_tree_grows_trans (w1 w2 w3 : World) :
  only_tree_grows w1 w2 -> only_tree_grows w2 w3 -> only_tree_grows w1 w3.
Proof.
  intros (Hs & Ht & Hn & Hd & Hp & Hm & Hf)
         (Hs' & Ht' & Hn' & Hd' & Hp' & Hm' & Hf').
  split; [congruence|]. split; [congruence|]. split; [congruence|].
  split; [congruence|]. split; [congruence|]. split; [congruence|].
  by etrans.
Qed.

Lemma new_dir_grows (path : str) (w : World) :
  fs w !! path = None -> only_tree_grows w (new_dir path w).2.
Proof.
  intros Hnone. unfold new_dir, write_fs. cbn [snd].
  split; [done|]. split; [done|]. split; [done|]. split; [done|].
  split; [done|]. split; [done|]. cbn [fs]. by apply insert_subseteq.
Qed.

Lemma new_dir_isdir (path : str) (w : World) :
  os_path_isdir (fs (new_dir path w).2) path = true.
Proof.
  unfold new_dir, write_fs, os_path_isdir. cbn [snd fs].
  by rewrite lookup_insert_eq.
Qed.

(** [mkdir] adds at most one directory, where nothing was, and when the
    call returns the directory is there. *)
Lemma mkdir_exist_ok_effect (name head : str) (w : World) :
  let r := mkdir_exist_ok name head w in
  only_tree_grows w r.2
  /\ (r.1 = Returned tt -> os_path_isdir (fs r.2) (OsPath.chomp name) = true)
  /\ (r.1 = Raised -> r.2 = w).
Proof.
  cbv zeta. unfold mkdir_exist_ok, mbind, M_bind, read_fs, mret, M_ret.
  destruct (OsPath.chomp name) as [|c path] eqn:Hpath.
  { split; [apply only_tree_grows_refl|]. done. }
  destruct (fs w !! (c :: path)) as [st|] eqn:Hl.
  { cbn [snd fst]. split; [apply only_tree_grows_refl|].
    split; [|done]. by destruct (os_path_isdir (fs w) (c :: path)). }
  destruct (match head with
            | [] => true
            | _ => OsPath.is_root head || os_path_isdir (fs w) head
            end).
  - destruct (new_dir (c :: path) w) as [[] w1] eqn:Hn.
    pose proof (new_dir_grows (c :: path) w Hl) as Hg.
    pose proof (new_dir_isdir (c :: path) w) as Hd.
    rewrite Hn in Hg, Hd. cbn [fst snd] in *. done.
  - cbn [fst snd]. split; [apply only_tree_grows_refl|]. done.
Qed.

Lemma makedirs_go_effect (fuel : nat) :
  forall (name : str) (w : World),
    let r := makedirs_go fuel name w in
    only_tree_grows w r.2
    /\ (r.1 = Returned tt ->
        os_path_isdir (fs r.2) (OsPath.chomp name) = true).
Proof.
  induction fuel as [|fuel IH]; intros name w.
  { cbv zeta. cbn [makedirs_go]. unfold mret, M_ret. cbn [fst snd].
    split; [apply only_tree_grows_refl | done]. }
  cbv zeta. cbn [makedirs_go].
  destruct (OsPath.split name) as [head0 tail0].
  destruct (match tail0 with
            | [] => OsPath.split head0
            | _ => (head0, tail0)
            end) as [head tail].
  unfold mbind, M_bind, read_fs.
  destruct (match head, tail with
            | _ :: _, _ :: _ => negb (os_path_exists (fs w) head)
            | _, _ => false
            end).
  - destruct (IH head w) as [Hg _].
    destruct (makedirs_go fuel head w) as [[[]|] w1]; cbn [fst snd] in *.
    + destruct (mkdir_exist_ok_effect name head w1) as (Hg1 & Hd1 & _).
      cbv zeta in *. split; [by eapply only_tree_grows_trans | exact Hd1].
    + split; [exact Hg | done].
  - destruct (mkdir_exist_ok_effect name head w) as (Hg1 & Hd1 & _).
    cbv zeta in *. split; [exact Hg1 | exact Hd1].
Qed.

(** ** The fuel of [makedirs_go] *)

Lemma upto_sep_lstrip (s : str) :
  s = OsPath.upto_sep s
      ++ Py.lstrip_by (fun c => negb (c =? OsPath.sep)%N) s.
Proof.
  induction s as [|c t IH]; [done|].
  cbn [OsPath.upto_sep Py.lstrip_by].
  destruct (c =? OsPath.sep)%N; cbn [negb app]; [done|]. by rewrite <- IH.
Qed.

Lemma split_length (p : str) :
  (length (OsPath.split p).1 + length (OsPath.split p).2 <= length p)%nat.
Proof.
  unfold OsPath.split, OsPath.dirname, OsPath.basename. cbn [fst snd].
  cbv zeta.
  pose proof (f_equal length (upto_sep_lstrip (reverse p))) as Hlen.
  rewrite length_app, length_reverse in Hlen.
  set (head := reverse (Py.lstrip_by _ (reverse p))) in *.
  assert (Hhead : length head
                  = length (Py.lstrip_by (fun c => negb (c =? OsPath.sep)%N)
                              (reverse p)))
    by (unfold head; apply length_reverse).
  rewrite length_reverse.
  destruct (forallb _ head); [lia|].
  pose proof (prefix_length _ _
                (rstrip_by_prefix (fun c => (c =? OsPath.sep)%N) head)).
  lia.
Qed.

(** The name is longer than the head [makedirs] goes up to. *)
Lemma makedirs_head_shorter (name head tail : str) :
  (let '(head0, tail0) := OsPath.split name in
   match tail0 with [] => OsPath.split head0 | _ => (head0, tail0) end)
  = (head, tail) ->
  tail <> [] -> (length head < length name)%nat.
Proof.
  pose proof (split_length name) as H1.
  destruct (OsPath.split name) as [head0 tail0]. cbn [fst snd] in H1.
  destruct tail0 as [|c tail0].
  - pose proof (split_length head0) as H2. intros Heq Hne.
    rewrite Heq in H2. cbn [fst snd] in H2.
    destruct tail; [done|]. cbn [length] in *. lia.
  - intros [= <- <-] _. cbn [length] in *. lia.
Qed.

(** Fuel beyond the length of the name changes nothing: the [Raised] of
    the exhausted recursion is never reached from [os_makedirs]. *)
Lemma makedirs_go_fuel (fuel1 : nat) :
  forall (fuel2 : nat) (name : str) (w : World),
    (length name < fuel1)%nat -> (length name < fuel2)%nat ->
    makedirs_go fuel1 name w = makedirs_go fuel2 name w.
Proof.
  induction fuel1 as [|fuel1 IH]; intros fuel2 name w H1 H2; [lia|].
  destruct fuel2 as [|fuel2]; [lia|].
  cbn [makedirs_go].
  pose proof (makedirs_head_shorter name) as Hshort.
  destruct (let '(head0, tail0) := OsPath.split name in
            match tail0 with
            | [] => OsPath.split head0
            | _ => (head0, tail0)
            end) as [head tail] eqn:Hsplit.
  specialize (Hshort head tail eq_refl).
  assert (Hsplit' :
    (let '(head0, tail0) := OsPath.split name in
     let '(head1, tail1) :=
       match tail0 with [] => OsPath.split head0 | _ => (head0, tail0) end in
     (head1, tail1)) = (head, tail)).
  { destruct (OsPath.split name) as [head0 tail0].
    by destruct (match tail0 with
                 | [] => OsPath.split head0
                 | _ => (head0, tail0)
                 end). }
  clear Hsplit.
  destruct (OsPath.split name) as [head0 tail0].
  destruct (match tail0 with
            | [] => OsPath.split head0
            | _ => (head0, tail0)
            end) as [head1 tail1].
  injection Hsplit' as -> ->.
  unfold mbind, M_bind, read_fs.
  destruct head as [|h head]; [done|]. destruct tail as [|t tail]; [done|].
  destruct (negb (os_path_exists (fs w) (h :: head))); [|done].
  rewrite (IH fuel2 (h :: head) w); [done | |];
    specialize (Hshort ltac:(done)); lia.
Qed.

Lemma os_makedirs_effect (name : str) (w : World) :
  let r := os_makedirs name w in
  only_tree_grows w r.2
  /\ (r.1 = Returned tt ->
      os_path_isdir (fs r.2) (OsPath.chomp name) = true).
Proof. apply makedirs_go_effect. Qed.

(** [os.makedirs] of the empty name raises and touches nothing. *)
Lemma os_makedirs_empty (w : World) : os_makedirs [] w = (Raised, w).
Proof. reflexivity. Qed.

Lemma makedirs_all_grows (out_dir : str) (specs : list PullSpec) :
  forall w : World, only_tree_grows w (makedirs_all out_dir specs w).2.
Proof.
  induction specs as [|spec rest IH]; intros w.
  { apply only_tree_grows_refl. }
  cbn [makedirs_all]. unfold mbind, M_bind.
  destruct (os_makedirs_effect (OsPath.join out_dir [key spec]) w) as [Hg _].
  cbv zeta in Hg.
  destruct (os_makedirs (OsPath.join out_dir [key spec]) w) as [[[]|] w1];
    cbn [fst snd] in *; [|exact Hg].
  eapply only_tree_grows_trans; [exact Hg | apply IH].
Qed.

Lemma make_dirs_grows (out_dir : str) (w : World) :
  only_tree_grows w (make_dirs out_dir w).2.
Proof.
  unfold make_dirs, mbind, M_bind.
  destruct (os_makedirs_effect out_dir w) as [Hg _]. cbv zeta in Hg.
  destruct (os_makedirs out_dir w) as [[[]|] w1]; cbn [fst snd] in *;
    [|exact Hg].
  eapply only_tree_grows_trans; [exact Hg | apply makedirs_all_grows].
Qed.

Lemma only_tree_grows_advances (w w' : World) :
  only_tree_grows w w' -> advances w w'.
Proof.
  intros (Hs & Ht & Hn & Hd & Hp & Hm & Hf).
  split; [done|]. split; [lia|]. split; [by rewrite Hn|].
  split; [by rewrite Hd|]. split; [done|]. split; [done|].
  by apply subseteq_tree_grows.
Qed.

(** * The iteration loop *)

Lemma trailing_failures_snoc (l : list (Z * bool)) (id : Z) (ok : bool) :
  trailing_failures (l ++ [(id, ok)])
  = if ok then 0 else 1 + trailing_failures l.
Proof.
  unfold trailing_failures. rewrite reverse_app. simpl. by destruct ok.
Qed.
Lemma leading_failures_nonneg (l : list (Z * bool)) : 0 <= leading_failures l.
Proof. induction l as [|[id []] l IH]; simpl; lia. Qed.

Lemma trailing_failures_nonneg (l : list (Z * bool)) : 0 <= trailing_failures l.
Proof. apply leading_failures_nonneg. Qed.

(** A list between [l] and [l ++ x :: k] is [l] or reaches past [x]. *)
Lemma prefix_between {A} (l k p : list A) (x : A) :
  l `prefix_of` p -> p `prefix_of` l ++ x :: k ->
  p = l \/ (l ++ [x]) `prefix_of` p.
Proof.
  intros [q ->] Hp. apply prefix_app_inv in Hp.
  destruct q as [|y q]; [left; by rewrite app_nil_r|].
  right. apply prefix_cons_inv_1 in Hp as <-.
  apply prefix_app, prefix_cons, prefix_nil.
Qed.

Section trace.
Context `{Py.CaseTables}.
Variables (stop : Z) (out_dir : str).

Lemma replay_cons (site_id : Z) (ok : bool) (l : list (Z * bool))
    (nm nm' : gmap str str) (w w3 : World) :
  attempt out_dir site_id nm w = ((Returned ok, nm'), w3) ->
  replay out_dir ((site_id, ok) :: l) nm w
  = replay out_dir l nm' (recorded site_id w3).
Proof.
  intros Ha. cbn [replay]. cbv zeta. rewrite Ha. cbn [fst snd].
  by rewrite decide_True.
Qed.

Lemma replay_snoc (l : list (Z * bool)) (site_id : Z) (ok : bool) :
  forall (nm nm1 : gmap str str) (w w1 : World),
    replay out_dir l nm w = Some (nm1, w1) ->
    replay out_dir (l ++ [(site_id, ok)]) nm w
    = replay out_dir [(site_id, ok)] nm1 w1.
Proof.
  induction l as [|[id b] l IH]; intros nm nm1 w w1 Hr.
  { injection Hr as <- <-. done. }
  cbn [app replay] in *. cbv zeta in *.
  destruct (decide _); [|done]. by apply IH.
Qed.

(** How the loop ends, for any threshold: it has pulled and recorded
    every item, or it has ended at a pull that returned False with the
    counter at the threshold, or at a pull that raised. *)
Lemma iterate_ends (ids : list Z) :
  forall (st : LoopState) (w : World),
    raised st = false ->
    let r := iterate stop out_dir ids st w in
    exists done : list (Z * bool),
      attempts r.1 = attempts st ++ done
      /\ ((done.*1 = ids /\ raised r.1 = false
           /\ replay out_dir done (name_map st) w = Some (name_map r.1, r.2)
           /\ (ids = [] \/ misses r.1 < Z.max 1 stop))
          \/ (exists l site_id nm1 w1,
                done = l ++ [(site_id, false)] /\ raised r.1 = false
                /\ (l.*1 ++ [site_id]) `prefix_of` ids
                /\ replay out_dir l (name_map st) w = Some (nm1, w1)
                /\ (attempt out_dir site_id nm1 w1).1
                   = (Returned false, name_map r.1)
                /\ r.2 = tock (attempt out_dir site_id nm1 w1).2
                /\ stop <= misses r.1)
          \/ (exists site_id nm1 w1,
                raised r.1 = true
                /\ (done.*1 ++ [site_id]) `prefix_of` ids
                /\ replay out_dir done (name_map st) w = Some (nm1, w1)
                /\ attempt out_dir site_id nm1 w1
                   = ((Raised, name_map r.1), r.2))).
Proof.
  induction ids as [|site_id rest IH]; intros st w Hst.
  { exists []. cbv zeta. cbn [iterate]. unfold mret, M_ret. cbn [fst snd].
    rewrite app_nil_r. split; [done|]. left. repeat split; auto. }
  (* the attempt returned [ok] and the loop goes on from [s1] *)
  assert (Hcont : forall (ok : bool) (nm : gmap str str) (w3 : World)
                    (s1 : LoopState),
    attempt out_dir site_id (name_map st) w = ((Returned ok, nm), w3) ->
    attempts s1 = attempts st ++ [(site_id, ok)] ->
    name_map s1 = nm -> raised s1 = false -> misses s1 < Z.max 1 stop ->
    let r := iterate stop out_dir rest s1 (recorded site_id w3) in
    exists done : list (Z * bool),
      attempts r.1 = attempts st ++ done
      /\ ((done.*1 = site_id :: rest /\ raised r.1 = false
           /\ replay out_dir done (name_map st) w = Some (name_map r.1, r.2)
           /\ (site_id :: rest = [] \/ misses r.1 < Z.max 1 stop))
          \/ (exists l site_id0 nm1 w1,
                done = l ++ [(site_id0, false)] /\ raised r.1 = false
                /\ (l.*1 ++ [site_id0]) `prefix_of` site_id :: rest
                /\ replay out_dir l (name_map st) w = Some (nm1, w1)
                /\ (attempt out_dir site_id0 nm1 w1).1
                   = (Returned false, name_map r.1)
                /\ r.2 = tock (attempt out_dir site_id0 nm1 w1).2
                /\ stop <= misses r.1)
          \/ (exists site_id0 nm1 w1,
                raised r.1 = true
                /\ (done.*1 ++ [site_id0]) `prefix_of` site_id :: rest
                /\ replay out_dir done (name_map st) w = Some (nm1, w1)
                /\ attempt out_dir site_id0 nm1 w1
                   = ((Raised, name_map r.1), r.2)))).
  { intros ok nm w3 s1 Ha Hs1 Hnm Hr1 Hm1. cbv zeta.
    destruct (IH s1 (recorded site_id w3) Hr1) as (done & Hatt & Hend).
    cbv zeta in Hatt, Hend. rewrite Hnm in Hend.
    exists ((site_id, ok) :: done).
    split; [by rewrite Hatt, Hs1, <- app_assoc|].
    destruct Hend as [(Hall & Hr & Hrep & Hm)
                     | [(l & id & nm1 & w1 & -> & Hr & Hpre & Hrep & Hf & Hw & Hm)
                       | (id & nm1 & w1 & Hr & Hpre & Hrep & Hf)]].
    - left. split; [by rewrite fmap_cons, Hall|]. split; [exact Hr|].
      split; [by rewrite (replay_cons _ _ _ _ _ _ _ Ha)|].
      right. destruct Hm as [-> | Hm]; [|exact Hm].
      cbn [iterate]. unfold mret, M_ret. cbn [fst]. exact Hm1.
    - right. left. exists ((site_id, ok) :: l), id, nm1, w1.
      split; [done|]. split; [exact Hr|].
      split; [rewrite fmap_cons; by apply prefix_cons|].
      split; [by rewrite (replay_cons _ _ _ _ _ _ _ Ha)|]. done.
    - right. right. exists id, nm1, w1. split; [exact Hr|].
      split; [rewrite fmap_cons; by apply prefix_cons|].
      split; [by rewrite (replay_cons _ _ _ _ _ _ _ Ha)|]. done. }
  cbv zeta. cbn [iterate]. unfold mbind, M_bind, time_time, answer.
  cbn [fst snd].
  change (pull_one_site site_id out_dir (name_map st) (tock (tock w)))
    with (attempt out_dir site_id (name_map st) w) in *.
  destruct (attempt out_dir site_id (name_map st) w) as [[[ok|] nm] w3] eqn:Ha.
  - destruct ok.
    + apply (Hcont true nm w3); try done. cbn [misses]. lia.
    + destruct (Z.leb_spec stop (misses st + 1)) as [Hbreak|Hgo].
      * exists [(site_id, false)]. unfold mret, M_ret. cbn [fst snd].
        split; [done|]. right. left.
        exists [], site_id, (name_map st), w. rewrite Ha. cbn [fst snd].
        repeat split; try done. apply prefix_cons, prefix_nil.
      * apply (Hcont false nm w3); try done. cbn [misses]. lia.
  - exists []. unfold mret, M_ret. cbn [fst snd]. rewrite app_nil_r.
    split; [done|]. right. right. exists site_id, (name_map st), w.
    repeat split; try done. apply prefix_cons, prefix_nil.
Qed.

End trace.

Section loop.
Context `{Py.CaseTables}.
Variables (stop : Z) (out_dir : str).
Hypothesis stop_positive : 1 <= stop.

(** The counter is the length of the run of failures that ends the
    attempts, and no attempt is made once it has reached the threshold. *)
Lemma iterate_invariant (ids : list Z) :
  forall (st : LoopState) (w : World),
    misses st = trailing_failures (attempts st) ->
    misses st < stop ->
    let st' := (iterate stop out_dir ids st w).1 in
    exists done : list (Z * bool),
      attempts st' = attempts st ++ done
      /\ done.*1 `prefix_of` ids
      /\ misses st' = trailing_failures (attempts st')
      /\ (forall p, attempts st `prefix_of` p -> p `prefix_of` attempts st' ->
                    p <> attempts st' -> trailing_failures p < stop)
      /\ trailing_failures (attempts st') <= stop
      /\ (raised st' = true -> trailing_failures (attempts st') < stop).
Proof.
  induction ids as [|site_id rest IH]; intros st w Hm Hlt.
  { exists []. cbv zeta. cbn [iterate]. unfold mret, M_ret. cbn [fst].
    rewrite app_nil_r.
    split; [done|]. split; [done|]. split; [done|].
    split; [|split; [lia | intros _; lia]].
    intros p Hp1 Hp2 Hne. destruct Hne. by apply (anti_symm prefix). }
  (* one more attempt made, the loop goes on from [s1] *)
  assert (Hcont : forall (ok : bool) (s1 : LoopState) (w' : World),
    attempts s1 = attempts st ++ [(site_id, ok)] ->
    misses s1 = trailing_failures (attempts s1) ->
    misses s1 < stop ->
    let st' := (iterate stop out_dir rest s1 w').1 in
    exists done : list (Z * bool),
      attempts st' = attempts st ++ done
      /\ done.*1 `prefix_of` site_id :: rest
      /\ misses st' = trailing_failures (attempts st')
      /\ (forall p, attempts st `prefix_of` p -> p `prefix_of` attempts st' ->
                    p <> attempts st' -> trailing_failures p < stop)
      /\ trailing_failures (attempts st') <= stop
      /\ (raised st' = true -> trailing_failures (attempts st') < stop)).
  { intros ok s1 w' Hs1 Hm1 Hlt1.
    destruct (IH s1 w' Hm1 Hlt1)
      as (done & Hatt & Hpre & Hmis & Hbetween & Hle & Hraised).
    rewrite Hs1 in Hatt. exists ((site_id, ok) :: done). cbv zeta.
    split; [by rewrite Hatt, <- app_assoc|].
    split; [rewrite fmap_cons; by apply prefix_cons|]. split; [exact Hmis|].
    split; [|split; [exact Hle | exact Hraised]].
    intros p Hp1 Hp2 Hne.
    rewrite Hatt, <- app_assoc in Hp2. cbn [app] in Hp2.
    destruct (prefix_between _ _ _ _ Hp1 Hp2) as [-> | Hp3]; [lia|].
    apply Hbetween; [by rewrite Hs1 | by rewrite Hatt, <- app_assoc | done]. }
  cbv zeta. cbn [iterate]. unfold mbind, M_bind, time_time, answer.
  cbn [fst snd].
  destruct (pull_one_site site_id out_dir (name_map st) (tock (tock w)))
    as [[[ok|] nm] w3].
  2:{ exists []. unfold mret, M_ret. cbn [fst attempts raised].
      rewrite app_nil_r.
      split; [done|]. split; [apply prefix_nil|]. split; [exact Hm|].
      split; [|split; [lia | intros _; lia]].
      intros p Hp1 Hp2 Hne. destruct Hne. by apply (anti_symm prefix). }
  pose proof (trailing_failures_snoc (attempts st) site_id ok) as Hsnoc.
  pose proof (trailing_failures_nonneg (attempts st)) as Hnn.
  destruct ok.
  - apply (Hcont true); cbn [attempts misses]; [done | lia | lia].
  - destruct (Z.leb_spec stop (misses st + 1)) as [Hbreak|Hgo].
    + exists [(site_id, false)]. unfold mret, M_ret.
      cbn [fst attempts misses raised].
      split; [done|]. split; [apply prefix_cons, prefix_nil|].
      rewrite Hsnoc. split; [lia|]. split; [|split; [lia | done]].
      intros p Hp1 Hp2 Hne.
      destruct (prefix_between _ [] _ _ Hp1 Hp2) as [-> | Hp3]; [lia|].
      destruct Hne. by apply (anti_symm prefix).
    + apply (Hcont false); cbn [attempts misses]; [done | lia | lia].
Qed.
End loop.

Section threshold.
Context `{Py.CaseTables}.
Variables (stop : Z) (out_dir : str).

(** The counter is compared after its increment: a threshold below one
    acts as one. *)
Lemma iterate_threshold (ids : list Z) :
  forall (st : LoopState) (w : World),
    0 <= misses st ->
    iterate stop out_dir ids st w = iterate (Z.max 1 stop) out_dir ids st w.
Proof.
  induction ids as [|site_id rest IH]; intros st w Hm; [done|].
  cbn [iterate]. unfold mbind, M_bind, time_time, answer. cbn [fst snd].
  destruct (pull_one_site site_id out_dir (name_map st) (tock (tock w)))
    as [[[ok|] nm] w3]; [|done].
  destruct ok.
  - cbn [write_progress_json snd]. by apply IH.
  - replace (Z.max 1 stop <=? misses st + 1) with (stop <=? misses st + 1).
    2:{ destruct (Z.leb_spec stop (misses st + 1)),
          (Z.leb_spec (Z.max 1 stop) (misses st + 1)); lia. }
    destruct (stop <=? misses st + 1); [done|].
    cbn [write_progress_json snd]. apply IH. cbn [misses]. lia.
Qed.

(** The loop from the state [main] enters it with. *)
Lemma iterate_trace (ids : list Z) (last_site : option Z)
    (nm : gmap str str) (w : World) :
  let r := iterate stop out_dir ids (initial_state last_site nm) w in
  processed r.1 `prefix_of` ids
  /\ misses r.1 = trailing_failures (attempts r.1)
  /\ (forall p, p `prefix_of` attempts r.1 -> p <> attempts r.1 ->
                trailing_failures p < Z.max 1 stop)
  /\ loop_ends out_dir stop ids nm w r.1 r.2.
Proof.
  cbv zeta.
  destruct (iterate_invariant (Z.max 1 stop) out_dir ltac:(lia) ids
              (initial_state last_site nm) w eq_refl ltac:(simpl; lia))
    as (done & Hatt & Hpre & Hmis & Hbetween & Hle & Hraised).
  cbv zeta in *.
  rewrite <- (iterate_threshold ids (initial_state last_site nm) w)
    in Hatt, Hmis, Hbetween, Hle, Hraised by (simpl; lia).
  destruct (iterate_ends stop out_dir ids (initial_state last_site nm) w
              eq_refl) as (done' & Hatt' & Hend).
  cbv zeta in *. cbn [initial_state attempts name_map app] in Hatt, Hatt', Hend.
  assert (done' = done) as -> by congruence.
  split; [unfold processed; by rewrite Hatt|]. split; [exact Hmis|].
  split; [intros p Hp Hne; apply Hbetween; [apply prefix_nil | done | done]|].
  unfold loop_ends, ran_through, halted_by_breaker, stopped_by_error, processed.
  rewrite Hatt in *.
  destruct Hend as [(Hall & Hr & Hrep & Hm)
                   | [(l & id & nm1 & w1 & -> & Hr & Hp & Hrep & Hf & Hw & Hm)
                     | (id & nm1 & w1 & Hr & Hp & Hrep & Hf)]].
  - left. split; [done|].
    destruct Hm as [-> | Hm]; [|lia].
    destruct done; [|done]. unfold trailing_failures. simpl. lia.
  - right. left. split; [by exists l, id, nm1, w1|].
    rewrite trailing_failures_snoc in *.
    pose proof (trailing_failures_nonneg l). lia.
  - right. right. split; [by exists id, nm1, w1|]. by apply Hraised.
Qed.

End threshold.

(** ** The marker on disk *)

(** Only the loop of [main] writes progress.json: pulling an item leaves
    it alone. *)
Lemma get_site_name_progress (w : World) :
  progress_json (get_site_name w).2 = progress_json w.
Proof.
  unfold get_site_name, page_wait_for_selector, mbind, M_bind, mret, M_ret,
    answer.
  destruct (selector_appears _ _ _); simpl; [|done].
  destruct (title_attr _ _) as [[|c t]|]; simpl; try done.
  destruct (Py.strip (c :: t)); done.
Qed.

Lemma download_csv_progress (out_path : str) (w : World) :
  progress_json (download_csv out_path w).2 = progress_json w.
Proof.
  unfold download_csv, page_wait_for_selector, write_fs,
    log_download, mbind, M_bind, mret, M_ret, answer.
  cbn [fst snd].
  destruct (selector_appears _ _ _); cbn [negb]; [|done].
  destruct (download_arrives _ _); [|done].
  match goal with |- context [os_makedirs ?d ?w1] =>
    destruct (os_makedirs_effect d w1) as [(_ & _ & _ & _ & Hp & _) _];
    destruct (os_makedirs d w1) as [[[]|] w2] end;
    cbn [fst snd progress_json] in *; exact Hp.
Qed.

Lemma pull_specs_progress (specs : list PullSpec) (site_id : Z)
    (out_dir slug : str) :
  forall (ok_any : bool) (w : World),
    progress_json (pull_specs specs site_id out_dir slug ok_any w).2
    = progress_json w.
Proof.
  induction specs as [|spec rest IH]; intros ok_any w; [done|].
  cbn [pull_specs]. unfold mbind, M_bind, read_fs.
  destruct (file_ok _ _); [apply IH|].
  unfold page_goto, log_nav, answer, mbind, M_bind. cbn [fst snd].
  destruct (goto_loads _ _ _); cbn [negb]; [|by rewrite IH].
  match goal with |- context [download_csv ?p ?w1] =>
    pose proof (download_csv_progress p w1) as Hd;
    destruct (download_csv p w1) as [[ok|] w2] end.
  - rewrite IH. exact Hd.
  - exact Hd.
Qed.

Lemma pull_one_site_progress `{Py.CaseTables} (site_id : Z) (out_dir : str)
    (nm : gmap str str) (w : World) :
  progress_json (pull_one_site site_id out_dir nm w).2 = progress_json w.
Proof.
  unfold pull_one_site, page_goto, log_nav, answer, mbind, M_bind, mret, M_ret.
  cbn [fst snd].
  destruct (goto_loads _ _ _); cbn [negb]; [|done].
  match goal with |- context [get_site_name ?w1] =>
    pose proof (get_site_name_progress w1) as Hn;
    destruct (get_site_name w1) as [[[|c s]|] w2] end; try exact Hn.
  unfold read_fs. destruct (is_site_complete _ _ _); [exact Hn|].
  match goal with |- context [pull_specs ?a ?b ?c ?d ?e w2] =>
    pose proof (pull_specs_progress a b c d e w2) as Hp;
    destruct (pull_specs a b c d e w2) as [ok w3] end.
  simpl in *. congruence.
Qed.

Lemma marker_after_cons (before : option (option Z)) (site_id : Z)
    (ok : bool) (done : list (Z * bool)) :
  marker_after before ((site_id, ok) :: done)
  = marker_after (Some (Some site_id)) done.
Proof.
  unfold marker_after. rewrite last_cons. by destruct (last done).
Qed.

Section marker.
Context `{Py.CaseTables}.
Variables (stop : Z) (out_dir : str).
Hypothesis stop_positive : 1 <= stop.

(** Every attempt is followed by the write of its identifier, except the
    attempt at which the loop breaks. *)
Lemma iterate_marker (ids : list Z) :
  forall (st : LoopState) (w : World),
    misses st = trailing_failures (attempts st) ->
    misses st < stop ->
    let r := iterate stop out_dir ids st w in
    exists done : list (Z * bool),
      attempts r.1 = attempts st ++ done
      /\ misses r.1 = trailing_failures (attempts r.1)
      /\ progress_json r.2
         = marker_after (progress_json w)
             (if decide (misses r.1 < stop) then done else removelast done).
Proof.
  induction ids as [|site_id rest IH]; intros st w Hm Hlt.
  { exists []. cbv zeta. cbn [iterate]. unfold mret, M_ret. cbn [fst snd].
    rewrite app_nil_r, decide_True by done. done. }
  (* the attempt was followed by the write and the loop goes on *)
  assert (Hcont : forall (ok : bool) (s1 : LoopState) (w' : World),
    attempts s1 = attempts st ++ [(site_id, ok)] ->
    misses s1 = trailing_failures (attempts s1) ->
    misses s1 < stop ->
    progress_json w' = Some (Some site_id) ->
    let r := iterate stop out_dir rest s1 w' in
    exists done : list (Z * bool),
      attempts r.1 = attempts st ++ done
      /\ misses r.1 = trailing_failures (attempts r.1)
      /\ progress_json r.2
         = marker_after (progress_json w)
             (if decide (misses r.1 < stop) then done else removelast done)).
  { intros ok s1 w' Hs1 Hm1 Hlt1 Hw'.
    destruct (IH s1 w' Hm1 Hlt1) as (done & Hatt & Hmis & Hmark).
    exists ((site_id, ok) :: done). cbv zeta.
    split; [by rewrite Hatt, Hs1, <- app_assoc|]. split; [exact Hmis|].
    rewrite Hmark, Hw'. case_decide as Hend.
    - by rewrite marker_after_cons.
    - destruct done as [|d done].
      + rewrite app_nil_r in Hatt. rewrite Hmis, Hatt, <- Hm1 in Hend. lia.
      + change (removelast ((site_id, ok) :: d :: done))
          with ((site_id, ok) :: removelast (d :: done)).
        by rewrite marker_after_cons. }
  cbn [iterate]. unfold mbind, M_bind, time_time, answer.
  match goal with |- context [pull_one_site site_id out_dir ?n ?w2] =>
    pose proof (pull_one_site_progress site_id out_dir n w2) as Hpull;
    destruct (pull_one_site site_id out_dir n w2) as [[[ok|] nm] w3] end.
  2:{ exists []. unfold mret, M_ret. cbn [fst snd attempts misses].
      rewrite app_nil_r, decide_True by done. done. }
  cbn [fst snd] in Hpull. cbn [progress_json tock] in Hpull.
  pose proof (trailing_failures_snoc (attempts st) site_id ok) as Hsnoc.
  pose proof (trailing_failures_nonneg (attempts st)) as Hnn.
  destruct ok.
  - apply (Hcont true); cbn [attempts misses]; [done | lia | lia | done].
  - destruct (Z.leb_spec stop (misses st + 1)) as [Hbreak|Hgo].
    + exists [(site_id, false)]. unfold mret, M_ret.
      cbn [fst snd attempts misses removelast].
      split; [done|]. split; [lia|].
      rewrite decide_False by lia. exact Hpull.
    + apply (Hcont false); cbn [attempts misses]; [done | lia | lia | done].
Qed.
End marker.

(** ** Resume offset *)

Lemma StronglySorted_lt_NoDup (l : list Z) : StronglySorted Z.lt l -> NoDup l.
Proof.
  induction 1 as [|x l Hs IH Hx]; constructor; [|exact IH].
  intros Hin. pose proof (proj1 (Forall_forall _ _) Hx x Hin). lia.
Qed.

Lemma index_lookup (l : list Z) (K : nat) (v : Z) :
  NoDup l -> l !! K = Some v -> index v l = Some K.
Proof.
  revert K. induction l as [|x t IH]; intros K Hnd HK; [done|].
  apply NoDup_cons in Hnd as [Hx Hnd]. simpl.
  destruct K as [|K]; simpl in HK.
  - injection HK as ->. by rewrite decide_True.
  - rewrite decide_False.
    + by rewrite (IH K Hnd HK).
    + intros ->. apply Hx. by eapply list_elem_of_lookup_2.
Qed.

Lemma start_idx_found (l : list Z) (K : nat) (v : Z) :
  NoDup l -> l !! K = Some v -> start_idx (Some v) l = S K.
Proof.
  intros Hnd HK. unfold start_idx.
  rewrite bool_decide_eq_true_2 by (by eapply list_elem_of_lookup_2).
  rewrite (index_lookup l K v Hnd HK). lia.
Qed.

Lemma start_idx_absent (l : list Z) (v : Z) :
  v ∉ l -> start_idx (Some v) l = O.
Proof. intros Hv. unfold start_idx. by rewrite bool_decide_eq_false_2. Qed.

Lemma StronglySorted_drop (l : list Z) (n : nat) :
  StronglySorted Z.lt l -> StronglySorted Z.lt (drop n l).
Proof.
  intros Hs. rewrite <- (take_drop n l) in Hs.
  by apply StronglySorted_app_1_r in Hs.
Qed.

(** ** The run around the loop *)

(** Discovery looks at the script and at the position in it, nothing else. *)
Lemma discovery_loop_indep (fuel : nat) :
  forall (seen : gset Z) (st : Z) (w w' : World),
    script w = script w' -> tick w = tick w' ->
    (discovery_loop fuel seen st w).1 = (discovery_loop fuel seen st w').1.
Proof.
  induction fuel as [|fuel IH]; intros seen st w w' Hs Ht;
    destruct (decide (st < 6)) as [Hlt|Hge].
  - by rewrite !discovery_loop_starved.
  - by rewrite !discovery_loop_stop.
  - rewrite !discovery_loop_step by done. rewrite Hs, Ht.
    apply IH; simpl; congruence.
  - by rewrite !discovery_loop_stop.
Qed.

Lemma get_all_site_ids_indep (fuel : nat) (w w' : World) :
  script w = script w' -> tick w = tick w' ->
  (get_all_site_ids fuel w).1 = (get_all_site_ids fuel w').1.
Proof.
  intros Hs Ht.
  unfold get_all_site_ids, page_goto, page_click, page_wait_for_selector,
    log_nav, answer, mbind, M_bind, mret, M_ret.
  simpl. rewrite Hs, Ht.
  destruct (goto_loads _ _ _); [|done]. simpl.
  destruct (click_lands _ _ _); [|done]. simpl.
  destruct (selector_appears _ _ _); [|done]. simpl.
  match goal with |- context [discovery_loop fuel ∅ 0 ?a] =>
    match goal with |- context [discovery_loop fuel ∅ 0 ?b] =>
      lazymatch a with b => fail | _ =>
        pose proof (discovery_loop_indep fuel ∅ 0 a b eq_refl eq_refl) as Hi
      end end end.
  destruct (discovery_loop fuel ∅ 0 _) as [r1 w1].
  destruct (discovery_loop fuel ∅ 0 _) as [r2 w2].
  simpl in Hi. subst r2. by destruct r1.
Qed.

Lemma get_all_site_ids_sorted (fuel : nat) (w : World) (l : list Z) :
  (get_all_site_ids fuel w).1 = Ok l -> StronglySorted Z.lt l.
Proof.
  unfold get_all_site_ids, page_goto, page_click, page_wait_for_selector,
    log_nav, answer, mbind, M_bind, mret, M_ret.
  simpl.
  destruct (goto_loads _ _ _); [|done]. simpl.
  destruct (click_lands _ _ _); [|done]. simpl.
  destruct (selector_appears _ _ _); [|done]. simpl.
  destruct (discovery_loop fuel ∅ 0 _) as [[seen|] w1]; [|done].
  intros [= <-]. apply sorted_ascending.
Qed.

Section run.
Context `{Py.CaseTables}.
Variables (fuel : nat) (out_dir : str) (stop : Z) (w : World).

(** An error of the first lines of [main] ends the run there. *)
Lemma main_raised :
  (make_dirs out_dir w).1 = Raised ->
  main fuel out_dir stop w = (OsError, (make_dirs out_dir w).2).
Proof.
  intros Hmk. unfold main, mbind, M_bind, mret, M_ret.
  destruct (make_dirs out_dir w) as [[[]|] w2]; [done|reflexivity].
Qed.

(** Past its first lines [main] is discovery followed, when a list comes
    back, by the loop over the identifiers past the resume offset. *)
Lemma main_returned :
  (make_dirs out_dir w).1 = Returned tt ->
  main fuel out_dir stop w
  = match (get_all_site_ids fuel w).1 with
    | Ok site_ids =>
      finish (iterate stop out_dir
                (drop (start_idx (default None (progress_json w)) site_ids)
                   site_ids)
                (initial_state (default None (progress_json w))
                   (default ∅ (name_map_json w)))
                (loop_entry fuel out_dir w))
    | TimedOut =>
      (TimedOut, (get_all_site_ids fuel (make_dirs out_dir w).2).2)
    | OutOfFuel =>
      (OutOfFuel, (get_all_site_ids fuel (make_dirs out_dir w).2).2)
    | OsError =>
      (OsError, (get_all_site_ids fuel (make_dirs out_dir w).2).2)
    end.
Proof.
  intros Hmk. unfold main, loop_entry, mbind, M_bind, mret, M_ret.
  pose proof (make_dirs_grows out_dir w) as (Hs & Ht & _ & _ & Hp & Hn & _).
  destruct (make_dirs out_dir w) as [[[]|] w2]; [|done].
  cbn [fst snd] in *.
  unfold load_name_map, load_progress. rewrite Hp, Hn.
  rewrite <- (get_all_site_ids_indep fuel w2 w Hs Ht).
  destruct (get_all_site_ids fuel w2) as [[site_ids| | |] w3];
    cbn [fst snd]; try reflexivity.
  unfold time_time, answer, initial_state, finish.
  destruct (iterate _ _ _ _ (tock w3)) as [st w5]. cbn [fst snd].
  by destruct (raised st).
Qed.

End run.

(** ** The claims on the run orchestrator *)

(** C3, as stated, fails when the circuit breaker ends the loop: the
    marker is on identifier 1, the element at position 0 of the
    discovered sequence 1, 2, 3, no item shows a display name and the
    threshold is 1; the run takes identifier 2 and stops, identifier 3 is
    never taken. *)
Lemma resume_cut_short_by_breaker :
  (get_all_site_ids 100 interrupted_world).1 = Ok [1; 2; 3]
  /\ progress_json interrupted_world = Some (Some 1)
  /\ [1; 2; 3] !! 0%nat = Some 1
  /\ exists st : LoopState,
       (@main ascii_only_tables 100 (py "out") 1 interrupted_world).1 = Ok st
       /\ processed st = [2]
       /\ processed st <> drop 1 [1; 2; 3].
Proof.
  split; [vm_compute; reflexivity|]. split; [reflexivity|].
  split; [reflexivity|]. eexists. split; [vm_compute; reflexivity|].
  split; [reflexivity | discriminate].
Qed.

(** C3, amended: when the first lines of main raise nothing and the
    persisted marker is the element at position K of the freshly
    discovered ascending sequence, the loop of the run is the loop over
    the elements after position K, in that order: it pulls and records
    them one after the other, through to the last one unless the circuit
    breaker or an error ends it at an earlier one; with no marker, or a
    marker that is not in the sequence, it is the loop over the whole
    sequence. *)
Theorem main_resumes_after_marker `{Py.CaseTables} (fuel : nat)
    (out_dir : str) (stop : Z) (w : World) (site_ids : list Z) :
  (make_dirs out_dir w).1 = Returned tt ->
  (get_all_site_ids fuel w).1 = Ok site_ids ->
  StronglySorted Z.lt site_ids
  /\ (forall (K : nat) (v : Z),
        progress_json w = Some (Some v) -> site_ids !! K = Some v ->
        run_takes fuel out_dir stop w (drop (S K) site_ids))
  /\ ((progress_json w = None \/ progress_json w = Some None
       \/ exists v, progress_json w = Some (Some v) /\ v ∉ site_ids) ->
      run_takes fuel out_dir stop w site_ids).
Proof.
  intros Hmk Hdisc.
  pose proof (get_all_site_ids_sorted fuel w site_ids Hdisc) as Hsorted.
  pose proof (main_returned fuel out_dir stop w Hmk) as Hmain.
  rewrite Hdisc in Hmain.
  assert (Hrange : forall todo,
    drop (start_idx (default None (progress_json w)) site_ids) site_ids = todo ->
    run_takes fuel out_dir stop w todo).
  { intros todo Htodo. rewrite Htodo in Hmain. unfold run_takes. cbv zeta.
    split; [exact Hmain|].
    destruct (iterate_trace stop out_dir todo (default None (progress_json w))
                (default ∅ (name_map_json w)) (loop_entry fuel out_dir w))
      as (Hpre & _ & _ & Hend).
    done. }
  split; [exact Hsorted|]. split.
  - intros K v Hmark HK. apply Hrange. rewrite Hmark.
    change (default None (Some (Some v))) with (Some v).
    by rewrite (start_idx_found site_ids K v
                  (StronglySorted_lt_NoDup _ Hsorted) HK).
  - intros [Hnone | [Hnull | (v & Hmark & Habsent)]]; apply Hrange.
    + by rewrite Hnone.
    + by rewrite Hnull.
    + rewrite Hmark. change (default None (Some (Some v))) with (Some v).
      by rewrite (start_idx_absent site_ids v Habsent).
Qed.

Lemma main_resumes_after_marker_witness :
  (make_dirs (py "out") resumed_world).1 = Returned tt
  /\ (get_all_site_ids 100 resumed_world).1 = Ok [1; 2; 3]
  /\ StronglySorted Z.lt [1; 2; 3]
  /\ (forall (K : nat) (v : Z),
        progress_json resumed_world = Some (Some v) ->
        [1; 2; 3] !! K = Some v ->
        @run_takes ascii_only_tables 100 (py "out") 30 resumed_world
          (drop (S K) [1; 2; 3]))
  /\ ((progress_json resumed_world = None
       \/ progress_json resumed_world = Some None
       \/ exists v, progress_json resumed_world = Some (Some v)
                    /\ v ∉ [1; 2; 3]) ->
      @run_takes ascii_only_tables 100 (py "out") 30 resumed_world [1; 2; 3]).
Proof.
  assert (Hmk : (make_dirs (py "out") resumed_world).1 = Returned tt)
    by (vm_compute; reflexivity).
  assert (Hdisc : (get_all_site_ids 100 resumed_world).1 = Ok [1; 2; 3])
    by (vm_compute; reflexivity).
  split; [exact Hmk|]. split; [exact Hdisc|].
  exact (@main_resumes_after_marker ascii_only_tables 100 (py "out") 30
           resumed_world [1; 2; 3] Hmk Hdisc).
Defined.

(** With the marker on identifier 2 the run takes identifier 3 alone. *)
Example resume_run :
  exists st : LoopState,
    (@main ascii_only_tables 100 (py "out") 30 resumed_world).1 = Ok st
    /\ attempts st = [(3, false)].
Proof. eexists. split; [vm_compute; reflexivity | reflexivity]. Qed.

(** C4, as stated, fails for a threshold of zero: no failure at all is
    zero failures in a row, yet the loop pulls the first item, and it
    ends with one failure in a row behind it, not zero. *)
Lemma breaker_threshold_zero :
  let st' := (@iterate ascii_only_tables 0 (py "out") [1; 2; 3]
                (initial_state None ∅) offline_world).1 in
  attempts st' = [(1, false)]
  /\ ~ (forall p, p `prefix_of` attempts st' -> p <> attempts st' ->
                  trailing_failures p < 0)
  /\ trailing_failures (attempts st') <> 0.
Proof.
  cbv zeta.
  assert (Hrun : attempts (@iterate ascii_only_tables 0 (py "out") [1; 2; 3]
                             (initial_state None ∅) offline_world).1
                 = [(1, false)]) by (vm_compute; reflexivity).
  rewrite Hrun. split; [done|]. split; [|by vm_compute].
  intros Hall. specialize (Hall [] (prefix_nil _) ltac:(discriminate)).
  vm_compute in Hall. discriminate.
Qed.

(** C4, amended: with threshold N of at least one (a threshold below one
    acts as one) the loop pulls the identifiers in order, each pull in
    the world the one before has left, and ends right after the failed
    pull that completes N failures in a row: it makes no pull once N
    failures in a row lie behind it, and before the end of the list it
    stops for no other reason than such a run or an error.  The counter
    is the length of the run of failures that ends the attempts so far,
    zero after a success. *)
Theorem circuit_breaker_halts `{Py.CaseTables} (stop : Z) (out_dir : str)
    (ids : list Z) (last_site : option Z) (nm : gmap str str) (w : World) :
  let r := iterate stop out_dir ids (initial_state last_site nm) w in
  processed r.1 `prefix_of` ids
  /\ misses r.1 = trailing_failures (attempts r.1)
  /\ (forall l id, attempts r.1 = l ++ [(id, true)] -> misses r.1 = 0)
  /\ (forall p, p `prefix_of` attempts r.1 -> p <> attempts r.1 ->
                trailing_failures p < Z.max 1 stop)
  /\ loop_ends out_dir stop ids nm w r.1 r.2.
Proof.
  cbv zeta.
  destruct (iterate_trace stop out_dir ids last_site nm w)
    as (Hpre & Hmis & Hbetween & Hend).
  cbv zeta in *.
  split; [exact Hpre|]. split; [exact Hmis|].
  split; [|split; [exact Hbetween | exact Hend]].
  intros l id Hlast. rewrite Hmis, Hlast. by rewrite trailing_failures_snoc.
Qed.

(** With threshold 2 and no page loading, the loop stops at the second of
    three identifiers. *)
Example circuit_breaker_run :
  attempts (@iterate ascii_only_tables 2 (py "out") [1; 2; 3]
              (initial_state None ∅) offline_world).1
  = [(1, false); (2, false)].
Proof. vm_compute. reflexivity. Qed.

(** C1 on the code: the attempt that trips the circuit breaker leaves the
    loop before the marker is written.  In the first run discovery finds
    identifier 7 alone and its page never loads: with threshold 1 that
    failure ends the loop and progress.json is still absent, while with
    threshold 2 the same failure is followed by the write of 7.  In the
    second run item 5 is skipped as complete and item 7 fails with
    threshold 1: the marker on disk is 5 although 7 was attempted last. *)
Theorem break_skips_progress_write :
  let broken := @main ascii_only_tables 7 (py "out") 1 dead_site_world in
  let going := @main ascii_only_tables 7 (py "out") 2 dead_site_world in
  let stuck := @main ascii_only_tables 7 (py "out") 1 half_dead_world in
  (exists st, broken.1 = Ok st /\ attempts st = [(7, false)])
  /\ progress_json broken.2 = None
  /\ (exists st, going.1 = Ok st /\ attempts st = [(7, false)])
  /\ progress_json going.2 = Some (Some 7)
  /\ (exists st, stuck.1 = Ok st /\ attempts st = [(5, true); (7, false)])
  /\ progress_json stuck.2 = Some (Some 5).
Proof.
  vm_compute. repeat split; eexists; split; reflexivity.
Qed.

(** * ETA formatting *)

Lemma format_02d_below_100 :
  Forall (fun k => Py.format_02d (Z.of_nat k) = two_digits (Z.of_nat k))
    (seq 0 100).
Proof. apply (bool_decide_unpack _). vm_compute. reflexivity. Qed.

Lemma format_02d_two_digits (n : Z) :
  0 <= n < 100 -> Py.format_02d n = two_digits n.
Proof.
  intros Hn. rewrite <- (Z2Nat.id n) by lia.
  apply (proj1 (Forall_forall _ _) format_02d_below_100).
  apply elem_of_seq. lia.
Qed.

Lemma py_int_floor (x : Q) : (0 < x)%Q -> py_int x = Qfloor x.
Proof.
  destruct x as [n d]. unfold Qlt, py_int, Qfloor. simpl. intros Hn.
  apply Z.quot_div_nonneg; lia.
Qed.

Lemma fmt_seconds_positive (x : Q) :
  (0 < x)%Q ->
  fmt_seconds x =
  let total := Qfloor x in
  let h := total / 3600 in
  let m := total mod 3600 / 60 in
  let s := total mod 3600 mod 60 in
  if 0 <? h then
    Py.str_int h ++ py "h" ++ Py.format_02d m ++ py "m"
      ++ Py.format_02d s ++ py "s"
  else if 0 <? m then Py.str_int m ++ py "m" ++ Py.format_02d s ++ py "s"
  else Py.str_int s ++ py "s".
Proof.
  intros Hx. unfold fmt_seconds.
  replace (Qle_bool x 0) with false.
  2:{ symmetry. apply not_true_iff_false. rewrite Qle_bool_iff.
      by apply Qlt_not_le. }
  rewrite (py_int_floor x Hx). cbv zeta.
  unfold Z.div, Z.modulo.
  destruct (Z.div_eucl (Qfloor x) 3600) as [h r].
  destruct (Z.div_eucl r 60) as [m s]. reflexivity.
Qed.

(** C9: fmt_seconds gives "0s" for every zero or negative duration; a
    positive duration of [total] whole seconds is written with hours,
    minutes and seconds when it has hours, with minutes and seconds when it
    has minutes but no hour, and with seconds alone otherwise, the units
    under the leading one on two digits; fmt_seconds(0) = "0s",
    fmt_seconds(65) = "1m05s" and fmt_seconds(3661) = "1h01m01s". *)
Theorem fmt_seconds_spec :
  (forall x : Q, (x <= 0)%Q -> fmt_seconds x = py "0s")
  /\ (forall x : Q, (0 < x)%Q ->
        let total := Qfloor x in
        let h := total / 3600 in
        let m := total mod 3600 / 60 in
        let s := total mod 60 in
        (0 < h -> fmt_seconds x
                  = Py.str_int h ++ py "h" ++ two_digits m ++ py "m"
                      ++ two_digits s ++ py "s")
        /\ (h = 0 -> 0 < m ->
            fmt_seconds x = Py.str_int m ++ py "m" ++ two_digits s ++ py "s")
        /\ (h = 0 -> m = 0 -> fmt_seconds x = Py.str_int s ++ py "s"))
  /\ fmt_seconds (inject_Z 0) = py "0s"
  /\ fmt_seconds (inject_Z 65) = py "1m05s"
  /\ fmt_seconds (inject_Z 3661) = py "1h01m01s".
Proof.
  split; [|split; [|repeat split; vm_compute; reflexivity]].
  - intros x Hx. unfold fmt_seconds.
    by rewrite (proj2 (Qle_bool_iff x 0) Hx).
  - intros x Hx. cbv zeta. rewrite (fmt_seconds_positive x Hx). cbv zeta.
    set (total := Qfloor x).
    assert (Hs : total mod 3600 mod 60 = total mod 60)
      by (Z.div_mod_to_equations; lia).
    assert (Hm : 0 <= total mod 3600 / 60 < 100)
      by (Z.div_mod_to_equations; lia).
    assert (Hs' : 0 <= total mod 60 < 100) by (Z.div_mod_to_equations; lia).
    rewrite Hs, !format_02d_two_digits by assumption.
    split; [|split].
    + intros Hh. by rewrite (proj2 (Z.ltb_lt _ _) Hh).
    + intros Hh Hm'. rewrite Hh. simpl (0 <? 0).
      by rewrite (proj2 (Z.ltb_lt _ _) Hm').
    + intros Hh Hm'. rewrite Hh, Hm'. reflexivity.
Qed.

Lemma fmt_seconds_spec_witness :
  (inject_Z (-5) <= 0)%Q /\ fmt_seconds (inject_Z (-5)) = py "0s"
  /\ (0 < inject_Z 3661)%Q
  /\ fmt_seconds (inject_Z 3661)
     = Py.str_int 1 ++ py "h" ++ two_digits 1 ++ py "m" ++ two_digits 1 ++ py "s".
Proof.
  assert (Hneg : (inject_Z (-5) <= 0)%Q) by (vm_compute; discriminate).
  assert (Hpos : (0 < inject_Z 3661)%Q) by reflexivity.
  destruct fmt_seconds_spec as (Hzero & Hfmt & _).
  split; [exact Hneg|]. split; [exact (Hzero _ Hneg)|]. split; [exact Hpos|].
  destruct (Hfmt _ Hpos) as (Hh & _ & _).
  exact (Hh ltac:(reflexivity)).
Defined.

(** * Effects of the steps on the world *)

Lemma advances_refl (w : World) : advances w w.
Proof. repeat split; try done. Qed.

Lemma advances_trans (w1 w2 w3 : World) :
  advances w1 w2 -> advances w2 w3 -> advances w1 w3.
Proof.
  intros (Hs & Ht & Hn & Hd & Hp & Hm & Hf) (Hs' & Ht' & Hn' & Hd' & Hp' & Hm' & Hf').
  repeat split; try congruence; try lia.
  - by etrans.
  - by etrans.
  - apply (tree_grows_trans _ _ _ Hf Hf' p).
  - apply (tree_grows_trans _ _ _ Hf Hf' p).
Qed.

Lemma advances_tock (w : World) : advances w (tock w).
Proof. repeat split; simpl; try done; lia. Qed.

Lemma advances_answer {A} (f : Script -> nat -> A) (w : World) :
  advances w (answer f w).2.
Proof. apply advances_tock. Qed.

Lemma advances_page_goto (url : str) (w : World) :
  advances w (page_goto url w).2.
Proof.
  repeat split; simpl; try done; try lia. by apply prefix_app_r.
Qed.

Lemma advances_get_site_name (w : World) : advances w (get_site_name w).2.
Proof.
  unfold get_site_name, page_wait_for_selector, mbind, M_bind, mret, M_ret,
    answer.
  destruct (selector_appears _ _ _); simpl; [|apply advances_tock].
  assert (H2 : advances w (tock (tock w))).
  { eapply advances_trans; apply advances_tock. }
  assert (H3 : advances w (tock (tock (tock w)))).
  { eapply advances_trans; [exact H2 | apply advances_tock]. }
  destruct (title_attr _ _) as [[|c t]|]; simpl; try exact H3.
  destruct (Py.strip (c :: t)); simpl; [exact H3 | exact H2].
Qed.

Lemma tree_grows_write (t t1 : gmap str stat) (path : str) (st : stat) :
  t ⊆ t1 -> file_ok t path = false -> tree_grows t (<[path := st]> t1).
Proof.
  intros Hsub Hno p. split.
  - intros [st' Hst]. apply lookup_insert_is_Some'. right.
    exists st'. by eapply lookup_weaken.
  - intros Hok. rewrite lookup_insert_ne by (intros ->; congruence).
    destruct (file_ok_is_Some _ _ Hok) as [st' Hst]. rewrite Hst.
    by eapply lookup_weaken.
Qed.

Section download.
Variables (out_path : str) (w : World).

(** The three ways [download_csv] can go: nothing arrives, the file is
    saved, or the directory cannot be made. *)
Lemma download_csv_cases :
  let r := download_csv out_path w in
  (r.1 = Returned false /\ fs r.2 = fs w
   /\ (tick w < tick r.2 <= tick w + 2)%nat
   /\ (dl_log r.2 = dl_log w \/ dl_log r.2 = dl_log w ++ [out_path]))
  \/ (exists size t1,
        r.1 = Returned true
        /\ selector_appears (script w) (tick w) (py "#dload-data") = true
        /\ download_arrives (script w) (S (tick w)) = Some size
        /\ fs w ⊆ t1
        /\ os_path_isdir t1 (OsPath.chomp (OsPath.dirname out_path)) = true
        /\ fs r.2 = <[out_path := {| st_kind := RegularFile; st_size := size |}]> t1
        /\ tick r.2 = (tick w + 2)%nat
        /\ dl_log r.2 = dl_log w ++ [out_path])
  \/ (r.1 = Raised
      /\ fs w ⊆ fs r.2
      /\ tick r.2 = (tick w + 2)%nat
      /\ dl_log r.2 = dl_log w ++ [out_path]).
Proof.
  unfold download_csv, page_wait_for_selector, log_download, answer, mbind,
    M_bind, mret, M_ret.
  cbn [fst snd tock script tick].
  destruct (selector_appears _ _ _); cbn [negb].
  2:{ left. simpl. repeat split; auto; lia. }
  destruct (download_arrives _ _) as [size|] eqn:Hdl.
  2:{ left. simpl. repeat split; auto; lia. }
  right.
  match goal with |- context [os_makedirs ?d ?w2] =>
    destruct (os_makedirs_effect d w2)
      as [(Hs & Ht & Hn & Hd & Hp & Hm & Hsub) Hdir];
    destruct (os_makedirs d w2) as [[[]|] w3] end;
    cbn [fst snd tock script tick nav_log dl_log fs progress_json
         name_map_json] in *.
  - left. exists size, (fs w3). unfold write_fs.
    cbn [fst snd fs tick dl_log]. rewrite Ht, Hd.
    repeat split; auto; lia.
  - right. rewrite Ht, Hd. repeat split; auto; lia.
Qed.

Lemma download_csv_frame :
  let r := download_csv out_path w in
  script r.2 = script w /\ nav_log r.2 = nav_log w
  /\ progress_json r.2 = progress_json w
  /\ name_map_json r.2 = name_map_json w.
Proof.
  unfold download_csv, page_wait_for_selector, log_download, answer, mbind,
    M_bind, mret, M_ret, write_fs.
  cbn [fst snd tock script tick].
  destruct (selector_appears _ _ _); cbn [negb]; [|done].
  destruct (download_arrives _ _); [|done].
  match goal with |- context [os_makedirs ?d ?w2] =>
    destruct (os_makedirs_effect d w2)
      as [(Hs & Ht & Hn & Hd & Hp & Hm & Hsub) _];
    destruct (os_makedirs d w2) as [[[]|] w3] end;
    cbn [fst snd tock script tick nav_log dl_log fs progress_json
         name_map_json] in *; done.
Qed.

End download.

Lemma download_csv_advances (out_path : str) (w : World) :
  file_ok (fs w) out_path = false -> advances w (download_csv out_path w).2.
Proof.
  intros Hno.
  destruct (download_csv_frame out_path w) as (Hs & Hn & Hp & Hm).
  destruct (download_csv_cases out_path w)
    as [(_ & Hfs & Ht & Hdl)
       | [(size & t1 & _ & _ & _ & Hsub & _ & Hfs & Ht & Hdl)
         | (_ & Hsub & Ht & Hdl)]].
  - split; [done|]. split; [lia|]. split; [by rewrite Hn|].
    split; [destruct Hdl as [-> | ->]; [done | by apply prefix_app_r]|].
    split; [done|]. split; [done|]. rewrite Hfs. apply tree_grows_refl.
  - split; [done|]. split; [lia|]. split; [by rewrite Hn|].
    split; [rewrite Hdl; by apply prefix_app_r|].
    split; [done|]. split; [done|]. rewrite Hfs. by apply tree_grows_write.
  - split; [done|]. split; [lia|]. split; [by rewrite Hn|].
    split; [rewrite Hdl; by apply prefix_app_r|].
    split; [done|]. split; [done|]. by apply subseteq_tree_grows.
Qed.

(** What the loop over the manifest does, for any tail of the manifest. *)
Lemma pull_specs_effect (site_id : Z) (out_dir slug : str)
    (specs : list PullSpec) :
  forall (ok_any : bool) (w : World),
    let r := pull_specs specs site_id out_dir slug ok_any w in
    advances w r.2
    /\ (r.1 = Returned true ->
        ok_any = true
        \/ exists spec, spec ∈ specs
             /\ is_Some (fs r.2 !! artifact_path out_dir spec slug))
    /\ (r.1 = Returned false -> ok_any = false /\ fs r.2 = fs w)
    /\ (exists urls, nav_log r.2 = nav_log w ++ urls
          /\ urls `sublist_of`
               ((fun spec => format_SITE_ID (url_template spec) site_id) <$> specs))
    /\ (exists paths, dl_log r.2 = dl_log w ++ paths
          /\ paths `sublist_of`
               ((fun spec => artifact_path out_dir spec slug) <$> specs)).
Proof.
  induction specs as [|spec rest IH]; intros ok_any w.
  { cbv zeta. cbn [pull_specs]. unfold mret, M_ret. cbn [fst snd].
    split; [apply advances_refl|].
    split; [intros [= ->]; by left|]. split; [by intros [= ->]|].
    split; exists []; by rewrite app_nil_r. }
  cbv zeta. cbn [pull_specs]. unfold mbind, M_bind, read_fs.
  destruct (file_ok (fs w) (artifact_path out_dir spec slug)) eqn:Hok.
  - destruct (IH true w) as (Hadv & Htrue & Hfalse & (urls & Hnav & Hsub)
                             & (paths & Hdl & Hsubd)).
    split; [exact Hadv|]. split; [|split; [|split]].
    + intros _. right. exists spec. split; [apply list_elem_of_here|].
      destruct Hadv as (_ & _ & _ & _ & _ & _ & Hg).
      apply (Hg _). by apply file_ok_is_Some.
    + intros Hr. by destruct (Hfalse Hr).
    + exists urls. split; [exact Hnav|]. rewrite fmap_cons. by apply sublist_cons.
    + exists paths. split; [exact Hdl|]. rewrite fmap_cons. by apply sublist_cons.
  - pose proof (advances_page_goto
                  (format_SITE_ID (url_template spec) site_id) w) as Hgo.
    assert (Hgofs : fs (page_goto (format_SITE_ID (url_template spec) site_id) w).2
                    = fs w) by done.
    assert (Hgonav : nav_log (page_goto (format_SITE_ID (url_template spec) site_id) w).2
                     = nav_log w ++ [format_SITE_ID (url_template spec) site_id])
      by done.
    assert (Hgodl : dl_log (page_goto (format_SITE_ID (url_template spec) site_id) w).2
                     = dl_log w) by done.
    destruct (page_goto (format_SITE_ID (url_template spec) site_id) w)
      as [loaded w1].
    cbn [fst snd] in *. destruct loaded; cbn [negb].
    + assert (Hno : file_ok (fs w1) (artifact_path out_dir spec slug) = false)
        by (by rewrite Hgofs).
      pose proof (download_csv_advances _ w1 Hno) as Hdl1.
      pose proof (download_csv_cases (artifact_path out_dir spec slug) w1) as Hcase.
      pose proof (download_csv_frame (artifact_path out_dir spec slug) w1)
        as (_ & Hnav1 & _ & _).
      destruct (download_csv (artifact_path out_dir spec slug) w1) as [[ok|] w2].
      * cbn [fst snd] in *.
        destruct (IH (ok_any || ok) w2)
          as (Hadv & Htrue & Hfalse & (urls & Hnav & Hsub) & (paths & Hdl & Hsubd)).
        assert (Hall : advances w (pull_specs rest site_id out_dir slug
                                     (ok_any || ok) w2).2).
        { eapply advances_trans; [exact Hgo|].
          eapply advances_trans; [exact Hdl1 | exact Hadv]. }
        split; [exact Hall|]. split; [|split; [|split]].
        -- intros Hr. destruct (Htrue Hr) as [Hor | (s & Hin & Hs)].
           ++ apply orb_true_iff in Hor as [-> | ->]; [by left|]. right.
              exists spec. split; [apply list_elem_of_here|].
              destruct Hadv as (_ & _ & _ & _ & _ & _ & Hg). apply (Hg _).
              destruct Hcase as [(Hf & _)
                                | [(size & t1 & _ & _ & _ & _ & _ & Hfs & _)
                                  | (Hf & _)]]; [done| |done].
              rewrite Hfs, lookup_insert_eq. by eexists.
           ++ right. exists s. split; [by apply list_elem_of_further | exact Hs].
        -- intros Hr. destruct (Hfalse Hr) as [Hor Hfs].
           apply orb_false_iff in Hor as [-> ->]. split; [done|].
           destruct Hcase as [(_ & Hf & _)
                             | [(size & t1 & Hf & _) | (Hf & _)]]; [|done|done].
           by rewrite Hfs, Hf, Hgofs.
        -- exists (format_SITE_ID (url_template spec) site_id :: urls).
           split; [by rewrite Hnav, Hnav1, Hgonav, <- app_assoc|].
           rewrite fmap_cons. by apply sublist_skip.
        -- destruct Hcase as [(_ & _ & _ & Hd)
                             | [(size & t1 & _ & _ & _ & _ & _ & _ & _ & Hd)
                               | (Hf & _)]]; [| |done].
           ++ destruct Hd as [Hd | Hd].
              ** exists paths. split; [by rewrite Hdl, Hd, Hgodl|].
                 rewrite fmap_cons. by apply sublist_cons.
              ** exists (artifact_path out_dir spec slug :: paths).
                 split; [by rewrite Hdl, Hd, Hgodl, <- app_assoc|].
                 rewrite fmap_cons. by apply sublist_skip.
           ++ exists (artifact_path out_dir spec slug :: paths).
              split; [by rewrite Hdl, Hd, Hgodl, <- app_assoc|].
              rewrite fmap_cons. by apply sublist_skip.
      * unfold mret, M_ret. cbn [fst snd] in *.
        split; [by eapply advances_trans|]. split; [done|]. split; [done|].
        split.
        -- exists [format_SITE_ID (url_template spec) site_id].
           split; [by rewrite Hnav1, Hgonav|].
           rewrite fmap_cons. apply sublist_skip, sublist_nil_l.
        -- destruct Hcase as [(Hf & _) | [(size & t1 & Hf & _)
                                         | (_ & _ & _ & Hd)]]; [done|done|].
           exists [artifact_path out_dir spec slug].
           split; [by rewrite Hd, Hgodl|].
           rewrite fmap_cons. apply sublist_skip, sublist_nil_l.
    + destruct (IH ok_any w1)
        as (Hadv & Htrue & Hfalse & (urls & Hnav & Hsub) & (paths & Hdl & Hsubd)).
      split; [by eapply advances_trans|]. split; [|split; [|split]].
      * intros Hr. destruct (Htrue Hr) as [-> | (s & Hin & Hs)]; [by left|].
        right. exists s. split; [by apply list_elem_of_further | exact Hs].
      * intros Hr. destruct (Hfalse Hr) as [-> Hfs]. by rewrite Hfs, Hgofs.
      * exists (format_SITE_ID (url_template spec) site_id :: urls).
        split; [by rewrite Hnav, Hgonav, <- app_assoc|].
        rewrite fmap_cons. by apply sublist_skip.
      * exists paths. split; [by rewrite Hdl, Hgodl|].
        rewrite fmap_cons. by apply sublist_cons.
Qed.

Lemma setdefault_subseteq (nm : gmap str str) (slug site_name : str) :
  nm ⊆ setdefault nm slug site_name
  /\ is_Some (setdefault nm slug site_name !! slug)
  /\ (setdefault nm slug site_name = nm
      \/ nm !! slug = None
         /\ setdefault nm slug site_name = <[slug := site_name]> nm).
Proof.
  unfold setdefault. destruct (nm !! slug) as [old|] eqn:E.
  - split; [done|]. split; [by rewrite E | by left].
  - split; [by apply insert_subseteq|].
    split; [rewrite lookup_insert_eq; by eexists | by right].
Qed.

Section pull.
Context `{Py.CaseTables}.
Variables (site_id : Z) (out_dir : str) (nm : gmap str str) (w : World).

(** The four ways [pull_one_site] can go. *)
Lemma pull_one_site_cases :
  let r := pull_one_site site_id out_dir nm w in
  let w1 := (page_goto (first_url site_id) w).2 in
  (* the page does not load *)
  (goto_loads (script w) (tick w) (first_url site_id) = false
   /\ r = ((Returned false, nm), w1))
  (* no display name *)
  \/ (goto_loads (script w) (tick w) (first_url site_id) = true
      /\ (get_site_name w1).1 = None
      /\ r = ((Returned false, nm), (get_site_name w1).2))
  (* already complete *)
  \/ (exists site_name,
        goto_loads (script w) (tick w) (first_url site_id) = true
        /\ (get_site_name w1).1 = Some site_name
        /\ is_site_complete (fs w) out_dir (slugify_site_name site_name) = true
        /\ r = ((Returned true,
                 setdefault nm (slugify_site_name site_name) site_name),
                (get_site_name w1).2))
  (* the kinds are pulled one by one *)
  \/ (exists site_name,
        goto_loads (script w) (tick w) (first_url site_id) = true
        /\ (get_site_name w1).1 = Some site_name
        /\ is_site_complete (fs w) out_dir (slugify_site_name site_name) = false
        /\ r.1.2 = setdefault nm (slugify_site_name site_name) site_name
        /\ (r.1.1, r.2)
           = pull_specs SPECS site_id out_dir (slugify_site_name site_name)
               false (get_site_name w1).2).
Proof.
  cbv zeta. set (w1 := (page_goto (first_url site_id) w).2).
  assert (Hgo : page_goto (first_url site_id) w
                = (goto_loads (script w) (tick w) (first_url site_id), w1))
    by reflexivity.
  assert (Hfs1 : fs w1 = fs w) by reflexivity.
  clearbody w1.
  unfold pull_one_site, mbind, M_bind, mret, M_ret. rewrite Hgo.
  destruct (goto_loads _ _ _); cbn [negb]; [|by left].
  right.
  destruct (get_site_name w1) as [name w2] eqn:Hname.
  destruct (get_site_name_frame _ _ _ Hname) as (_ & _ & Hfs2 & Hne).
  cbn [fst snd].
  destruct name as [[|c s]|]; [done | | by left].
  right. unfold read_fs. rewrite Hfs2, Hfs1.
  destruct (is_site_complete (fs w) out_dir _) eqn:Hdone.
  - left. by exists (c :: s).
  - right. exists (c :: s). split; [done|]. split; [done|]. split; [done|].
    by destruct (pull_specs _ _ _ _ _ w2) as [ok w3].
Qed.

End pull.

(** * Further properties of the item pull engine *)

Lemma is_site_complete_grows (t t' : gmap str stat) (out_dir slug : str) :
  tree_grows t t' ->
  is_site_complete t out_dir slug = true ->
  is_site_complete t' out_dir slug = true.
Proof.
  intros Hg Hdone. unfold is_site_complete in *.
  apply is_site_complete_from_forall. intros spec Hin.
  eapply tree_grows_file_ok; [exact Hg|].
  by apply (is_site_complete_from_forall SPECS t out_dir slug).
Qed.

Lemma get_site_name_after_goto (url : str) (w : World) :
  let w2 := (get_site_name (page_goto url w).2).2 in
  nav_log w2 = nav_log w ++ [url] /\ dl_log w2 = dl_log w /\ fs w2 = fs w.
Proof.
  cbv zeta. destruct (get_site_name (page_goto url w).2) as [n w2] eqn:E.
  destruct (get_site_name_frame _ _ _ E) as (Hn & Hd & Hf & _).
  split; [exact Hn|]. split; [exact Hd | exact Hf].
Qed.

Section pull_properties.
Context `{Py.CaseTables}.
Variables (site_id : Z) (out_dir : str) (nm : gmap str str) (w : World).

Lemma pull_one_site_advances :
  advances w (pull_one_site site_id out_dir nm w).2.
Proof.
  pose proof (advances_page_goto (first_url site_id) w) as Hgo.
  pose proof (advances_get_site_name (page_goto (first_url site_id) w).2) as Hnm.
  pose proof (advances_trans _ _ _ Hgo Hnm) as H2.
  destruct (pull_one_site_cases site_id out_dir nm w)
    as [(_ & ->) | [(_ & _ & ->) | [(n & _ & _ & _ & ->)
        | (n & _ & _ & _ & _ & Hr)]]]; try done.
  pose proof (pull_specs_effect site_id out_dir (slugify_site_name n) SPECS
                false (get_site_name (page_goto (first_url site_id) w).2).2)
    as (Hadv & _).
  cbv zeta in Hadv. rewrite <- Hr in Hadv. by eapply advances_trans.
Qed.

(** X1: pulling an item never damages what is on disk: every path that
    file_ok accepted is still accepted, every item that was complete is
    still complete, and neither progress.json nor site_name_map.json is
    written. *)
Theorem pull_one_site_keeps_artifacts :
  let w' := (pull_one_site site_id out_dir nm w).2 in
  (forall p, file_ok (fs w) p = true -> file_ok (fs w') p = true)
  /\ (forall d slug, is_site_complete (fs w) d slug = true ->
                     is_site_complete (fs w') d slug = true)
  /\ progress_json w' = progress_json w
  /\ name_map_json w' = name_map_json w.
Proof.
  destruct pull_one_site_advances as (_ & _ & _ & _ & Hp & Hm & Hg).
  cbv zeta. split; [|split; [|done]].
  - intros p. by apply tree_grows_file_ok.
  - intros d slug. by apply is_site_complete_grows.
Qed.


(** X3: one pull visits the item's first page and then at most the three
    pages of the manifest for that item, in manifest order, and clicks the
    export control at most three times. *)
Theorem pull_one_site_visits :
  let r := pull_one_site site_id out_dir nm w in
  exists urls paths,
    nav_log r.2 = nav_log w ++ first_url site_id :: urls
    /\ urls `sublist_of` kind_urls site_id
    /\ (length urls <= 3)%nat
    /\ dl_log r.2 = dl_log w ++ paths
    /\ (length paths <= 3)%nat.
Proof.
  cbv zeta.
  destruct (get_site_name_after_goto (first_url site_id) w) as (Hnav2 & Hdl2 & _).
  destruct (pull_one_site_cases site_id out_dir nm w)
    as [(_ & ->) | [(_ & _ & ->) | [(n & _ & _ & _ & ->)
        | (n & _ & _ & _ & _ & Hr)]]]; cbn [fst snd].
  - exists [], []. repeat split; try done.
    + apply sublist_nil_l.
    + simpl; lia.
    + by rewrite app_nil_r.
    + simpl; lia.
  - exists [], []. rewrite Hnav2, Hdl2, app_nil_r.
    repeat split; try done; [apply sublist_nil_l | simpl; lia | simpl; lia].
  - exists [], []. rewrite Hnav2, Hdl2, app_nil_r.
    repeat split; try done; [apply sublist_nil_l | simpl; lia | simpl; lia].
  - pose proof (pull_specs_effect site_id out_dir (slugify_site_name n) SPECS
                  false (get_site_name (page_goto (first_url site_id) w).2).2)
      as (_ & _ & _ & (urls & Hnav & Hsub) & (paths & Hdl & Hsubd)).
    cbv zeta in Hnav, Hdl. rewrite <- Hr in Hnav, Hdl. cbn [snd] in Hnav, Hdl.
    exists urls, paths. rewrite Hnav, Hdl, Hnav2, Hdl2, <- app_assoc.
    split; [done|]. split; [exact Hsub|].
    apply sublist_length in Hsub, Hsubd. rewrite length_fmap in Hsub, Hsubd.
    repeat split; try done; exact Hsub || exact Hsubd.
Qed.

(** What one pull does to the name map: nothing, or one [setdefault]. *)
Lemma pull_one_site_name_map_cases :
  (pull_one_site site_id out_dir nm w).1.2 = nm
  \/ exists n, (pull_one_site site_id out_dir nm w).1.2
               = setdefault nm (slugify_site_name n) n.
Proof.
  destruct (pull_one_site_cases site_id out_dir nm w)
    as [(_ & ->) | [(_ & _ & ->) | [(n & _ & _ & _ & ->)
        | (n & _ & _ & _ & Hmap & _)]]]; cbn [fst snd]; eauto.
Qed.

Lemma pull_one_site_name_map_grows :
  nm ⊆ (pull_one_site site_id out_dir nm w).1.2.
Proof.
  destruct pull_one_site_name_map_cases as [-> | (n & ->)];
    [done | apply setdefault_subseteq].
Qed.

(** X4: the name map only grows, by at most one entry: an entry already
    there keeps its display name (first name wins). *)
Theorem pull_one_site_first_name_wins :
  let nm' := (pull_one_site site_id out_dir nm w).1.2 in
  nm ⊆ nm'
  /\ (forall slug name, nm !! slug = Some name -> nm' !! slug = Some name)
  /\ (nm' = nm
      \/ exists slug name, nm !! slug = None /\ nm' = <[slug := name]> nm).
Proof.
  cbv zeta. pose proof pull_one_site_name_map_grows as Hsub.
  split; [exact Hsub|]. split.
  - intros slug name Hl. by eapply lookup_weaken.
  - destruct pull_one_site_name_map_cases as [-> | (n & ->)]; [by left|].
    destruct (setdefault_subseteq nm (slugify_site_name n) n)
      as (_ & _ & [-> | [Hnone ->]]); [by left | right; eauto].
Qed.

(** X5: if the item's page times out, or no display name can be read, the
    pull gives up at once: it reports failure, leaves the name map, the
    tree and the export log as they were, and has made the one navigation
    to the item's page. *)
Theorem pull_one_site_gives_up :
  goto_loads (script w) (tick w) (first_url site_id) = false
  \/ (get_site_name (page_goto (first_url site_id) w).2).1 = None ->
  let r := pull_one_site site_id out_dir nm w in
  r.1 = (Returned false, nm)
  /\ nav_log r.2 = nav_log w ++ [first_url site_id]
  /\ dl_log r.2 = dl_log w
  /\ fs r.2 = fs w.
Proof.
  intros Hfail. cbv zeta.
  pose proof (get_site_name_after_goto (first_url site_id) w) as Hfr.
  destruct (pull_one_site_cases site_id out_dir nm w)
    as [(_ & ->) | [(_ & _ & ->) | [(n & Hl & Hn & _) | (n & Hl & Hn & _)]]];
    cbn [fst snd]; try done.
  - destruct Hfail; congruence.
  - destruct Hfail; congruence.
Qed.

End pull_properties.

Lemma pull_one_site_gives_up_witness :
  (goto_loads (script offline_world) (tick offline_world) (first_url 9) = false
   \/ (get_site_name (page_goto (first_url 9) offline_world).2).1 = None)
  /\ let r := @pull_one_site ascii_only_tables 9 (py "out") ∅ offline_world in
     r.1 = (Returned false, ∅)
     /\ nav_log r.2 = nav_log offline_world ++ [first_url 9]
     /\ dl_log r.2 = dl_log offline_world
     /\ fs r.2 = fs offline_world.
Proof.
  assert (Hfail :
    goto_loads (script offline_world) (tick offline_world) (first_url 9) = false
    \/ (get_site_name (page_goto (first_url 9) offline_world).2).1 = None)
    by (left; reflexivity).
  split; [exact Hfail|].
  exact (@pull_one_site_gives_up ascii_only_tables 9 (py "out") ∅
           offline_world Hfail).
Defined.

(** * Further properties of the page helpers *)

Lemma strip_by_idem (p : N -> bool) (s : str) :
  Py.strip_by p (Py.strip_by p s) = Py.strip_by p s.
Proof. apply strip_by_id; [apply strip_by_head | apply strip_by_last]. Qed.

(** The branch of [get_site_name] that falls back on the text of the
    control; [blank] proves that the title is missing or blank. *)
Ltac read_text Hshape blank :=
  match goal with
  | |- context [Py.strip (inner_text ?s ?n)] =>
    let Hx := fresh "Hx" in
    destruct (Py.strip (inner_text s n)) as [|? ?] eqn:Hx; cbn [fst snd];
    [ split; [done|]; intros _; right; split; [blank | done]
    | split; [|done]; intros ? [= <-]; split; [done|]; rewrite <- Hx;
      let H1 := fresh in let H2 := fresh in let H3 := fresh in
      destruct (Hshape (inner_text s n)) as (H1 & H2 & H3); [by rewrite Hx|];
      split; [exact H1|]; split; [exact H2|]; split; [exact H3|];
      right; split; [blank | done] ]
  end.

(** X6: a display name that get_site_name returns is never empty and has
    no whitespace at either end; it is the stripped title of the selection
    control when that is not blank, and the stripped text of the control
    otherwise.  When the control never appears the result is None and
    nothing else is read from the page. *)
Theorem get_site_name_result (w : World) :
  let r := get_site_name w in
  let title := title_attr (script w) (S (tick w)) in
  let text := inner_text (script w) (S (S (tick w))) in
  (selector_appears (script w) (tick w) (py "#select2-Select_site-container")
   = false -> r = (None, tock w))
  /\ (forall name, r.1 = Some name ->
        name <> [] /\ Py.strip name = name
        /\ (forall c, head name = Some c -> Py.isspace c = false)
        /\ (forall c, last name = Some c -> Py.isspace c = false)
        /\ ((exists t, title = Some t /\ Py.strip t <> [] /\ name = Py.strip t
                       /\ r.2 = tock (tock w))
            \/ ((title = None \/ exists t, title = Some t /\ Py.strip t = [])
                /\ name = Py.strip text /\ r.2 = tock (tock (tock w)))))
  /\ (r.1 = None ->
      selector_appears (script w) (tick w) (py "#select2-Select_site-container")
      = false
      \/ ((title = None \/ exists t, title = Some t /\ Py.strip t = [])
          /\ Py.strip text = [])).
Proof.
  cbv zeta. unfold get_site_name, page_wait_for_selector, mbind, M_bind, mret,
    M_ret, answer.
  cbn [fst snd tock script tick].
  assert (Hshape : forall s, Py.strip s <> [] ->
            Py.strip (Py.strip s) = Py.strip s
            /\ (forall c, head (Py.strip s) = Some c -> Py.isspace c = false)
            /\ (forall c, last (Py.strip s) = Some c -> Py.isspace c = false)).
  { intros s _. split; [apply strip_by_idem|].
    split; [apply strip_by_head | apply strip_by_last]. }
  destruct (selector_appears _ _ _); cbn [negb].
  2:{ split; [done|]. split; [done | by left]. }
  split; [done|].
  destruct (title_attr _ _) as [[|c t]|] eqn:Ht; cbn [fst snd tock script tick].
  - read_text Hshape ltac:(right; by exists []).
  - destruct (Py.strip (c :: t)) as [|b y] eqn:Hy; cbn [fst snd tock script tick].
    + read_text Hshape ltac:(right; by exists (c :: t)).
    + split; [|done]. intros name [= <-]. split; [done|].
      rewrite <- Hy. destruct (Hshape (c :: t)) as (H1 & H2 & H3);
        [by rewrite Hy|].
      split; [exact H1|]. split; [exact H2|]. split; [exact H3|].
      left. exists (c :: t). rewrite Hy. done.
  - read_text Hshape ltac:(by left).
Qed.

Lemma chomp_dirname (p : str) :
  OsPath.chomp (OsPath.dirname p) = OsPath.dirname p.
Proof.
  unfold OsPath.dirname. cbv zeta.
  set (head := reverse (Py.lstrip_by _ (reverse p))).
  unfold OsPath.chomp.
  destruct (forallb (fun c => (c =? OsPath.sep)%N) head) eqn:Hall.
  - destruct (OsPath.is_root head) eqn:Hroot; [done|].
    destruct head as [|c head']; [done|].
    unfold OsPath.is_root in Hroot. congruence.
  - destruct (OsPath.is_root _); [done|].
    apply rstrip_by_id. intros c Hc.
    exact (rstrip_by_last (fun c => (c =? OsPath.sep)%N) _ _ Hc).
Qed.

(** X7: download_csv never navigates and never writes a state file, and
    it touches no existing entry but its target.  When it returns False
    the artifact tree is unchanged; when it returns True the target holds
    a regular file of the downloaded size (so file_ok accepts it exactly
    when the download was not empty) and its directory exists; when the
    directory cannot be made the error goes up and nothing is saved over
    an existing entry. *)
Theorem download_csv_effect (out_path : str) (w : World) :
  let r := download_csv out_path w in
  nav_log r.2 = nav_log w
  /\ progress_json r.2 = progress_json w
  /\ name_map_json r.2 = name_map_json w
  /\ (forall p, p <> out_path -> is_Some (fs w !! p) -> fs r.2 !! p = fs w !! p)
  /\ (r.1 = Returned false -> fs r.2 = fs w)
  /\ (r.1 = Returned true ->
      exists size,
        download_arrives (script w) (S (tick w)) = Some size
        /\ fs r.2 !! out_path = Some {| st_kind := RegularFile; st_size := size |}
        /\ (file_ok (fs r.2) out_path = true <-> 0 < size)
        /\ (OsPath.dirname out_path <> [] ->
            os_path_exists (fs r.2) (OsPath.dirname out_path) = true))
  /\ (r.1 = Raised -> fs w ⊆ fs r.2).
Proof.
  cbv zeta.
  destruct (download_csv_frame out_path w) as (_ & Hn & Hp & Hm).
  split; [exact Hn|]. split; [exact Hp|]. split; [exact Hm|].
  destruct (download_csv_cases out_path w)
    as [(Hf & Hfs & _)
       | [(size & t1 & Ht & _ & Hdl & Hsub & Hdir & Hfs & _)
         | (Hf & Hsub & _)]].
  - split; [intros p _ _; by rewrite Hfs|]. split; [done|].
    split; congruence.
  - split; [|split; [congruence|split; [|congruence]]].
    + intros p Hne [st Hst]. rewrite Hfs, lookup_insert_ne by done.
      rewrite Hst. by eapply lookup_weaken.
    + intros _. exists size. split; [exact Hdl|].
      assert (Hl : fs (download_csv out_path w).2 !! out_path
                   = Some {| st_kind := RegularFile; st_size := size |})
        by (rewrite Hfs; apply lookup_insert_eq).
      split; [exact Hl|]. split.
      * rewrite file_ok_entry. unfold entry_nonempty. rewrite Hl. split.
        -- by intros (st & [= <-] & Hs).
        -- intros Hs. by eexists.
      * intros _. rewrite chomp_dirname in Hdir.
        unfold os_path_exists. apply bool_decide_eq_true.
        rewrite Hfs. apply lookup_insert_is_Some'. right.
        unfold os_path_isdir in Hdir.
        destruct (t1 !! OsPath.dirname out_path); [by eexists | done].
  - split; [|split; [congruence|split; [congruence|done]]].
    intros p _ [st Hst]. rewrite Hst. by eapply lookup_weaken.
Qed.

(** * Further properties of discovery *)

Lemma discovery_loop_frame (fuel : nat) :
  forall (seen : gset Z) (st : Z) (w : World),
    let w' := (discovery_loop fuel seen st w).2 in
    script w' = script w /\ fs w' = fs w /\ nav_log w' = nav_log w
    /\ dl_log w' = dl_log w /\ progress_json w' = progress_json w
    /\ name_map_json w' = name_map_json w.
Proof.
  induction fuel as [|fuel IH]; intros seen st w;
    destruct (decide (st < 6)) as [Hlt|Hge].
  - by rewrite discovery_loop_starved.
  - by rewrite discovery_loop_stop.
  - rewrite discovery_loop_step by done. cbv zeta.
    match goal with |- context [discovery_loop fuel ?a ?b (tock w)] =>
      destruct (IH a b (tock w)) as (H1 & H2 & H3 & H4 & H5 & H6) end.
    by rewrite H1, H2, H3, H4, H5, H6.
  - by rewrite discovery_loop_stop.
Qed.

(** Once the list is open, discovery is its loop. *)
Lemma get_all_site_ids_opened (fuel : nat) (w : World) :
  ui_opens w ->
  exists w3 : World,
    script w3 = script w /\ tick w3 = (tick w + 3)%nat
    /\ (get_all_site_ids fuel w).1
       = match (discovery_loop fuel ∅ 0 w3).1 with
         | Some seen => Ok (sorted seen)
         | None => OutOfFuel
         end.
Proof.
  intros (Hgo & Hclick & Hsel).
  unfold get_all_site_ids, page_goto, page_click, page_wait_for_selector,
    log_nav, answer, mbind, M_bind, mret, M_ret.
  simpl. rewrite Hgo. simpl. rewrite Hclick. simpl. rewrite Hsel. simpl.
  match goal with |- context [discovery_loop fuel ∅ 0 ?w3] =>
    exists w3; destruct (discovery_loop fuel ∅ 0 w3) as [[seen|] w4] end;
    simpl; (split; [done|]); (split; [lia | done]).
Qed.

(** X8: get_all_site_ids fails with a timeout exactly when the selection
    list does not open (the bootstrap page, the click on the control or the
    list itself times out); once the list is open no timeout can occur. *)
Theorem get_all_site_ids_timeout_iff (fuel : nat) (w : World) :
  (get_all_site_ids fuel w).1 = TimedOut <-> ~ ui_opens w.
Proof.
  split.
  - intros Hto Hopen.
    destruct (get_all_site_ids_opened fuel w Hopen) as (w3 & _ & _ & Hrun).
    rewrite Hrun in Hto. by destruct (discovery_loop fuel ∅ 0 w3).1.
  - intros Hno. unfold ui_opens in Hno.
    unfold get_all_site_ids, page_goto, page_click, page_wait_for_selector,
      log_nav, answer, mbind, M_bind, mret, M_ret.
    simpl.
    destruct (goto_loads _ _ _) eqn:Hgo; [|done]. simpl.
    destruct (click_lands _ _ _) eqn:Hclick; [|done]. simpl.
    destruct (selector_appears _ _ _) eqn:Hsel; [|done].
    destruct Hno. done.
Qed.

(** X9: whatever the order and pacing of the reads, if they are drawn from
    a finite universe the discovery loop ends within 7 * |universe| + 6
    passes, and the result is the strictly ascending list of exactly the
    identifiers rendered by the reads it consumed. *)
Theorem get_all_site_ids_terminates (w : World) (U : gset Z) :
  ui_opens w ->
  drawn_from U (loop_reads w) ->
  exists (n : nat) (ids : list Z),
    (6 <= n <= 7 * size U + 6)%nat
    /\ (forall fuel, (n <= fuel)%nat -> (get_all_site_ids fuel w).1 = Ok ids)
    /\ (forall fuel, (fuel < n)%nat -> (get_all_site_ids fuel w).1 = OutOfFuel)
    /\ StronglySorted Z.lt ids
    /\ (forall x, x ∈ ids <-> exists k, (k < n)%nat /\ x ∈ loop_reads w k)
    /\ (forall x, x ∈ ids -> x ∈ U).
Proof.
  intros Hopen Hdrawn.
  destruct (stops_within_bound (loop_reads w) U Hdrawn) as (n & Hn & Hst & Hlt).
  destruct (stable_after_window (loop_reads w) n) as [Hrange _].
  exists n, (sorted (seen_after (loop_reads w) n)).
  split; [lia|]. split; [|split; [|split; [|split]]].
  - intros fuel Hfuel. rewrite (get_all_site_ids_run w n fuel Hopen Hst Hlt).
    by rewrite decide_True.
  - intros fuel Hfuel. rewrite (get_all_site_ids_run w n fuel Hopen Hst Hlt).
    rewrite decide_False; [done | lia].
  - apply sorted_ascending.
  - intros x. rewrite sorted_elem, seen_after_rendered.
    apply rendered_before_elem.
  - intros x Hx%sorted_elem. by eapply seen_after_drawn.
Qed.

Lemma get_all_site_ids_terminates_witness :
  ui_opens stalling_world
  /\ drawn_from ids_1_2 (loop_reads stalling_world)
  /\ exists (n : nat) (ids : list Z),
       (6 <= n <= 7 * size ids_1_2 + 6)%nat
       /\ (forall fuel, (n <= fuel)%nat ->
             (get_all_site_ids fuel stalling_world).1 = Ok ids)
       /\ (forall fuel, (fuel < n)%nat ->
             (get_all_site_ids fuel stalling_world).1 = OutOfFuel)
       /\ StronglySorted Z.lt ids
       /\ (forall x, x ∈ ids <->
             exists k, (k < n)%nat /\ x ∈ loop_reads stalling_world k)
       /\ (forall x, x ∈ ids -> x ∈ ids_1_2).
Proof.
  assert (Hopen : ui_opens stalling_world) by (repeat split).
  assert (Hdrawn : drawn_from ids_1_2 (loop_reads stalling_world)).
  { intros k x. unfold loop_reads. simpl.
    destruct (_ <? 10)%nat; unfold ids_1_2; set_solver. }
  split; [exact Hopen|]. split; [exact Hdrawn|].
  exact (get_all_site_ids_terminates stalling_world ids_1_2 Hopen Hdrawn).
Defined.

(** X10: discovery never ends before six reads, and on a list that shows
    no entry in its first six reads it ends after exactly six with the
    empty sequence. *)
Theorem get_all_site_ids_six_reads (w : World) :
  ui_opens w ->
  (forall fuel, (fuel < 6)%nat -> (get_all_site_ids fuel w).1 = OutOfFuel)
  /\ ((forall k, (k < 6)%nat -> loop_reads w k = []) ->
      forall fuel, (6 <= fuel)%nat -> (get_all_site_ids fuel w).1 = Ok []).
Proof.
  intros Hopen. split.
  - intros fuel Hfuel.
    destruct (get_all_site_ids_opened fuel w Hopen) as (w3 & Hs & Ht & ->).
    pose proof (discovery_loop_unroll w fuel 0 0 w3 Hs ltac:(lia)) as Hu.
    change (seen_after (loop_reads w) 0) with (∅ : gset Z) in Hu.
    change (stable_after (loop_reads w) 0) with 0 in Hu.
    replace (fuel + 0)%nat with fuel in Hu by lia.
    rewrite Hu, discovery_loop_starved; [done | |].
    + destruct (stable_after_window (loop_reads w) (0 + fuel)); lia.
    + intros j Hj. destruct (stable_after_window (loop_reads w) j); lia.
  - intros Hempty fuel Hfuel.
    assert (Hst : forall k, (k <= 6)%nat ->
              stable_after (loop_reads w) k = Z.of_nat k
              /\ seen_after (loop_reads w) k = ∅).
    { induction k as [|k IH]; intros Hk; [done|].
      destruct IH as [IHs IHe]; [lia|].
      unfold stable_after, seen_after in *. simpl.
      rewrite Hempty by lia. unfold add_all. simpl.
      rewrite IHe. unfold next_stable. rewrite decide_True by done.
      split; [lia | done]. }
    rewrite (get_all_site_ids_run w 6 fuel Hopen).
    + rewrite decide_True by done.
      destruct (Hst 6%nat) as [_ ->]; [lia|]. reflexivity.
    + by destruct (Hst 6%nat) as [-> _]; [lia|].
    + intros k Hk. destruct (Hst k) as [-> _]; lia.
Qed.

Lemma get_all_site_ids_six_reads_witness :
  ui_opens empty_list_world
  /\ (forall fuel, (fuel < 6)%nat ->
        (get_all_site_ids fuel empty_list_world).1 = OutOfFuel)
  /\ ((forall k, (k < 6)%nat -> loop_reads empty_list_world k = []) ->
      forall fuel, (6 <= fuel)%nat ->
        (get_all_site_ids fuel empty_list_world).1 = Ok []).
Proof.
  assert (Hopen : ui_opens empty_list_world) by (repeat split).
  split; [exact Hopen|].
  exact (get_all_site_ids_six_reads empty_list_world Hopen).
Defined.

(** What discovery leaves behind, whatever its outcome. *)
Lemma get_all_site_ids_effect (fuel : nat) (w : World) :
  let w' := (get_all_site_ids fuel w).2 in
  nav_log w' = nav_log w ++ [first_url 0]
  /\ dl_log w' = dl_log w
  /\ fs w' = fs w
  /\ progress_json w' = progress_json w
  /\ name_map_json w' = name_map_json w
  /\ script w' = script w.
Proof.
  cbv zeta.
  unfold get_all_site_ids, page_goto, page_click, page_wait_for_selector,
    log_nav, answer, mbind, M_bind, mret, M_ret.
  simpl.
  destruct (goto_loads _ _ _); [|done]. simpl.
  destruct (click_lands _ _ _); [|done]. simpl.
  destruct (selector_appears _ _ _); [|done]. simpl.
  match goal with |- context [discovery_loop fuel ∅ 0 ?w3] =>
    destruct (discovery_loop_frame fuel ∅ 0 w3) as (H1 & H2 & H3 & H4 & H5 & H6);
    destruct (discovery_loop fuel ∅ 0 w3) as [[seen|] w4] end;
    simpl in *; by rewrite H1, H2, H3, H4, H5, H6.
Qed.

(** X11: whatever its outcome, get_all_site_ids navigates exactly once, to
    the bootstrap page built from the first template with identifier 0; it
    triggers no export and leaves the artifact tree and both state files
    as they were. *)
Theorem get_all_site_ids_frame (fuel : nat) (w : World) :
  let w' := (get_all_site_ids fuel w).2 in
  nav_log w' = nav_log w ++ [first_url 0]
  /\ dl_log w' = dl_log w
  /\ fs w' = fs w
  /\ progress_json w' = progress_json w
  /\ name_map_json w' = name_map_json w
  /\ script w' = script w.
Proof. exact (get_all_site_ids_effect fuel w). Qed.

(** * Further properties of the run orchestrator *)

Lemma get_all_site_ids_no_os_error (fuel : nat) (w : World) :
  (get_all_site_ids fuel w).1 <> OsError.
Proof.
  unfold get_all_site_ids, page_goto, page_click, page_wait_for_selector,
    log_nav, answer, mbind, M_bind, mret, M_ret.
  cbn [fst snd].
  destruct (goto_loads _ _ _); [|done]. cbn [negb fst snd].
  destruct (click_lands _ _ _); [|done]. cbn [negb fst snd].
  destruct (selector_appears _ _ _); [|done]. cbn [negb fst snd].
  by destruct (discovery_loop fuel ∅ 0 _) as [[seen|] w1].
Qed.

(** The world discovery leaves when [main] has made its directories. *)
Lemma discovery_frame (fuel : nat) (out_dir : str) (w : World) :
  let w3 := (get_all_site_ids fuel (make_dirs out_dir w).2).2 in
  script w3 = script w
  /\ progress_json w3 = progress_json w
  /\ name_map_json w3 = name_map_json w
  /\ nav_log w3 = nav_log w ++ [first_url 0]
  /\ dl_log w3 = dl_log w
  /\ fs w ⊆ fs w3.
Proof.
  cbv zeta.
  destruct (make_dirs_grows out_dir w) as (Hs & Ht & Hn & Hd & Hp & Hm & Hg).
  destruct (get_all_site_ids_effect fuel (make_dirs out_dir w).2)
    as (F1 & F2 & F3 & F4 & F5 & F6).
  cbv zeta in *. rewrite F1, F2, F3, F4, F5, F6. by rewrite Hs, Hn, Hd, Hp, Hm.
Qed.

Section run_properties.
Context `{Py.CaseTables}.
Variables (stop : Z) (out_dir : str).

(** What the loop leaves alone: the name map file, every acceptable
    artifact, every entry of the name map. *)
Lemma iterate_keeps (ids : list Z) :
  forall (st : LoopState) (w : World),
    let r := iterate stop out_dir ids st w in
    script r.2 = script w
    /\ name_map_json r.2 = name_map_json w
    /\ tree_grows (fs w) (fs r.2)
    /\ nav_log w `prefix_of` nav_log r.2
    /\ dl_log w `prefix_of` dl_log r.2
    /\ name_map st ⊆ name_map r.1.
Proof.
  induction ids as [|site_id rest IH]; intros st w.
  { cbv zeta. cbn [iterate]. unfold mret, M_ret. cbn [fst snd].
    split; [done|]. split; [done|]. split; [apply tree_grows_refl|]. done. }
  cbv zeta. cbn [iterate]. unfold mbind, M_bind, time_time, answer.
  cbn [fst snd].
  pose proof (pull_one_site_advances site_id out_dir (name_map st) (tock (tock w)))
    as (Hs & _ & Hn & Hd & _ & Hm & Hg).
  pose proof (pull_one_site_name_map_grows site_id out_dir (name_map st)
                (tock (tock w))) as Hsub.
  destruct (pull_one_site site_id out_dir (name_map st) (tock (tock w)))
    as [[ok nm] w3].
  cbn [fst snd tock script fs nav_log dl_log name_map_json] in *.
  assert (Hnext : forall (s1 : LoopState) (w5 : World),
    name_map s1 = nm ->
    script w5 = script w3 -> name_map_json w5 = name_map_json w3 ->
    fs w5 = fs w3 -> nav_log w5 = nav_log w3 -> dl_log w5 = dl_log w3 ->
    let r := iterate stop out_dir rest s1 w5 in
    script r.2 = script w
    /\ name_map_json r.2 = name_map_json w
    /\ tree_grows (fs w) (fs r.2)
    /\ nav_log w `prefix_of` nav_log r.2
    /\ dl_log w `prefix_of` dl_log r.2
    /\ name_map st ⊆ name_map r.1).
  { intros s1 w5 Hs1 E1 E2 E3 E4 E5. cbv zeta.
    destruct (IH s1 w5) as (Hs' & Hm' & Hg' & Hn' & Hd' & Hsub').
    rewrite E3 in Hg'. rewrite E4 in Hn'. rewrite E5 in Hd'.
    split; [congruence|]. split; [congruence|].
    split; [by eapply tree_grows_trans|].
    split; [by etrans|]. split; [by etrans|].
    etrans; [exact Hsub|]. by rewrite <- Hs1. }
  destruct ok as [ok|].
  2:{ unfold mret, M_ret. cbn [fst snd name_map]. done. }
  destruct ok.
  - by apply Hnext.
  - destruct (stop <=? misses st + 1).
    + unfold mret, M_ret. cbn [fst snd name_map tock script name_map_json fs
                                nav_log dl_log]. done.
    + by apply Hnext.
Qed.

End run_properties.

Section run_extras.
Context `{Py.CaseTables}.
Variables (stop : Z) (out_dir : str).

Lemma finish_tree (r : LoopState * World) : fs (finish r).2 = fs r.2.
Proof. unfold finish. by destruct (raised r.1). Qed.

(** Whatever way the run ends, the tree has only grown. *)
Lemma main_tree_grows (fuel : nat) (w : World) :
  tree_grows (fs w) (fs (main fuel out_dir stop w).2).
Proof.
  destruct (make_dirs out_dir w).1 as [[]|] eqn:Hmk.
  - rewrite (main_returned fuel out_dir stop w Hmk).
    destruct (discovery_frame fuel out_dir w) as (_ & _ & _ & _ & _ & Hsub).
    cbv zeta in Hsub. apply subseteq_tree_grows in Hsub.
    destruct (get_all_site_ids fuel w).1 as [site_ids| | |]; try exact Hsub.
    rewrite finish_tree.
    match goal with |- context [iterate stop out_dir ?ids ?s0 ?w0] =>
      destruct (iterate_keeps stop out_dir ids s0 w0) as (_ & _ & Hg & _) end.
    eapply tree_grows_trans; [exact Hsub | exact Hg].
  - rewrite (main_raised fuel out_dir stop w Hmk). cbn [snd].
    apply subseteq_tree_grows.
    by destruct (make_dirs_grows out_dir w) as (_ & _ & _ & _ & _ & _ & Hsub).
Qed.

(** X12: a run never loses an artifact or a name.  Whatever happens, every
    path that file_ok accepted before the run is still accepted after it
    and every complete item is still complete; when main returns, the
    name map has been written at the end, broken loop or not, and it holds
    every entry of the name map found at the start, unchanged. *)
Theorem main_never_loses (fuel : nat) (w : World) :
  let r := main fuel out_dir stop w in
  (forall p, file_ok (fs w) p = true -> file_ok (fs r.2) p = true)
  /\ (forall d slug, is_site_complete (fs w) d slug = true ->
                     is_site_complete (fs r.2) d slug = true)
  /\ (forall st, r.1 = Ok st ->
        name_map_json r.2 = Some (name_map st)
        /\ forall slug name,
             default ∅ (name_map_json w) !! slug = Some name ->
             name_map st !! slug = Some name).
Proof.
  cbv zeta. pose proof (main_tree_grows fuel w) as Hgrow.
  split; [intros p; by apply tree_grows_file_ok|].
  split; [intros d slug; by apply is_site_complete_grows|].
  intros st. destruct (make_dirs out_dir w).1 as [[]|] eqn:Hmk.
  2:{ by rewrite (main_raised fuel out_dir stop w Hmk). }
  rewrite (main_returned fuel out_dir stop w Hmk).
  destruct (get_all_site_ids fuel w).1 as [site_ids| | |]; try done.
  match goal with |- context [iterate stop out_dir ?ids ?s0 ?w0] =>
    destruct (iterate_keeps stop out_dir ids s0 w0)
      as (_ & _ & _ & _ & _ & Hsub);
    destruct (iterate stop out_dir ids s0 w0) as [st' w'] end.
  unfold finish. cbn [fst snd] in *. destruct (raised st'); [done|].
  cbn [fst snd write_name_map_json name_map_json].
  intros [= <-]. split; [done|]. intros slug name Hl.
  by eapply lookup_weaken.
Qed.

(** X13: when the first lines of main raise nothing and discovery then
    fails, the run ends with that failure and has persisted nothing:
    progress.json and site_name_map.json are as they were, no export was
    triggered, and only the bootstrap page was visited. *)
Theorem main_discovery_failure (fuel : nat) (w : World) :
  (make_dirs out_dir w).1 = Returned tt ->
  (forall ids, (get_all_site_ids fuel w).1 <> Ok ids) ->
  let r := main fuel out_dir stop w in
  r.1 = match (get_all_site_ids fuel w).1 with
        | TimedOut => TimedOut
        | _ => OutOfFuel
        end
  /\ progress_json r.2 = progress_json w
  /\ name_map_json r.2 = name_map_json w
  /\ dl_log r.2 = dl_log w
  /\ nav_log r.2 = nav_log w ++ [first_url 0].
Proof.
  intros Hmk Hfail. cbv zeta.
  rewrite (main_returned fuel out_dir stop w Hmk).
  destruct (discovery_frame fuel out_dir w) as (_ & Hp & Hm & Hn & Hd & _).
  cbv zeta in *.
  pose proof (get_all_site_ids_no_os_error fuel w) as Hno.
  destruct (get_all_site_ids fuel w).1 as [site_ids| | |]; try done.
  by destruct (Hfail site_ids).
Qed.

(** X14: a run whose first lines raise nothing and that finds the marker
    on the last discovered identifier has nothing left to do: it attempts
    no item, triggers no export, leaves progress.json as it was and
    rewrites the name map it loaded. *)
Theorem main_nothing_left (fuel : nat) (w : World) (site_ids : list Z) (v : Z) :
  (make_dirs out_dir w).1 = Returned tt ->
  (get_all_site_ids fuel w).1 = Ok site_ids ->
  progress_json w = Some (Some v) ->
  last site_ids = Some v ->
  let r := main fuel out_dir stop w in
  (exists st, r.1 = Ok st /\ attempts st = [] /\ misses st = 0)
  /\ progress_json r.2 = progress_json w
  /\ name_map_json r.2 = Some (default ∅ (name_map_json w))
  /\ nav_log r.2 = nav_log w ++ [first_url 0]
  /\ dl_log r.2 = dl_log w.
Proof.
  intros Hmk Hdisc Hmark Hlast. cbv zeta.
  pose proof (get_all_site_ids_sorted fuel w site_ids Hdisc) as Hsorted.
  rewrite (main_returned fuel out_dir stop w Hmk), Hdisc, Hmark.
  change (default None (Some (Some v))) with (Some v).
  rewrite last_lookup in Hlast.
  rewrite (start_idx_found site_ids _ v (StronglySorted_lt_NoDup _ Hsorted) Hlast).
  assert (Hlen : S (pred (length site_ids)) = length site_ids).
  { apply lookup_lt_Some in Hlast. lia. }
  rewrite Hlen, drop_all. cbn [iterate].
  unfold mret, M_ret, finish, initial_state. cbn [fst snd raised name_map].
  destruct (discovery_frame fuel out_dir w) as (_ & Hp & Hm & Hn & Hd & _).
  cbv zeta in *. unfold loop_entry.
  cbn [write_name_map_json snd tock progress_json name_map_json nav_log
       dl_log attempts misses].
  split; [by eexists|]. rewrite Hp, Hn, Hd. by rewrite Hmark.
Qed.

(** The loop stops at the first failure whenever the threshold is at most
    one, from any state whose counter is not negative. *)
Lemma iterate_low_threshold (ids : list Z) :
  stop <= 1 ->
  forall (st : LoopState) (w : World),
    0 <= misses st ->
    Forall (fun a => a.2 = true) (attempts st) ->
    Forall (fun a => a.2 = true)
      (removelast (attempts (iterate stop out_dir ids st w).1)).
Proof.
  intros Hstop.
  assert (Hinit : forall l : list (Z * bool),
    Forall (fun a => a.2 = true) l ->
    Forall (fun a => a.2 = true) (removelast l)).
  { intros l Hall. destruct l as [|a l] using rev_ind; [done|].
    rewrite removelast_last. by apply Forall_app in Hall as [? _]. }
  induction ids as [|site_id rest IH]; intros st w Hm Hall.
  { cbn [iterate]. unfold mret, M_ret. cbn [fst]. by apply Hinit. }
  cbn [iterate]. unfold mbind, M_bind, time_time, answer. cbn [fst snd].
  destruct (pull_one_site site_id out_dir (name_map st) (tock (tock w)))
    as [[[ok|] nm] w3].
  2:{ unfold mret, M_ret. cbn [fst attempts]. by apply Hinit. }
  destruct ok.
  - cbn [write_progress_json snd]. apply IH; [done|].
    cbn [attempts]. apply Forall_app. split; [done|]. by constructor.
  - replace (stop <=? misses st + 1) with true by (symmetry; apply Z.leb_le; lia).
    unfold mret, M_ret. cbn [fst attempts]. by rewrite removelast_last.
Qed.

(** X15: a threshold of one or less does not switch the circuit breaker
    off: the loop behaves exactly as with threshold 1 and ends at the
    first failed item, so every attempt but the last one succeeded. *)
Theorem breaker_cannot_be_disabled (ids : list Z)
    (last_site : option Z) (nm : gmap str str) (w : World) :
  stop <= 1 ->
  iterate stop out_dir ids (initial_state last_site nm) w
  = iterate 1 out_dir ids (initial_state last_site nm) w
  /\ Forall (fun a => a.2 = true)
       (removelast
          (attempts (iterate stop out_dir ids (initial_state last_site nm) w).1)).
Proof.
  intros Hstop. split; [|by apply iterate_low_threshold].
  rewrite iterate_threshold by done. by rewrite Z.max_l by lia.
Qed.

(** X16: after the loop progress.json names the identifier attempted last,
    unless that attempt tripped the circuit breaker: then it names the
    identifier attempted before it, or is as it was before the loop when
    there is none. *)
Theorem progress_marker_after_loop (ids : list Z)
    (last_site : option Z) (nm : gmap str str) (w : World) :
  1 <= stop ->
  let r := iterate stop out_dir ids (initial_state last_site nm) w in
  progress_json r.2
  = marker_after (progress_json w)
      (if decide (misses r.1 < stop) then attempts r.1
       else removelast (attempts r.1)).
Proof.
  intros Hstop. cbv zeta.
  destruct (iterate_marker stop out_dir Hstop ids
              (initial_state last_site nm) w eq_refl ltac:(simpl; lia))
    as (done & Hatt & _ & Hmark).
  simpl in Hatt. by rewrite Hatt.
Qed.

Lemma deque3_append_length (d : list Q) (x : Q) :
  length (deque3_append d x) = Nat.min 3 (length d + 1).
Proof.
  unfold deque3_append. cbv zeta. rewrite length_drop, length_app.
  cbn [length]. lia.
Qed.

Lemma iterate_window (ids : list Z) :
  forall (st : LoopState) (w : World),
    (length (last3 st) <= 3)%nat ->
    let st' := (iterate stop out_dir ids st w).1 in
    exists done,
      attempts st' = attempts st ++ done
      /\ length (last3 st')
         = Nat.min 3 (length (last3 st) + length (List.filter snd done)).
Proof.
  induction ids as [|site_id rest IH]; intros st w Hlen.
  { exists []. cbv zeta. cbn [iterate]. unfold mret, M_ret.
    cbn [fst List.filter length]. rewrite app_nil_r. split; [done | lia]. }
  cbn [iterate]. unfold mbind, M_bind, time_time, answer. cbn [fst snd].
  destruct (pull_one_site site_id out_dir (name_map st) (tock (tock w)))
    as [[[ok|] nm] w3].
  2:{ exists []. unfold mret, M_ret.
      cbn [fst attempts last3 List.filter length]. rewrite app_nil_r.
      split; [done | lia]. }
  destruct ok.
  - cbn [write_progress_json snd].
    match goal with |- context [iterate stop out_dir rest ?s1 ?w5] =>
      destruct (IH s1 w5) as (done & Hatt & Hl) end.
    { cbn [last3]. rewrite deque3_append_length. lia. }
    cbn [attempts last3] in Hatt, Hl. rewrite deque3_append_length in Hl.
    exists ((site_id, true) :: done). cbv zeta.
    split; [by rewrite Hatt, <- app_assoc|]. rewrite Hl.
    cbn [List.filter snd length]. lia.
  - destruct (stop <=? misses st + 1).
    + exists [(site_id, false)]. unfold mret, M_ret.
      cbn [fst attempts last3 List.filter snd length]. split; [done | lia].
    + cbn [write_progress_json snd].
      match goal with |- context [iterate stop out_dir rest ?s1 ?w5] =>
        destruct (IH s1 w5) as (done & Hatt & Hl) end; [done|].
      cbn [attempts last3] in Hatt, Hl.
      exists ((site_id, false) :: done). cbv zeta.
      split; [by rewrite Hatt, <- app_assoc|]. rewrite Hl.
      cbn [List.filter snd length]. lia.
Qed.

(** X17: the window of durations behind the ETA holds one entry per
    successful item, up to three: its length is the smaller of 3 and the
    number of successful attempts. *)
Theorem last3_window (ids : list Z)
    (last_site : option Z) (nm : gmap str str) (w : World) :
  let st' := (iterate stop out_dir ids (initial_state last_site nm) w).1 in
  length (last3 st') = Nat.min 3 (length (List.filter snd (attempts st'))).
Proof.
  cbv zeta.
  destruct (iterate_window ids (initial_state last_site nm) w)
    as (done & Hatt & Hl); [cbn [initial_state last3 length]; lia|].
  cbn [initial_state attempts last3 length app] in Hatt, Hl.
  by rewrite Hatt, Hl.
Qed.

(** X25: when one of the directories of the first lines of main cannot be
    made, the run ends with that error before the browser is used:
    nothing is visited, nothing is exported, neither state file is
    written, and no entry of the tree is touched. *)
Theorem main_raises_early (fuel : nat) (w : World) :
  (make_dirs out_dir w).1 = Raised ->
  let r := main fuel out_dir stop w in
  r.1 = OsError
  /\ nav_log r.2 = nav_log w
  /\ dl_log r.2 = dl_log w
  /\ tick r.2 = tick w
  /\ progress_json r.2 = progress_json w
  /\ name_map_json r.2 = name_map_json w
  /\ fs w ⊆ fs r.2.
Proof.
  intros Hmk. cbv zeta. rewrite (main_raised fuel out_dir stop w Hmk).
  destruct (make_dirs_grows out_dir w) as (Hs & Ht & Hn & Hd & Hp & Hm & Hg).
  done.
Qed.

End run_extras.

(** X26: os.makedirs(name, exist_ok=True) touches no existing entry and
    nothing but the tree.  When it returns, a directory is at name; it
    raises for the empty name and whenever an entry that is not a
    directory sits at name. *)
Theorem os_makedirs_outcome (name : str) (w : World) :
  let r := os_makedirs name w in
  only_tree_grows w r.2
  /\ (r.1 = Returned tt ->
      os_path_isdir (fs r.2) (OsPath.chomp name) = true)
  /\ (name = [] -> r = (Raised, w))
  /\ (forall st, fs w !! OsPath.chomp name = Some st ->
                 st_kind st <> Directory -> r.1 = Raised).
Proof.
  cbv zeta. destruct (os_makedirs_effect name w) as [Hg Hd]. cbv zeta in *.
  split; [exact Hg|]. split; [exact Hd|]. split; [by intros ->|].
  intros st Hst Hkind.
  destruct (os_makedirs name w) as [[[]|] w1]; [|done]. exfalso.
  cbn [fst snd] in *. destruct Hg as (_ & _ & _ & _ & _ & _ & Hsub).
  specialize (Hd eq_refl). unfold os_path_isdir in Hd.
  rewrite (lookup_weaken _ _ _ _ Hst Hsub) in Hd. cbn in Hd.
  by destruct (st_kind st).
Qed.

Lemma main_discovery_failure_witness :
  (make_dirs (py "out") offline_world).1 = Returned tt
  /\ (forall ids, (get_all_site_ids 100 offline_world).1 <> Ok ids)
  /\ let r := @main ascii_only_tables 100 (py "out") 30 offline_world in
     r.1 = match (get_all_site_ids 100 offline_world).1 with
           | TimedOut => TimedOut
           | _ => OutOfFuel
           end
     /\ progress_json r.2 = progress_json offline_world
     /\ name_map_json r.2 = name_map_json offline_world
     /\ dl_log r.2 = dl_log offline_world
     /\ nav_log r.2 = nav_log offline_world ++ [first_url 0].
Proof.
  assert (Hmk : (make_dirs (py "out") offline_world).1 = Returned tt)
    by (vm_compute; reflexivity).
  assert (Hfail : forall ids, (get_all_site_ids 100 offline_world).1 <> Ok ids)
    by (intros ids; vm_compute; discriminate).
  split; [exact Hmk|]. split; [exact Hfail|].
  exact (@main_discovery_failure ascii_only_tables 30 (py "out") 100
           offline_world Hmk Hfail).
Defined.

Lemma main_nothing_left_witness :
  (make_dirs (py "out") finished_world).1 = Returned tt
  /\ (get_all_site_ids 100 finished_world).1 = Ok [1; 2; 3]
  /\ progress_json finished_world = Some (Some 3)
  /\ last [1; 2; 3] = Some 3
  /\ let r := @main ascii_only_tables 100 (py "out") 30 finished_world in
     (exists st, r.1 = Ok st /\ attempts st = [] /\ misses st = 0)
     /\ progress_json r.2 = progress_json finished_world
     /\ name_map_json r.2 = Some (default ∅ (name_map_json finished_world))
     /\ nav_log r.2 = nav_log finished_world ++ [first_url 0]
     /\ dl_log r.2 = dl_log finished_world.
Proof.
  assert (Hmk : (make_dirs (py "out") finished_world).1 = Returned tt)
    by (vm_compute; reflexivity).
  assert (Hdisc : (get_all_site_ids 100 finished_world).1 = Ok [1; 2; 3])
    by (vm_compute; reflexivity).
  assert (Hmark : progress_json finished_world = Some (Some 3)) by reflexivity.
  assert (Hlast : last [1; 2; 3] = Some 3) by reflexivity.
  split; [exact Hmk|]. split; [exact Hdisc|]. split; [exact Hmark|].
  split; [exact Hlast|].
  exact (@main_nothing_left ascii_only_tables 30 (py "out") 100
           finished_world [1; 2; 3] 3 Hmk Hdisc Hmark Hlast).
Defined.

Lemma breaker_cannot_be_disabled_witness :
  0 <= 1
  /\ @iterate ascii_only_tables 0 (py "out") [1; 2; 3]
       (initial_state None ∅) offline_world
     = @iterate ascii_only_tables 1 (py "out") [1; 2; 3]
         (initial_state None ∅) offline_world
  /\ Forall (fun a => a.2 = true)
       (removelast
          (attempts (@iterate ascii_only_tables 0 (py "out") [1; 2; 3]
                       (initial_state None ∅) offline_world).1)).
Proof.
  assert (Hstop : 0 <= 1) by lia.
  split; [exact Hstop|].
  exact (@breaker_cannot_be_disabled ascii_only_tables 0 (py "out") [1; 2; 3]
           None ∅ offline_world Hstop).
Defined.

Lemma progress_marker_after_loop_witness :
  1 <= 2
  /\ let r := @iterate ascii_only_tables 2 (py "out") [1; 2; 3]
                (initial_state None ∅) offline_world in
     progress_json r.2
     = marker_after (progress_json offline_world)
         (if decide (misses r.1 < 2) then attempts r.1
          else removelast (attempts r.1)).
Proof.
  assert (Hstop : 1 <= 2) by lia.
  split; [exact Hstop|].
  exact (@progress_marker_after_loop ascii_only_tables 2 (py "out") [1; 2; 3]
           None ∅ offline_world Hstop).
Defined.

Lemma main_raises_early_witness :
  (make_dirs [] paced_world).1 = Raised
  /\ let r := @main ascii_only_tables 100 [] 30 paced_world in
     r.1 = OsError
     /\ nav_log r.2 = nav_log paced_world
     /\ dl_log r.2 = dl_log paced_world
     /\ tick r.2 = tick paced_world
     /\ progress_json r.2 = progress_json paced_world
     /\ name_map_json r.2 = name_map_json paced_world
     /\ fs paced_world ⊆ fs r.2.
Proof.
  assert (Hmk : (make_dirs [] paced_world).1 = Raised) by reflexivity.
  split; [exact Hmk|].
  exact (@main_raises_early ascii_only_tables 30 [] 100 paced_world Hmk).
Defined.

(** * More on the slug normaliser *)

Section filter_lemmas.
Variables (p q : N -> bool).
Hypothesis p_not_q : forall c, p c = true -> q c = false.

Lemma filter_reverse (l : str) :
  List.filter q (reverse l) = reverse (List.filter q l).
Proof.
  induction l as [|a l IH]; [done|].
  rewrite reverse_cons, List.filter_app, IH. cbn [List.filter].
  destruct (q a); [by rewrite reverse_cons | by rewrite app_nil_r].
Qed.

Lemma filter_lstrip_by (s : str) :
  List.filter q (Py.lstrip_by p s) = List.filter q s.
Proof.
  induction s as [|a s IH]; [done|]. cbn [Py.lstrip_by].
  destruct (p a) eqn:E; [|done]. cbn [List.filter].
  by rewrite (p_not_q a E).
Qed.

Lemma filter_strip_by (s : str) :
  List.filter q (Py.strip_by p s) = List.filter q s.
Proof.
  unfold Py.strip_by, Py.rstrip_by.
  rewrite filter_reverse, filter_lstrip_by, filter_reverse,
    reverse_involutive.
  apply filter_lstrip_by.
Qed.

Lemma filter_collapse_runs (b : bool) (s : str) :
  q 0x5F%N = false ->
  List.filter q (SlugSpec.collapse_runs p b s) = List.filter q s.
Proof.
  intros Hu. revert b. induction s as [|a s IH]; intros b; [done|].
  cbn [SlugSpec.collapse_runs]. destruct (p a) eqn:E.
  - rewrite List.filter_app, IH. cbn [List.filter].
    rewrite (p_not_q a E). destruct b; [done|].
    cbn [List.filter]. by rewrite Hu.
  - cbn [List.filter]. by rewrite IH.
Qed.

End filter_lemmas.

Lemma lstrip_by_blank (p : N -> bool) (pre s : str) :
  Forall (fun c => p c = true) pre ->
  Py.lstrip_by p (pre ++ s) = Py.lstrip_by p s.
Proof.
  induction 1 as [|a pre Ha _ IH]; [done|].
  cbn [app Py.lstrip_by]. by rewrite Ha.
Qed.

Lemma strip_by_blank (p : N -> bool) (pre s post : str) :
  Forall (fun c => p c = true) pre ->
  Forall (fun c => p c = true) post ->
  Py.strip_by p (pre ++ s ++ post) = Py.strip_by p s.
Proof.
  intros Hpre Hpost. unfold Py.strip_by. rewrite lstrip_by_blank by done.
  rewrite lstrip_by_app.
  destruct (Py.lstrip_by p s) as [|a l] eqn:E.
  - pose proof (lstrip_by_blank p post [] Hpost) as Hb.
    rewrite app_nil_r in Hb. by rewrite Hb.
  - unfold Py.rstrip_by. rewrite reverse_app, lstrip_by_blank; [done|].
    by apply Forall_reverse.
Qed.

Lemma isspace_ascii_lower (c : N) :
  Py.isspace (Py.ascii_lower c) = Py.isspace c.
Proof.
  unfold Py.ascii_lower.
  destruct ((65 <=? c) && (c <=? 90))%N eqn:E; [|done].
  apply andb_true_iff in E as [E1%N.leb_le E2%N.leb_le].
  transitivity false; [|symmetry]; unfold Py.isspace;
    repeat (apply orb_false_iff; split);
    rewrite ?andb_false_iff, ?N.leb_gt, ?N.eqb_neq; lia.
Qed.

Lemma lstrip_by_fmap (p : N -> bool) (f : N -> N) (s : str) :
  (forall c, p (f c) = p c) ->
  Py.lstrip_by p (f <$> s) = f <$> Py.lstrip_by p s.
Proof.
  intros Hf. induction s as [|a s IH]; [done|].
  rewrite fmap_cons. cbn [Py.lstrip_by]. rewrite Hf.
  destruct (p a); [exact IH | by rewrite fmap_cons].
Qed.

Lemma strip_by_fmap (p : N -> bool) (f : N -> N) (s : str) :
  (forall c, p (f c) = p c) ->
  Py.strip_by p (f <$> s) = f <$> Py.strip_by p s.
Proof.
  intros Hf. unfold Py.strip_by, Py.rstrip_by.
  rewrite lstrip_by_fmap, <- fmap_reverse, lstrip_by_fmap, fmap_reverse
    by exact Hf.
  done.
Qed.

Lemma ascii_lower_idem (c : N) :
  Py.ascii_lower (Py.ascii_lower c) = Py.ascii_lower c.
Proof.
  unfold Py.ascii_lower.
  destruct ((65 <=? c) && (c <=? 90))%N eqn:E; [|by rewrite E].
  apply andb_true_iff in E as [E1%N.leb_le E2%N.leb_le].
  replace ((65 <=? c + 32) && (c + 32 <=? 90))%N with false; [done|].
  symmetry. apply andb_false_iff. right. apply N.leb_gt. lia.
Qed.

Lemma ascii_lower_ascii (c : N) : (c < 128 -> Py.ascii_lower c < 128)%N.
Proof.
  unfold Py.ascii_lower. intros Hc.
  destruct ((65 <=? c) && (c <=? 90))%N eqn:E; [|done].
  apply andb_true_iff in E as [E1%N.leb_le E2%N.leb_le]. lia.
Qed.

Section slug_extras.
Context `{Py.CaseTables}.

Lemma lower_from_ascii (whole : str) (i : nat) (s : str) :
  Forall (fun c => (c < 128)%N) s ->
  Py.lower_from whole i s = Py.ascii_lower <$> s.
Proof.
  intros Hs. revert i. induction Hs as [|c t Hc _ IH]; intros i; [done|].
  cbn [Py.lower_from]. rewrite IH, fmap_cons.
  by rewrite (proj2 (N.ltb_lt _ _) Hc).
Qed.

Lemma slugify_letters (x : str) :
  List.filter is_lower_alnum (slugify_site_name x)
  = List.filter is_lower_alnum
      (Py.replace (py "&") (py " and ") (Py.lower (Py.strip x))).
Proof.
  rewrite slugify_pipeline.
  unfold SlugSpec.pipeline, SlugSpec.trim_underscores,
    SlugSpec.trim_whitespace, SlugSpec.strip_quotes,
    SlugSpec.expand_ampersand, Py.strip.
  change (py "&") with [0x26%N]. rewrite replace_single.
  rewrite filter_strip_by.
  2:{ by intros c ->%is_underscore_spec. }
  rewrite filter_collapse_runs; [| |done].
  2:{ by intros c ->%is_underscore_spec. }
  rewrite filter_collapse_runs; [| |done].
  2:{ intros c Hc. by apply negb_true_iff. }
  match goal with |- context [List.filter _ (List.filter _ ?l)] =>
    generalize l end.
  intros l. induction l as [|a l IH]; [done|].
  cbn [List.filter]. destruct (is_quote a) eqn:Eq; cbn [negb List.filter].
  - rewrite IH. replace (is_lower_alnum a) with false; [done|].
    symmetry. unfold is_quote in Eq. unfold is_lower_alnum.
    rewrite !orb_true_iff, !N.eqb_eq in Eq.
    apply orb_false_iff. rewrite !andb_false_iff, !N.leb_gt. lia.
  - by rewrite IH.
Qed.

(** X18: the lowercase letters and digits of a slug are exactly those of
    the trimmed, lowercased name with every ampersand spelt out, in the
    same order: the normaliser drops and merges separators only. *)
Theorem slugify_keeps_letters_and_digits (x : str) :
  List.filter is_lower_alnum (slugify_site_name x)
  = List.filter is_lower_alnum
      (Py.replace (py "&") (py " and ") (Py.lower (Py.strip x)))
  /\ Forall (fun c => is_lower_alnum c = true \/ c = 0x5F%N)
       (slugify_site_name x).
Proof.
  split; [apply slugify_letters|].
  destruct (slugify_shape x) as (F & _). eapply Forall_impl; [exact F|].
  intros c Hc. unfold is_slug_char in Hc.
  apply orb_true_iff in Hc as [Hc|Hc%is_underscore_spec]; auto.
Qed.

(** X19: the slug is empty exactly when the trimmed, lowercased name holds
    no lowercase letter, no digit and no ampersand. *)
Theorem slugify_empty_iff (x : str) :
  slugify_site_name x = []
  <-> Forall (fun c => is_lower_alnum c = false /\ c <> 0x26%N)
        (Py.lower (Py.strip x)).
Proof.
  assert (Hexp : forall l : str,
    List.filter is_lower_alnum
      (c ← l; if (c =? 0x26)%N then py " and " else [c]) = []
    <-> Forall (fun c => is_lower_alnum c = false /\ c <> 0x26%N) l).
  { induction l as [|a l IH]; [by split; [constructor|]|].
    rewrite bind_cons, List.filter_app, Forall_cons, <- IH.
    destruct (a =? 0x26)%N eqn:Ea.
    - apply N.eqb_eq in Ea as ->. split; [discriminate|].
      by intros [[_ ?] _].
    - apply N.eqb_neq in Ea. cbn [List.filter].
      destruct (is_lower_alnum a); [split; [discriminate | by intros [[? _] _]]|].
      cbn [app]. tauto. }
  rewrite <- Hexp, <- replace_single. change [0x26%N] with (py "&").
  rewrite <- slugify_letters.
  destruct (slugify_shape x) as (F & _ & Hhead & _).
  destruct (slugify_site_name x) as [|c t]; [done|].
  split; [discriminate|]. intros Hnil. exfalso.
  apply Forall_cons in F as [Hc _]. unfold is_slug_char in Hc.
  cbn [List.filter] in Hnil.
  rewrite (Hhead c eq_refl), orb_false_r in Hc. by rewrite Hc in Hnil.
Qed.

(** X20: white space around a name does not change its slug. *)
Theorem slugify_ignores_outer_blanks (pre x post : str) :
  Forall (fun c => Py.isspace c = true) pre ->
  Forall (fun c => Py.isspace c = true) post ->
  slugify_site_name (pre ++ x ++ post) = slugify_site_name x.
Proof.
  intros Hpre Hpost. unfold slugify_site_name, Py.strip.
  by rewrite strip_by_blank.
Qed.

(** X21: on a name of ASCII code points the slug does not depend on the
    case of the letters. *)
Theorem slugify_ignores_ascii_case (x : str) :
  Forall (fun c => (c < 128)%N) x ->
  slugify_site_name (Py.ascii_lower <$> x) = slugify_site_name x.
Proof.
  intros Hx.
  assert (Hlow : Py.lower (Py.strip (Py.ascii_lower <$> x))
                 = Py.lower (Py.strip x)).
  { unfold Py.strip. rewrite strip_by_fmap by exact isspace_ascii_lower.
    assert (Hs : Forall (fun c => (c < 128)%N) (Py.strip_by Py.isspace x)).
    { destruct (strip_by_sublist Py.isspace x) as (k1 & k2 & Hk).
      rewrite Hk in Hx. by apply Forall_app in Hx as [_ [? _]%Forall_app]. }
    unfold Py.lower. rewrite !lower_from_ascii; [| exact Hs |].
    - rewrite <- list_fmap_compose. apply list_fmap_ext.
      intros _ c _. apply ascii_lower_idem.
    - apply Forall_fmap. eapply Forall_impl; [exact Hs|].
      intros c. apply ascii_lower_ascii. }
  unfold slugify_site_name. by rewrite Hlow.
Qed.

End slug_extras.

Lemma slugify_ignores_outer_blanks_witness :
  Forall (fun c => Py.isspace c = true) (py "  ")
  /\ Forall (fun c => Py.isspace c = true) [0x0A%N]
  /\ @slugify_site_name ascii_only_tables
       (py "  " ++ py "Lung & Bronchus" ++ [0x0A%N])
     = @slugify_site_name ascii_only_tables (py "Lung & Bronchus").
Proof.
  assert (Hpre : Forall (fun c => Py.isspace c = true) (py "  "))
    by (repeat constructor).
  assert (Hpost : Forall (fun c => Py.isspace c = true) [0x0A%N])
    by (repeat constructor).
  split; [exact Hpre|]. split; [exact Hpost|].
  exact (@slugify_ignores_outer_blanks ascii_only_tables _ _ _ Hpre Hpost).
Defined.

Lemma slugify_ignores_ascii_case_witness :
  Forall (fun c => (c < 128)%N) (py "Lung")
  /\ @slugify_site_name ascii_only_tables (Py.ascii_lower <$> py "Lung")
     = @slugify_site_name ascii_only_tables (py "Lung").
Proof.
  assert (Hx : Forall (fun c => (c < 128)%N) (py "Lung"))
    by (repeat constructor).
  split; [exact Hx|].
  exact (@slugify_ignores_ascii_case ascii_only_tables _ Hx).
Defined.

(** * Whole seconds *)

(** X22: a duration is printed by its whole seconds alone: the fraction is
    dropped, and everything under one second prints as "0s". *)
Theorem fmt_seconds_whole_seconds (x : Q) :
  fmt_seconds x = fmt_seconds (inject_Z (Qfloor x))
  /\ ((x < 1)%Q -> fmt_seconds x = py "0s").
Proof.
  assert (Hzero : forall y : Q, (y <= 0)%Q -> fmt_seconds y = py "0s").
  { intros y Hy. unfold fmt_seconds. by rewrite (proj2 (Qle_bool_iff y 0) Hy). }
  assert (Hsmall : forall y : Q, (0 < y)%Q -> Qfloor y = 0 ->
                                 fmt_seconds y = py "0s").
  { intros y Hy Hf. rewrite (fmt_seconds_positive y Hy), Hf. reflexivity. }
  assert (Hle : forall y : Q, (y <= 0)%Q -> Qfloor y <= 0).
  { intros y Hy. change (Qfloor y <= Qfloor (inject_Z 0)).
    by apply Qfloor_resp_le. }
  assert (Hge : forall y : Q, (0 < y)%Q -> 0 <= Qfloor y).
  { intros y Hy. change (Qfloor (inject_Z 0) <= Qfloor y).
    by apply Qfloor_resp_le, Qlt_le_weak. }
  split.
  - destruct (Qlt_le_dec 0 x) as [Hpos|Hneg].
    + destruct (Z_lt_le_dec 0 (Qfloor x)) as [Hf|Hf].
      * assert (Hpos' : (0 < inject_Z (Qfloor x))%Q).
        { change 0%Q with (inject_Z 0). by rewrite <- Zlt_Qlt. }
        rewrite (fmt_seconds_positive x Hpos),
          (fmt_seconds_positive _ Hpos'), Qfloor_Z. reflexivity.
      * assert (Hf0 : Qfloor x = 0) by (specialize (Hge x Hpos); lia).
        rewrite (Hsmall x Hpos Hf0), Hf0. reflexivity.
    + rewrite (Hzero x Hneg). symmetry. apply Hzero.
      change 0%Q with (inject_Z 0). rewrite <- Zle_Qle. by apply Hle.
  - intros Hlt. destruct (Qlt_le_dec 0 x) as [Hpos|Hneg]; [|by apply Hzero].
    apply Hsmall; [done|].
    assert (Qfloor x < 1); [|specialize (Hge x Hpos); lia].
    apply Z.lt_nge. intros Hc. apply (Qlt_not_le _ _ Hlt).
    apply Qle_trans with (inject_Z (Qfloor x)); [|apply Qfloor_le].
    change 1%Q with (inject_Z 1). by rewrite <- Zle_Qle.
Qed.

(** * Artifact paths *)

Lemma starts_with_sep_plain (k : str) :
  Forall (fun c => c <> OsPath.sep) k -> OsPath.starts_with_sep k = false.
Proof.
  intros [|c t Hc _]; [done|]. unfold OsPath.starts_with_sep.
  apply N.eqb_neq. exact Hc.
Qed.

Lemma ends_with_sep_plain (l k : str) :
  Forall (fun c => c <> OsPath.sep) k -> k <> [] ->
  OsPath.ends_with_sep (l ++ k) = false.
Proof.
  intros Hk Hne. unfold OsPath.ends_with_sep.
  destruct k as [|c t _] using rev_ind; [done|].
  rewrite app_assoc, last_snoc.
  apply Forall_app in Hk as [_ Hc]. apply Forall_inv in Hc.
  cbv beta iota. by apply N.eqb_neq.
Qed.

(** What [join] puts in front of a relative component depends on the
    directory alone. *)
Lemma join2_base (d : str) :
  exists base, forall k,
    OsPath.starts_with_sep k = false -> OsPath.join2 d k = base ++ k.
Proof.
  unfold OsPath.join2.
  destruct (match d with [] => true | _ => OsPath.ends_with_sep d end).
  - exists d. by intros k ->.
  - exists (d ++ [OsPath.sep]). intros k ->. by rewrite <- app_assoc.
Qed.

Lemma keys_plain :
  Forall (fun spec => Forall (fun c => c <> OsPath.sep) (key spec)
                      /\ key spec <> []) SPECS.
Proof.
  repeat constructor; by vm_compute.
Qed.

Lemma keys_distinct (spec1 spec2 : PullSpec) :
  spec1 ∈ SPECS -> spec2 ∈ SPECS -> key spec1 = key spec2 -> spec1 = spec2.
Proof.
  unfold SPECS. rewrite !elem_of_cons, !elem_of_nil.
  intros [->|[->|[->|[]]]] [->|[->|[->|[]]]]; first [done | by vm_compute].
Qed.

Lemma csv_plain (slug : str) :
  Forall (fun c => c <> OsPath.sep) slug ->
  Forall (fun c => c <> OsPath.sep) (slug ++ py ".csv").
Proof.
  intros Hs. apply Forall_app. split; [exact Hs|].
  repeat constructor; by vm_compute.
Qed.

Lemma artifact_path_shape (out_dir : str) (spec : PullSpec) (slug : str) :
  spec ∈ SPECS ->
  Forall (fun c => c <> OsPath.sep) slug ->
  artifact_path out_dir spec slug
  = OsPath.join out_dir [key spec] ++ [OsPath.sep] ++ slug ++ py ".csv".
Proof.
  intros Hspec Hslug.
  destruct (proj1 (Forall_forall _ _) keys_plain spec Hspec) as [Hk Hne].
  unfold artifact_path, OsPath.join. cbn [foldl].
  destruct (join2_base out_dir) as [base Hbase].
  rewrite (Hbase _ (starts_with_sep_plain _ Hk)).
  unfold OsPath.join2 at 1.
  rewrite (starts_with_sep_plain _ (csv_plain slug Hslug)).
  rewrite (ends_with_sep_plain base _ Hk Hne).
  destruct (base ++ key spec) eqn:E; [|done].
  apply app_eq_nil in E as [_ E]. by destruct Hne.
Qed.

Lemma split_at_first (c : N) (a b r1 r2 : str) :
  Forall (fun x => x <> c) a -> Forall (fun x => x <> c) b ->
  a ++ c :: r1 = b ++ c :: r2 -> a = b /\ r1 = r2.
Proof.
  intros Ha. revert b. induction Ha as [|x a Hx _ IH]; intros b Hb Heq.
  - destruct Hb as [|y b Hy _]; [by simplify_eq/=|].
    simplify_eq/=.
  - destruct Hb as [|y b Hy Hb]; [simplify_eq/=|].
    cbn [app] in Heq. injection Heq as -> Heq.
    destruct (IH b Hb Heq) as [-> ->]. done.
Qed.

(** X23: two artifacts never share a file: the path of an artifact
    determines its kind and its slug, whenever the slugs hold no path
    separator, as every slug of the normaliser does. *)
Theorem artifact_path_injective (out_dir : str) (spec1 spec2 : PullSpec)
    (slug1 slug2 : str) :
  spec1 ∈ SPECS -> spec2 ∈ SPECS ->
  Forall (fun c => c <> OsPath.sep) slug1 ->
  Forall (fun c => c <> OsPath.sep) slug2 ->
  artifact_path out_dir spec1 slug1 = artifact_path out_dir spec2 slug2
  <-> spec1 = spec2 /\ slug1 = slug2.
Proof.
  intros Hs1 Hs2 Hp1 Hp2. split; [|by intros [-> ->]].
  rewrite !artifact_path_shape by assumption.
  destruct (proj1 (Forall_forall _ _) keys_plain spec1 Hs1) as [Hk1 _].
  destruct (proj1 (Forall_forall _ _) keys_plain spec2 Hs2) as [Hk2 _].
  unfold OsPath.join. cbn [foldl].
  destruct (join2_base out_dir) as [base Hbase].
  rewrite !Hbase by by apply starts_with_sep_plain.
  rewrite <- !app_assoc. intros Heq%app_inv_head.
  apply split_at_first in Heq as [Hk Hf]; [|done..].
  split; [by apply keys_distinct|]. by apply app_inv_tail in Hf.
Qed.

(** X24: the directory download_csv creates for an artifact is the
    directory of its kind, the one main creates before the run. *)
Theorem artifact_path_dirname (out_dir : str) (spec : PullSpec) (slug : str) :
  spec ∈ SPECS ->
  Forall (fun c => c <> OsPath.sep) slug ->
  OsPath.dirname (artifact_path out_dir spec slug)
  = OsPath.join out_dir [key spec].
Proof.
  intros Hspec Hslug. rewrite artifact_path_shape by assumption.
  destruct (proj1 (Forall_forall _ _) keys_plain spec Hspec) as [Hk Hne].
  unfold OsPath.join. cbn [foldl].
  destruct (join2_base out_dir) as [base Hbase].
  rewrite (Hbase _ (starts_with_sep_plain _ Hk)).
  set (dir := base ++ key spec). set (f := slug ++ py ".csv").
  assert (Hf : Forall (fun c => negb (c =? OsPath.sep)%N = true) (reverse f)).
  { apply Forall_reverse. eapply Forall_impl; [exact (csv_plain slug Hslug)|].
    intros c Hc. by apply negb_true_iff, N.eqb_neq. }
  unfold OsPath.dirname.
  assert (Hhead : reverse (Py.lstrip_by (fun c => negb (c =? OsPath.sep)%N)
                             (reverse (dir ++ [OsPath.sep] ++ f)))
                  = dir ++ [OsPath.sep]).
  { rewrite !reverse_app, <- app_assoc, lstrip_by_blank by exact Hf.
    rewrite reverse_singleton. cbn [app Py.lstrip_by].
    rewrite N.eqb_refl. cbn [negb].
    by rewrite reverse_cons, reverse_involutive. }
  rewrite Hhead.
  assert (Hlast : forall c, last dir = Some c -> (c =? OsPath.sep)%N = false).
  { intros c Hc. pose proof (ends_with_sep_plain base _ Hk Hne) as He.
    unfold OsPath.ends_with_sep in He. fold dir in He. by rewrite Hc in He. }
  replace (forallb (fun c => (c =? OsPath.sep)%N) (dir ++ [OsPath.sep]))
    with false.
  2:{ symmetry. apply not_true_iff_false. rewrite forallb_forall.
      intros Hall. destruct (last dir) as [c|] eqn:Ec.
      - specialize (Hlast c eq_refl). apply last_Some in Ec as [l' El].
        rewrite (Hall c) in Hlast; [done|].
        apply in_or_app. left. rewrite El. apply in_or_app. right. by left.
      - apply last_None in Ec. unfold dir in Ec.
        apply app_eq_nil in Ec as [_ Ec]. by destruct Hne. }
  unfold Py.rstrip_by. rewrite reverse_app, reverse_singleton.
  cbn [app Py.lstrip_by]. rewrite N.eqb_refl.
  by apply rstrip_by_id.
Qed.

Lemma artifact_path_injective_witness :
  spec_at 0 ∈ SPECS /\ spec_at 2 ∈ SPECS
  /\ Forall (fun c => c <> OsPath.sep) (py "lung")
  /\ Forall (fun c => c <> OsPath.sep) (py "lung")
  /\ (artifact_path (py "out") (spec_at 0) (py "lung")
      = artifact_path (py "out") (spec_at 2) (py "lung")
      <-> spec_at 0 = spec_at 2 /\ py "lung" = py "lung").
Proof.
  assert (H0 : spec_at 0 ∈ SPECS) by (apply list_elem_of_here).
  assert (H2 : spec_at 2 ∈ SPECS)
    by (apply list_elem_of_further, list_elem_of_further, list_elem_of_here).
  assert (Hl : Forall (fun c => c <> OsPath.sep) (py "lung"))
    by (repeat constructor; by vm_compute).
  split; [exact H0|]. split; [exact H2|]. split; [exact Hl|].
  split; [exact Hl|].
  exact (artifact_path_injective (py "out") _ _ _ _ H0 H2 Hl Hl).
Defined.

Lemma artifact_path_dirname_witness :
  spec_at 1 ∈ SPECS
  /\ Forall (fun c => c <> OsPath.sep) (py "lung")
  /\ OsPath.dirname (artifact_path (py "out") (spec_at 1) (py "lung"))
     = OsPath.join (py "out") [key (spec_at 1)].
Proof.
  assert (H1 : spec_at 1 ∈ SPECS)
    by (apply list_elem_of_further, list_elem_of_here).
  assert (Hl : Forall (fun c => c <> OsPath.sep) (py "lung"))
    by (repeat constructor; by vm_compute).
  split; [exact H1|]. split; [exact Hl|].
  exact (artifact_path_dirname (py "out") _ _ H1 Hl).
Defined.
